(** * Alamo tools: bake pipeline and mesh validation

    A shallow embedding of [io_alamo_tools/validation.py] and
    [io_alamo_tools/bake_pipeline.py].

    Conventions of the embedding
    - Python floats that the code only compares with constants, adds and
      multiplies are modelled as exact rationals ([Q]); comparisons are the
      boolean ones of [QArith].
    - Host (Blender) data blocks are records; collections the code walks are
      lists; stores the code mutates are finite maps ([gmap]).
    - Code that can raise is written in a state-and-exception monad whose
      state survives a raise, as the host scene does in Python. *)

From Stdlib Require Import QArith Qminmax Ascii String Lqa.
From stdpp Require Import gmap strings list pretty.

Local Open Scope string_scope.
Local Open Scope list_scope.

(* ===================================================================== *)
(** * Mesh validation ([validation.py]) *)
(* ===================================================================== *)

Module Validation.

(** A finding is the pair [({'ERROR'}, msg)] or [({'WARNING'}, msg)]. *)
Inductive Severity := ERROR | WARNING.

Record Finding := { severity : Severity; message : string }.

#[global] Instance Severity_eq_dec : EqDecision Severity.
Proof. solve_decision. Defined.

#[global] Instance Finding_eq_dec : EqDecision Finding.
Proof. solve_decision. Defined.

(** [vertex.groups]: the pairs [{group, weight}] of one vertex. *)
Record VertexGroupElement := { group : nat; weight : Q }.

Record MeshVertex := { groups : list VertexGroupElement }.

Record Material := { shaderList : string }.

(** The part of a scene object the checks read.  [vertex_groups] is [None]
    when the attribute is [None]; [loops] is [len(object.data.loops)]. *)
Record Object := {
  name : string;
  type : string;
  loops : N;
  vertices : list MeshVertex;
  vertex_groups : option (list string);
  active_material : option Material
}.

Definition is_error (f : Finding) : bool :=
  match severity f with ERROR => true | WARNING => false end.

Definition is_warning (f : Finding) : bool :=
  match severity f with WARNING => true | ERROR => false end.

(** ** checkFaceNumber *)

Definition checkFaceNumber (object : Object) : list Finding :=
  if decide (65535 < loops object)%N then
    [ {| severity := ERROR;
         message := "ALAMO - " +:+ name object +:+
           " exceeds maximum face limit 65535; split mesh into multiple objects; loop count = "
           +:+ pretty (loops object) |} ]
  else if decide (60000 < loops object)%N then
    [ {| severity := WARNING;
         message := "ALAMO - " +:+ name object +:+
           " close to maximum face limit 65535; split mesh into multiple objects; loop count = "
           +:+ pretty (loops object) |} ]
  else [].

(** ** checkVertexGroups *)

(** [x not in [0, 1]] on a number. *)
Definition not_in_0_1 (x : Q) : bool :=
  negb (Qeq_bool x 0 || Qeq_bool x 1).

Definition improper_vertex_groups (object : Object) : list Finding :=
  [ {| severity := ERROR;
       message := "ALAMO - Object " +:+ name object +:+ " has improper vertex groups" |} ].

(** The inner [for group in vertex.groups] loop: [inl tt] is the early
    [return] of the error, [inr total] the accumulated total. *)
Fixpoint sum_weights (gs : list VertexGroupElement) (total : Q) : unit + Q :=
  match gs with
  | [] => inr total
  | g :: gs' =>
      if not_in_0_1 (weight g) then inl tt
      else sum_weights gs' (total + weight g)%Q
  end.

(** The outer [for vertex in object.data.vertices] loop; [true] when the
    function returned the error from inside the loop. *)
Fixpoint scan_vertices (vs : list MeshVertex) : bool :=
  match vs with
  | [] => false
  | v :: vs' =>
      match sum_weights (groups v) 0 with
      | inl _ => true
      | inr total => if not_in_0_1 total then true else scan_vertices vs'
      end
  end.

Definition checkVertexGroups (object : Object) : list Finding :=
  match vertex_groups object with
  | None => []
  | Some vgs =>
      if decide (length vgs = 0%nat) then []
      else if scan_vertices (vertices object) then improper_vertex_groups object
      else []
  end.

(** ** checkNumBones *)

(** [str.find(sub)]: the first index of [sub], or [-1]. *)
Definition str_find (s sub : string) : Z :=
  match String.index 0 sub s with
  | Some i => Z.of_nat i
  | None => (-1)%Z
  end.

(** The two nested loops that fill [used_groups]. *)
Definition used_groups_of_vertex (v : MeshVertex) : list nat :=
  group <$> filter (λ g, Qeq_bool (weight g) 1 = true) (groups v).

Definition used_groups (object : Object) : list nat :=
  vertices object ≫= used_groups_of_vertex.

(** [len(set(used_groups))] *)
Definition num_used_groups (object : Object) : nat :=
  size (list_to_set (used_groups object) : gset nat).

Definition too_many_bones (object : Object) : list Finding :=
  [ {| severity := ERROR;
       message := "ALAMO - Object " +:+ name object +:+ " has more than 23 bones." |} ].

(** The argument is [None] when the Python argument is [None]. *)
Definition checkNumBones (object : option Object) : list Finding :=
  match object with
  | None => []
  | Some obj =>
      if decide (type obj = "MESH") then
        match active_material obj with
        | Some material =>
            if decide (-1 < str_find (shaderList material) "RSkin")%Z then
              if decide (23 < num_used_groups obj)%nat then too_many_bones obj
              else []
            else []
        | None => []
        end
      else []
  end.

End Validation.

(* ===================================================================== *)
(** * Alpha processing ([bake_pipeline.process_alpha_channel]) *)
(* ===================================================================== *)

Module Alpha.

Local Open Scope Q_scope.

(** A host image: [size = (width, height)] and the flat RGBA buffer
    [image.pixels], four numbers per pixel, rows first. *)
Record Image := {
  img_name : string;
  width : nat;
  height : nat;
  pixels : list Q;
  filepath_raw : string;
  file_format : string
}.

Definition set_pixels (image : Image) (px : list Q) : Image :=
  {| img_name := img_name image; width := width image; height := height image;
     pixels := px; filepath_raw := filepath_raw image;
     file_format := file_format image |}.

(** Python's [max(a, b, c)] and [min(a, b, c)]: keep the first argument and
    replace it when a later one compares strictly greater (smaller). *)
Definition py_max3 (a b c : Q) : Q :=
  let m := if Qlt_le_dec a b then b else a in
  if Qlt_le_dec m c then c else m.

Definition py_min3 (a b c : Q) : Q :=
  let m := if Qlt_le_dec b a then b else a in
  if Qlt_le_dec c m then c else m.

(** Position of channel [c] of pixel [(y, x)] in the flat buffer of an image
    [w] pixels wide: what [reshape((h, w, 4))] and [flatten()] fix. *)
Definition chan (w y x c : nat) : nat := ((y * w + x) * 4 + c)%nat.

Definition rd (buf : list Q) (i : nat) : Q := default 0 (buf !! i).

(** [for i in range(n): body] over a threaded state. *)
Definition for_range {S : Type} (n : nat) (body : nat → S → S) (s : S) : S :=
  foldl (λ s i, body i s) s (seq 0 n).

(** Body of the two loops of the [EXTRACT_SATURATION] branch. *)
Definition saturation_body (w y x : nat) (buf : list Q) : list Q :=
  let r := rd buf (chan w y x 0) in
  let g := rd buf (chan w y x 1) in
  let b := rd buf (chan w y x 2) in
  let max_c := py_max3 r g b in
  let min_c := py_min3 r g b in
  let saturation :=
    if Qlt_le_dec 0 max_c then (max_c - min_c) / max_c else 0 in
  let buf :=
    if Qlt_le_dec 0.1 saturation
    then <[chan w y x 3 := 1.0]> buf
    else <[chan w y x 3 := 0.0]> buf in
  let gray := 0.299 * r + 0.587 * g + 0.114 * b in
  let buf := <[chan w y x 0 := gray]> buf in
  let buf := <[chan w y x 1 := gray]> buf in
  <[chan w y x 2 := gray]> buf.

(** [pixels[:, :, 3] = alpha_normalized] *)
Definition constant_body (alpha_normalized : Q) (w y x : nat) (buf : list Q) : list Q :=
  <[chan w y x 3 := alpha_normalized]> buf.

(** [np.array(image.pixels[:]).reshape((h, w, 4))] raises when the buffer does
    not hold [h * w * 4] numbers. *)
Definition reshape (image : Image) : option (list Q) :=
  if decide (length (pixels image) = height image * width image * 4)%nat
  then Some (pixels image) else None.

(** [None] is the exception of [reshape]; otherwise the image after the
    in-place update. *)
Definition process_alpha_channel (image : Image) (alpha_mode : string)
    (alpha_value : Z) : option Image :=
  if decide (alpha_mode = "EXTRACT_SATURATION") then
    buf ← reshape image;
    Some (set_pixels image
      (for_range (height image) (λ y,
         for_range (width image) (λ x, saturation_body (width image) y x)) buf))
  else if decide (alpha_mode = "CONSTANT") then
    let alpha_normalized := inject_Z alpha_value / 255.0 in
    buf ← reshape image;
    Some (set_pixels image
      (for_range (height image) (λ y,
         for_range (width image) (λ x,
           constant_body alpha_normalized (width image) y x)) buf))
  else Some image.

(** The saturation of a colour as the specification words it:
    (max(R,G,B) - min(R,G,B)) / max(R,G,B), and 0 when max is 0, with the
    greatest and the least of the three numbers. *)
Definition saturation_spec (r g b : Q) : Q :=
  let max_c := Qmax (Qmax r g) b in
  let min_c := Qmin (Qmin r g) b in
  if Qeq_bool max_c 0 then 0 else (max_c - min_c) / max_c.

End Alpha.

(* ===================================================================== *)
(** * Paths and strings the pipeline relies on ([os.path], [str]) *)
(* ===================================================================== *)

Module OsPath.

(** [s.rfind(c)] for a one-character [c], counted from position [i]. *)
Fixpoint rfind_from (c : ascii) (s : string) (i : nat) : option nat :=
  match s with
  | EmptyString => None
  | String a s' =>
      match rfind_from c s' (S i) with
      | Some j => Some j
      | None => if Ascii.eqb a c then Some i else None
      end
  end.

Definition rfind (s : string) (c : ascii) : Z :=
  match rfind_from c s 0 with
  | Some i => Z.of_nat i
  | None => (-1)%Z
  end.

(** [s[:n]] and [s[n:]] *)
Definition slice_to (s : string) (n : nat) : string := substring 0 n s.
Definition slice_from (s : string) (n : nat) : string :=
  substring n (String.length s - n) s.

Definition char_at (s : string) (i : nat) (c : ascii) : bool :=
  match String.get i s with
  | Some a => Ascii.eqb a c
  | None => false
  end.

Definition endswith (s suffix : string) : bool :=
  (String.length suffix <=? String.length s)%nat &&
  String.eqb (slice_from s (String.length s - String.length suffix)) suffix.

Definition startswith (s pre : string) : bool := String.prefix pre s.

(** [os.path.splitext]: the extension starts at the last dot of the last
    component, unless that component consists of leading dots only. *)
Definition splitext (p : string) : string * string :=
  let sepIndex := rfind p "/" in
  let dotIndex := rfind p "." in
  if decide (sepIndex < dotIndex)%Z then
    let filenameIndex := Z.to_nat (sepIndex + 1) in
    let dot := Z.to_nat dotIndex in
    if existsb (λ i, negb (char_at p i "."))
               (seq filenameIndex (dot - filenameIndex))
    then (slice_to p dot, slice_from p dot)
    else (p, "")
  else (p, "").

(** [os.path.basename] *)
Definition basename (p : string) : string :=
  slice_from p (Z.to_nat (rfind p "/" + 1)).

(** [head.rstrip('/')] *)
Fixpoint rstrip_sep (s : string) : string :=
  match s with
  | EmptyString => EmptyString
  | String a s' =>
      match rstrip_sep s' with
      | EmptyString => if Ascii.eqb a "/" then EmptyString else String a EmptyString
      | t => String a t
      end
  end.

(** [os.path.dirname] *)
Definition dirname (p : string) : string :=
  let head := slice_to p (Z.to_nat (rfind p "/" + 1)) in
  match rstrip_sep head with
  | EmptyString => head
  | stripped => stripped
  end.

(** [os.path.join] of two components, and of a first one with more. *)
Definition join2 (path b : string) : string :=
  if startswith b "/" then b
  else if decide (path = "") then b
  else if endswith path "/" then path +:+ b
  else path +:+ "/" +:+ b.

Definition join (a : string) (rest : list string) : string := foldl join2 a rest.

(** [str.lower] on ASCII letters. *)
Definition lower_ascii (a : ascii) : ascii :=
  let n := nat_of_ascii a in
  if (65 <=? n)%nat && (n <=? 90)%nat then ascii_of_nat (n + 32) else a.

Fixpoint lower (s : string) : string :=
  match s with
  | EmptyString => EmptyString
  | String a s' => String (lower_ascii a) (lower s')
  end.

(** [s.replace(old, new)] for a non-empty [old]; [skip] counts the characters
    of a match still to be dropped. *)
Fixpoint replace_from (old new : string) (s : string) (skip : nat) : string :=
  match s with
  | EmptyString => EmptyString
  | String a s' =>
      match skip with
      | S k => replace_from old new s' k
      | O =>
          if String.prefix old s
          then new +:+ replace_from old new s' (String.length old - 1)
          else String a (replace_from old new s' 0)
      end
  end.

Definition replace (s old new : string) : string := replace_from old new s 0.

End OsPath.

(* ===================================================================== *)
(** * The bake pipeline ([bake_pipeline.py]) *)
(* ===================================================================== *)

Module Bake.

Import Alpha OsPath.

(** ** Host data *)

(** A shader node of a material's node tree. *)
Record Node := {
  node_name : string;
  node_type : string;
  node_image : option string;
  node_select : bool
}.

(** A material data block: [use_nodes], [node_tree] ([None] until the
    material first uses nodes), the active node, the Alamo shader of
    [shaderList.shaderList] and the texture parameters written with
    [setattr]. *)
Record Mat := {
  use_nodes : bool;
  node_tree : option (list Node);
  active_node : option string;
  shader : string;
  tex_params : list (string * string)
}.

(** [mat.node_tree.nodes], read by the code only where [use_nodes] holds. *)
Definition nodes (mat : Mat) : list Node := default [] (node_tree mat).

(** A mesh object.  [o_parts] lists the vertex count of each loose part
    (connected component) of its mesh; [o_materials] are the material slots,
    [None] for an empty slot, otherwise the key of a shared material. *)
Record Obj := {
  o_name : string;
  o_type : string;
  o_parts : list nat;
  o_uv_layers : list string;
  o_materials : list (option string)
}.

Inductive FileKind := PNG | DDS | OtherFile.

#[global] Instance FileKind_eq_dec : EqDecision FileKind.
Proof. solve_decision. Defined.

Inductive Exn :=
  | BakeError              (* raised by [bpy.ops.object.bake] *)
  | SaveError (path : string)  (* raised by [image.save()] *)
  | ValueError             (* [reshape] on a buffer of the wrong size *)
  | AttributeError         (* attribute of [None] *)
  | TypeError              (* [os.path.splitext(None)] *)
  | IndexError             (* [objects[0]] of an empty list *)
  | ZeroDivisionError      (* [2.0 / resolution] *)
  | KeyError               (* [uv_layers[uv_name]] of a missing layer *)
  | ReferenceError.        (* a reference to a removed data block *)

#[global] Instance Exn_eq_dec : EqDecision Exn.
Proof. solve_decision. Defined.

(** The scene and its surroundings, as far as the pipeline reads or writes
    them.  Python references to objects are keys of [objects]; references to
    images and materials are their names in [bpy.data]. *)
Record World := {
  objects : gmap nat Obj;
  materials : gmap string Mat;
  images : gmap string Image;
  selected : list nat;
  active_object : option nat;
  render_engine : string;
  cycles_bake_type : string;
  bake_passes : bool * bool * bool;   (* direct, indirect, color *)
  files : gmap string FileKind;
  bake_calls : list string;           (* [bpy.ops.object.bake] calls so far *)
  alamo_texconv_path : string;
  appdata : option string             (* [os.getenv('APPDATA')] *)
}.

(** What the host does where the code cannot decide it. *)
Record Host := {
  bake_raises : string → bool;              (* the engine's bake fails *)
  bake_value : string → nat → Q;            (* what a bake writes at a position *)
  save_raises : string → bool;              (* [image.save()] to a path fails *)
  remove_raises : string → bool;            (* [os.remove] of a path fails *)
  load_library_raises : string → bool;      (* [ctypes.cdll.LoadLibrary] fails *)
  texconv_dll : list string → bool * bool;  (* result = 0, output written *)
  texconv_exe : list string → bool * bool;  (* exit status 0, output written *)
  (* the name a data block gets when [nm] is asked for and [taken] tells
     the names in use *)
  unique_name : (string → bool) → string → string;
  (* the loose parts of a mesh as [mesh.separate] takes them: the head
     stays in the object *)
  loose_parts : list nat → list nat;
  (* [bpy.context.selected_objects] after [mesh.separate] *)
  separated_order : list nat → list nat
}.

(** ** Field updates *)

Definition set_objects (f : gmap nat Obj → gmap nat Obj) (w : World) : World :=
  {| objects := f (objects w); materials := materials w; images := images w;
     selected := selected w; active_object := active_object w;
     render_engine := render_engine w; cycles_bake_type := cycles_bake_type w;
     bake_passes := bake_passes w; files := files w; bake_calls := bake_calls w;
     alamo_texconv_path := alamo_texconv_path w; appdata := appdata w |}.

Definition set_materials (f : gmap string Mat → gmap string Mat) (w : World) : World :=
  {| objects := objects w; materials := f (materials w); images := images w;
     selected := selected w; active_object := active_object w;
     render_engine := render_engine w; cycles_bake_type := cycles_bake_type w;
     bake_passes := bake_passes w; files := files w; bake_calls := bake_calls w;
     alamo_texconv_path := alamo_texconv_path w; appdata := appdata w |}.

Definition set_images (f : gmap string Image → gmap string Image) (w : World) : World :=
  {| objects := objects w; materials := materials w; images := f (images w);
     selected := selected w; active_object := active_object w;
     render_engine := render_engine w; cycles_bake_type := cycles_bake_type w;
     bake_passes := bake_passes w; files := files w; bake_calls := bake_calls w;
     alamo_texconv_path := alamo_texconv_path w; appdata := appdata w |}.

Definition set_selected (l : list nat) (w : World) : World :=
  {| objects := objects w; materials := materials w; images := images w;
     selected := l; active_object := active_object w;
     render_engine := render_engine w; cycles_bake_type := cycles_bake_type w;
     bake_passes := bake_passes w; files := files w; bake_calls := bake_calls w;
     alamo_texconv_path := alamo_texconv_path w; appdata := appdata w |}.

Definition set_active_object (a : option nat) (w : World) : World :=
  {| objects := objects w; materials := materials w; images := images w;
     selected := selected w; active_object := a;
     render_engine := render_engine w; cycles_bake_type := cycles_bake_type w;
     bake_passes := bake_passes w; files := files w; bake_calls := bake_calls w;
     alamo_texconv_path := alamo_texconv_path w; appdata := appdata w |}.

Definition set_render_engine (e : string) (w : World) : World :=
  {| objects := objects w; materials := materials w; images := images w;
     selected := selected w; active_object := active_object w;
     render_engine := e; cycles_bake_type := cycles_bake_type w;
     bake_passes := bake_passes w; files := files w; bake_calls := bake_calls w;
     alamo_texconv_path := alamo_texconv_path w; appdata := appdata w |}.

Definition set_cycles_bake_type (t : string) (w : World) : World :=
  {| objects := objects w; materials := materials w; images := images w;
     selected := selected w; active_object := active_object w;
     render_engine := render_engine w; cycles_bake_type := t;
     bake_passes := bake_passes w; files := files w; bake_calls := bake_calls w;
     alamo_texconv_path := alamo_texconv_path w; appdata := appdata w |}.

Definition set_bake_passes (p : bool * bool * bool) (w : World) : World :=
  {| objects := objects w; materials := materials w; images := images w;
     selected := selected w; active_object := active_object w;
     render_engine := render_engine w; cycles_bake_type := cycles_bake_type w;
     bake_passes := p; files := files w; bake_calls := bake_calls w;
     alamo_texconv_path := alamo_texconv_path w; appdata := appdata w |}.

Definition set_files (f : gmap string FileKind → gmap string FileKind) (w : World) : World :=
  {| objects := objects w; materials := materials w; images := images w;
     selected := selected w; active_object := active_object w;
     render_engine := render_engine w; cycles_bake_type := cycles_bake_type w;
     bake_passes := bake_passes w; files := f (files w); bake_calls := bake_calls w;
     alamo_texconv_path := alamo_texconv_path w; appdata := appdata w |}.

Definition log_bake_call (t : string) (w : World) : World :=
  {| objects := objects w; materials := materials w; images := images w;
     selected := selected w; active_object := active_object w;
     render_engine := render_engine w; cycles_bake_type := cycles_bake_type w;
     bake_passes := bake_passes w; files := files w;
     bake_calls := bake_calls w ++ [t];
     alamo_texconv_path := alamo_texconv_path w; appdata := appdata w |}.

(** ** State and exceptions *)

(** A computation ends with a value or with an exception; the world it
    leaves is kept in both cases. *)
Inductive outcome (A : Type) :=
  | Ret (a : A) (w : World)
  | Raise (e : Exn) (w : World).
Arguments Ret {A} a w.
Arguments Raise {A} e w.

Definition M (A : Type) : Type := World → outcome A.

Definition ret {A} (a : A) : M A := λ w, Ret a w.

Definition bind {A B} (m : M A) (k : A → M B) : M B :=
  λ w, match m w with
       | Ret a w' => k a w'
       | Raise e w' => Raise e w'
       end.

Definition raise {A} (e : Exn) : M A := λ w, Raise e w.

Definition get_world : M World := λ w, Ret w w.

Definition modify (f : World → World) : M unit := λ w, Ret tt (f w).

(** [try: m except Exception as e: handler(e)] *)
Definition try_except {A} (m : M A) (handler : Exn → M A) : M A :=
  λ w, match m w with
       | Ret a w' => Ret a w'
       | Raise e w' => handler e w'
       end.

(** [try: m finally: fin] *)
Definition try_finally {A} (m : M A) (fin : M unit) : M A :=
  λ w, match m w with
       | Ret a w' =>
           match fin w' with
           | Ret _ w'' => Ret a w''
           | Raise e w'' => Raise e w''
           end
       | Raise e w' =>
           match fin w' with
           | Ret _ w'' => Raise e w''
           | Raise e' w'' => Raise e' w''
           end
       end.

Declare Scope pipeline_scope.
Delimit Scope pipeline_scope with pipeline.
Notation "x <- m ;; k" := (bind m (λ x, k))
  (at level 100, m at next level, right associativity) : pipeline_scope.
Notation "m ;; k" := (bind m (λ _, k))
  (at level 100, right associativity) : pipeline_scope.
Local Open Scope pipeline_scope.

(** [for x in l: body(x)] *)
Fixpoint for_each {A} (l : list A) (body : A → M unit) : M unit :=
  match l with
  | [] => ret tt
  | x :: l' => body x ;; for_each l' body
  end.

(** A loop that threads a value through its iterations. *)
Fixpoint fold_each {A S} (l : list A) (body : S → A → M S) (s : S) : M S :=
  match l with
  | [] => ret s
  | x :: l' => s' <- body s x ;; fold_each l' body s'
  end.

Definition when (b : bool) (m : M unit) : M unit := if b then m else ret tt.

(** Dereferencing. *)
Definition get_obj (o : nat) : M Obj :=
  λ w, match objects w !! o with
       | Some ob => Ret ob w
       | None => Raise ReferenceError w
       end.

Definition get_image (i : string) : M Image :=
  λ w, match images w !! i with
       | Some im => Ret im w
       | None => Raise ReferenceError w
       end.

Definition update_obj (o : nat) (f : Obj → Obj) : M unit :=
  modify (set_objects (alter f o)).

Definition update_mat (m : string) (f : Mat → Mat) : M unit :=
  modify (set_materials (alter f m)).

Definition update_image (i : string) (f : Image → Image) : M unit :=
  modify (set_images (alter f i)).

(** ** Host operators

    The effect of the host's operators on the modelled part of the scene.
    Unwrapping and packing UVs ([uv.smart_project], [uv.pack_islands]) and
    the mode switches change nothing that is modelled. *)

(** The object names in use. *)
Definition name_taken (objs : gmap nat Obj) (nm : string) : bool :=
  bool_decide (map_Exists (λ _ ob, o_name ob = nm) objs).

(** [obj.copy()] followed by [new_obj.data = obj.data.copy()] and the link
    into the collection: a new object with its own mesh, whose material slots
    refer to the same materials.  The host makes the name unique. *)
Definition copy_object (host : Host) (o : nat) : M nat :=
  ob <- get_obj o ;;
  w <- get_world ;;
  let new_obj := fresh (dom (objects w)) in
  modify (set_objects <[new_obj :=
    {| o_name := unique_name host (name_taken (objects w)) (o_name ob);
       o_type := o_type ob;
       o_parts := o_parts ob; o_uv_layers := o_uv_layers ob;
       o_materials := o_materials ob |}]>) ;;
  ret new_obj.

Definition select_all_deselect : M unit := modify (set_selected []).

Definition select_set (o : nat) : M unit :=
  modify (λ w, set_selected (selected w ++ [o]) w).

Definition set_active (o : nat) : M unit := modify (set_active_object (Some o)).

(** [uv_layers.new(name=uv_name)] unless the layer is there, then
    [uv_layers[uv_name].active = True].  A mesh holds at most eight UV
    layers: asked for a ninth, the host adds none and returns [None], and
    the lookup that follows raises. *)
Definition max_uv_layers : nat := 8.

Definition ensure_uv_layer (o : nat) (uv_name : string) : M unit :=
  update_obj o (λ ob,
    if decide (uv_name ∈ o_uv_layers ob) then ob
    else if decide (length (o_uv_layers ob) < max_uv_layers) then
      {| o_name := o_name ob; o_type := o_type ob; o_parts := o_parts ob;
         o_uv_layers := o_uv_layers ob ++ [uv_name];
         o_materials := o_materials ob |}
    else ob) ;;
  ob <- get_obj o ;;
  if decide (uv_name ∈ o_uv_layers ob) then ret tt else raise KeyError.

(** [margin = 2.0 / resolution], then unwrap and pack. *)
Definition unwrap_and_pack (resolution : nat) : M unit :=
  if decide (resolution = 0%nat) then raise ZeroDivisionError else ret tt.

(** [bpy.ops.object.join()]: the selected objects are merged into the active
    one, which keeps its name and receives the loose parts, the UV layers and
    the material slots of the others (a material is not added twice); the
    others are removed. *)
Definition merge_into (a b : Obj) : Obj :=
  {| o_name := o_name a; o_type := o_type a;
     o_parts := o_parts a ++ o_parts b;
     o_uv_layers := o_uv_layers a ++ filter (λ u, u ∉ o_uv_layers a) (o_uv_layers b);
     o_materials := o_materials a ++ filter (λ m, m ∉ o_materials a) (o_materials b) |}.

Definition ops_object_join : M nat :=
  w <- get_world ;;
  match active_object w with
  | None => raise ReferenceError
  | Some act =>
      let others := filter (λ o, o ≠ act) (selected w) in
      for_each others (λ o,
        ob <- get_obj o ;;
        update_obj act (λ a, merge_into a ob) ;;
        modify (set_objects (delete o))) ;;
      modify (set_selected [act]) ;;
      ret act
  end.

(** [bpy.ops.mesh.separate(type='LOOSE')]: the object keeps one loose part;
    every other part becomes a new selected object with the same UV layers
    and material slots and a name of its own.  Which part stays, the order
    of the new objects and the order in which the selection lists them are
    the host's. *)
Definition with_parts (ob : Obj) (nm : string) (ps : list nat) : Obj :=
  {| o_name := nm; o_type := o_type ob; o_parts := ps;
     o_uv_layers := o_uv_layers ob; o_materials := o_materials ob |}.

Definition ops_mesh_separate_loose (host : Host) (o : nat) : M unit :=
  ob <- get_obj o ;;
  match loose_parts host (o_parts ob) with
  | [] => ret tt
  | p :: ps =>
      update_obj o (λ _, with_parts ob (o_name ob) [p]) ;;
      for_each ps (λ q,
        w <- get_world ;;
        let new_obj := fresh (dom (objects w)) in
        modify (set_objects <[new_obj :=
          with_parts ob (unique_name host (name_taken (objects w)) (o_name ob)) [q]]>) ;;
        select_set new_obj) ;;
      modify (λ w, set_selected (separated_order host (selected w)) w)
  end.

(** [bpy.context.selected_objects] restricted to meshes. *)
Definition is_mesh (w : World) (o : nat) : bool :=
  match objects w !! o with
  | Some ob => bool_decide (o_type ob = "MESH")
  | None => false
  end.

Definition selected_meshes : M (list nat) :=
  w <- get_world ;;
  ret (filter (λ o, is_mesh w o = true) (selected w)).

(** [image.save()]: writes the buffer to [filepath_raw] in [file_format]. *)
Definition kind_of_format (fmt : string) : FileKind :=
  if decide (fmt = "PNG") then PNG
  else if decide (fmt = "DDS") then DDS else OtherFile.

Definition image_save (host : Host) (image : string) : M unit :=
  im <- get_image image ;;
  if save_raises host (filepath_raw im) then raise (SaveError (filepath_raw im))
  else modify (set_files <[filepath_raw im := kind_of_format (file_format im)]>).

Definition set_filepath_raw (image : string) (path : string) : M unit :=
  update_image image (λ im,
    {| img_name := img_name im; width := width im; height := height im;
       pixels := pixels im; filepath_raw := path; file_format := file_format im |}).

Definition set_file_format (image : string) (fmt : string) : M unit :=
  update_image image (λ im,
    {| img_name := img_name im; width := width im; height := height im;
       pixels := pixels im; filepath_raw := filepath_raw im; file_format := fmt |}).

(** [os.path.exists] *)
Definition path_exists (p : string) : M bool :=
  w <- get_world ;; ret (bool_decide (is_Some (files w !! p))).

(** [bpy.ops.object.bake(type=bake_type)]: on success the engine fills the
    image of the active bake node of the active object's materials. *)
Definition baked_pixels (host : Host) (bake_type : string) (im : Image) : Image :=
  set_pixels im (imap (λ i _, bake_value host bake_type i) (pixels im)).

Definition active_bake_images (w : World) (ob : Obj) : list string :=
  omap (λ slot,
    m ← slot;
    mat ← materials w !! m;
    a ← active_node mat;
    n ← list_find (λ n, node_name n = a) (nodes mat);
    node_image (snd n)) (o_materials ob).

Definition ops_object_bake (host : Host) (bake_type : string) : M unit :=
  modify (log_bake_call bake_type) ;;
  if bake_raises host bake_type then raise BakeError
  else
    w <- get_world ;;
    match active_object w with
    | None => raise BakeError
    | Some o =>
        ob <- get_obj o ;;
        for_each (active_bake_images w ob) (λ i,
          update_image i (baked_pixels host bake_type))
    end.

Definition get_mat (m : string) : M Mat :=
  λ w, match materials w !! m with
       | Some mat => Ret mat w
       | None => Raise ReferenceError w
       end.

(** [os.remove] *)
Definition os_remove (host : Host) (p : string) : M unit :=
  if remove_raises host p then raise (SaveError p)
  else modify (set_files (delete p)).

(** [os.rename(src, dst)] *)
Definition os_rename (src dst : string) : M unit :=
  modify (set_files (λ fs,
    match fs !! src with
    | Some k => <[dst := k]> (delete src fs)
    | None => fs
    end)).

(** A Python [dict] with string keys, in insertion order. *)
Fixpoint dict_set {V} (d : list (string * V)) (k : string) (v : V) : list (string * V) :=
  match d with
  | [] => [(k, v)]
  | (k', v') :: d' =>
      if decide (k' = k) then (k, v) :: d' else (k', v') :: dict_set d' k v
  end.

Definition dict_get {V} (d : list (string * V)) (k : string) : option V :=
  snd <$> List.find (λ kv, bool_decide (fst kv = k)) d.

(** ** prepare_object_for_bake, prepare_objects_for_bake *)

Definition prepare_object_for_bake (host : Host) (obj : nat) (uv_name : string)
    (resolution : nat) : M nat :=
  select_all_deselect ;;
  new_obj <- copy_object host obj ;;
  select_set new_obj ;;
  set_active new_obj ;;
  ensure_uv_layer new_obj uv_name ;;
  unwrap_and_pack resolution ;;
  ret new_obj.

(** One entry of [metadata]. *)
Record Meta := {
  original_name : string;
  duplicate : nat;
  vertex_count : nat
}.

(** [len(obj.data.vertices)] *)
Definition num_vertices (ob : Obj) : nat := sum_list (o_parts ob).

Definition prepare_objects_for_bake (host : Host) (objs : list nat)
    (uv_name : string) (resolution : nat) : M (nat * option (list Meta)) :=
  match objs with
  | [obj] =>
      new_obj <- prepare_object_for_bake host obj uv_name resolution ;;
      ret (new_obj, None)
  | _ =>
      select_all_deselect ;;
      md <- fold_each objs (λ (acc : list Meta * list nat) obj,
        ob <- get_obj obj ;;
        new_obj <- copy_object host obj ;;
        select_set new_obj ;;
        new_ob <- get_obj new_obj ;;
        ret (fst acc ++ [ {| original_name := o_name ob; duplicate := new_obj;
                             vertex_count := num_vertices new_ob |} ],
             snd acc ++ [new_obj])) ([], []) ;;
      match snd md with
      | [] => raise IndexError
      | first :: _ =>
          set_active first ;;
          joined_obj <- ops_object_join ;;
          ensure_uv_layer joined_obj uv_name ;;
          unwrap_and_pack resolution ;;
          ret (joined_obj, Some (fst md))
      end
  end.

(** ** separate_baked_meshes *)

(** The inner [for meta in metadata] loop with its [break]: the first entry
    whose recorded vertex count is within the tolerance. *)
Definition within_tolerance (meta : Meta) (count : nat) : bool :=
  bool_decide (Z.abs (Z.of_nat (vertex_count meta) - Z.of_nat count) < 5)%Z.

Definition match_meta (metadata : list Meta) (count : nat) : option Meta :=
  List.find (λ meta, within_tolerance meta count) metadata.

(** [obj.name = nm]: the host keeps object names unique, so the object
    gets the name only if no other object has it. *)
Definition rename_obj (host : Host) (o : nat) (nm : string) : M unit :=
  w <- get_world ;;
  update_obj o (λ ob,
    {| o_name := unique_name host (name_taken (delete o (objects w))) nm;
       o_type := o_type ob; o_parts := o_parts ob;
       o_uv_layers := o_uv_layers ob; o_materials := o_materials ob |}).

(** Removes every UV layer whose name is not [uv_name]. *)
Definition remove_old_uv_maps (o : nat) (uv_name : string) : M unit :=
  update_obj o (λ ob,
    {| o_name := o_name ob; o_type := o_type ob; o_parts := o_parts ob;
       o_uv_layers := filter (λ u, u = uv_name) (o_uv_layers ob);
       o_materials := o_materials ob |}).

Definition separate_baked_meshes (host : Host) (joined_obj : nat)
    (metadata : option (list Meta)) (uv_name : string) : M (list nat) :=
  match metadata with
  | None =>
      remove_old_uv_maps joined_obj uv_name ;;
      ret [joined_obj]
  | Some metadata =>
      select_all_deselect ;;
      select_set joined_obj ;;
      set_active joined_obj ;;
      ops_mesh_separate_loose host joined_obj ;;
      separated_objs <- selected_meshes ;;
      for_each separated_objs (λ obj,
        ob <- get_obj obj ;;
        match match_meta metadata (num_vertices ob) with
        | Some meta => rename_obj host obj (original_name meta +:+ "_Baked")
        | None => ret tt
        end ;;
        remove_old_uv_maps obj uv_name) ;;
      ret separated_objs
  end.

(** ** setup_baking_material *)

Definition bake_map : list (string * string) :=
  [("DIFFUSE", "BaseTexture"); ("NORMAL", "NormalTexture")].

(** [bpy.data.images.new(name, width, height, alpha=True)]: a generated image,
    every pixel the host's default colour. *)
Definition new_image (nm : string) (w h : nat) : Image :=
  {| img_name := nm; width := w; height := h;
     pixels := mjoin (replicate (w * h) [0; 0; 0; 1]%Q);
     filepath_raw := ""; file_format := "TARGA" |}.

(** [bpy.data.materials.new(name)]: the host picks a free name. *)
Definition free_name (taken : gmap string Mat) (nm : string) : string :=
  if decide (is_Some (taken !! nm)) then
    match List.find (λ c, bool_decide (taken !! c = None))
            ((λ k, nm +:+ "." +:+ pretty k) <$> seq 1 (S (size taken))) with
    | Some c => c
    | None => nm
    end
  else nm.

Definition new_mat : Mat :=
  {| use_nodes := false; node_tree := None; active_node := None; shader := "";
     tex_params := [] |}.

Definition set_nodes (mat : Mat) (ns : list Node) : Mat :=
  {| use_nodes := use_nodes mat; node_tree := Some ns;
     active_node := active_node mat;
     shader := shader mat; tex_params := tex_params mat |}.

(** The node tree the host gives a material that uses nodes for the first
    time: a Principled BSDF wired to the material output. *)
Definition default_nodes : list Node :=
  [ {| node_name := "Principled BSDF"; node_type := "ShaderNodeBsdfPrincipled";
       node_image := None; node_select := false |};
    {| node_name := "Material Output"; node_type := "ShaderNodeOutputMaterial";
       node_image := None; node_select := false |} ].

(** [mat.use_nodes = b] *)
Definition set_use_nodes (mat : Mat) (b : bool) : Mat :=
  {| use_nodes := b;
     node_tree := if b then Some (default default_nodes (node_tree mat))
                  else node_tree mat;
     active_node := active_node mat;
     shader := shader mat; tex_params := tex_params mat |}.

(** [name in nodes] and [nodes.remove(nodes[name])] *)
Definition has_node (ns : list Node) (nm : string) : bool :=
  bool_decide (Exists (λ n, node_name n = nm) ns).

Fixpoint remove_node (ns : list Node) (nm : string) : list Node :=
  match ns with
  | [] => []
  | n :: ns' => if decide (node_name n = nm) then ns' else n :: remove_node ns' nm
  end.

Definition add_bake_node (bake_type image : string) (mat : Mat) : Mat :=
  let node_name := "BAKE_" +:+ bake_type in
  let ns := if has_node (nodes mat) node_name
            then remove_node (nodes mat) node_name else nodes mat in
  set_nodes mat (ns ++ [ {| node_name := node_name; node_type := "ShaderNodeTexImage";
                            node_image := Some image; node_select := false |} ]).

Definition setup_baking_material (obj : nat) (resolution : nat * nat)
    : M (list (string * string)) :=
  ob <- get_obj obj ;;
  imgs <- fold_each bake_map (λ (imgs : list (string * string)) bp,
    let image_name := o_name ob +:+ "_" +:+ snd bp in
    modify (set_images (delete image_name)) ;;
    modify (set_images <[image_name :=
      new_image image_name (fst resolution) (snd resolution)]>) ;;
    ret (dict_set imgs (fst bp) image_name)) [] ;;
  (if decide (o_materials ob = []) then
     w <- get_world ;;
     let mat := free_name (materials w) "BakeTemp" in
     modify (set_materials <[mat := new_mat]>) ;;
     update_obj obj (λ ob,
       {| o_name := o_name ob; o_type := o_type ob; o_parts := o_parts ob;
          o_uv_layers := o_uv_layers ob; o_materials := o_materials ob ++ [Some mat] |})
   else ret tt) ;;
  ob <- get_obj obj ;;
  for_each (o_materials ob) (λ slot,
    match slot with
    | None => raise AttributeError
    | Some m =>
        update_mat m (λ mat, set_use_nodes mat true) ;;
        for_each imgs (λ bi, update_mat m (add_bake_node (fst bi) (snd bi)))
    end) ;;
  ret imgs.

(** ** bake_pass *)

(** [for n in nodes: n.select = False], then select [nodes[name]] and make it
    the active node. *)
Definition select_only (nm : string) (mat : Mat) : Mat :=
  {| use_nodes := use_nodes mat;
     node_tree :=
       (λ ns : list Node,
          (λ n, {| node_name := node_name n; node_type := node_type n;
                   node_image := node_image n;
                   node_select := bool_decide (node_name n = nm) |}) <$> ns)
       <$> node_tree mat;
     active_node := Some nm; shader := shader mat; tex_params := tex_params mat |}.

(** The exception handler of [bake_pass] returns from the function: the
    protected block yields [Some r] for "return [r]" and [None] to go on.
    The [print] calls have no modelled effect. *)
Definition bake_pass (host : Host) (obj : nat) (bake_type : string)
    (image : option string) (save_path : option string) : M (option string) :=
  set_active obj ;;
  ob <- get_obj obj ;;
  for_each (o_materials ob) (λ slot,
    match slot with
    | None => raise AttributeError
    | Some m =>
        mat <- get_mat m ;;
        if negb (use_nodes mat) then ret tt
        else if has_node (nodes mat) ("BAKE_" +:+ bake_type)
             then update_mat m (select_only ("BAKE_" +:+ bake_type))
             else ret tt
    end) ;;
  w <- get_world ;;
  let original_engine := render_engine w in
  modify (set_render_engine "CYCLES") ;;
  modify (set_cycles_bake_type bake_type) ;;
  (if decide (bake_type = "DIFFUSE")
   then modify (set_bake_passes (false, false, true))
   else ret tt) ;;
  returned <- try_except
    (ops_object_bake host bake_type ;; ret None)
    (λ e, modify (set_render_engine original_engine) ;; ret (Some None)) ;;
  match returned with
  | Some r => ret r
  | None =>
      modify (set_render_engine original_engine) ;;
      match image, save_path with
      | Some i, Some p =>
          if decide (p = "") then ret image
          else
            set_filepath_raw i p ;;
            set_file_format i "PNG" ;;
            image_save host i ;;
            ret (Some i)
      | _, _ => ret image
      end
  end.

(** The call [process_alpha_channel(image, ...)] on the image behind a
    reference: the buffer is updated in place. *)
Definition apply_alpha (image : string) (alpha_mode : string) (alpha_value : Z)
    : M unit :=
  im <- get_image image ;;
  match process_alpha_channel im alpha_mode alpha_value with
  | Some im' => update_image image (λ _, im')
  | None => raise ValueError
  end.

(** ** find_texconv_tool

    [bpy.path.abspath] is taken as the identity: the configured path is
    absolute. *)
Definition addon_paths (appdata : string) : list string :=
  [ join appdata ["Blender Foundation"; "Blender"; "4.0"; "scripts"; "addons";
                  "blender_dds_addon"; "directx"; "texconv.dll"];
    join appdata ["Blender Foundation"; "Blender"; "4.0"; "scripts"; "addons";
                  "blender-dds-addon"; "directx"; "texconv.dll"] ].

Definition exists_on_disk (w : World) (p : string) : bool :=
  bool_decide (is_Some (files w !! p)).

Definition find_texconv_tool (w : World) : option string :=
  let override :=
    if decide (alamo_texconv_path w = "") then None
    else if exists_on_disk w (alamo_texconv_path w)
         then Some (alamo_texconv_path w) else None in
  match override with
  | Some path => Some path
  | None =>
      match appdata w with
      | Some a =>
          if decide (a = "") then None
          else List.find (exists_on_disk w) (addon_paths a)
      | None => None
      end
  end.

(** ** Texconv *)

Record Texconv := {
  tc_path : option string;
  tc_is_dll : bool;
  tc_dll : bool            (* the library was loaded *)
}.

Definition Texconv_init (host : Host) (path : option string) : M Texconv :=
  w <- get_world ;;
  let path := match path with
              | Some p => if decide (p = "") then find_texconv_tool w else Some p
              | None => find_texconv_tool w
              end in
  match path with
  | Some p =>
      if endswith (lower p) ".dll" then
        if load_library_raises host p
        then ret {| tc_path := path; tc_is_dll := false; tc_dll := false |}
        else ret {| tc_path := path; tc_is_dll := true; tc_dll := true |}
      else ret {| tc_path := path; tc_is_dll := false; tc_dll := false |}
  | None => ret {| tc_path := None; tc_is_dll := false; tc_dll := false |}
  end.

(** The flags both invocations share, after the output directory. *)
Definition texconv_flags (use_alpha_flag use_sepalpha : bool) (mipmap_levels : Z)
    : list string :=
  (if decide (mipmap_levels = 1)%Z then ["-m"; "1"]
   else if decide (1 < mipmap_levels)%Z then ["-m"; pretty mipmap_levels]
   else []) ++
  (if use_sepalpha then ["-sepalpha"] else []) ++
  (if use_alpha_flag then ["-alpha"] else []).

(** The converter names its output after the input, in the output directory. *)
Definition texconv_output (input_path output_dir : string) : string :=
  join output_dir [fst (splitext (basename input_path)) +:+ ".dds"].

(** What follows a successful run: move the created file to [output_path]. *)
Definition relocate_created (host : Host) (input_path output_path : string) : M unit :=
  let created_dds := fst (splitext input_path) +:+ ".dds" in
  ex <- path_exists created_dds ;;
  if ex && negb (bool_decide (created_dds = output_path)) then
    ex_out <- path_exists output_path ;;
    (if ex_out then os_remove host output_path else ret tt) ;;
    os_rename created_dds output_path
  else ret tt.

Definition run_converter (run : bool * bool) (input_path output_dir : string) : M bool :=
  (if snd run
   then modify (set_files <[texconv_output input_path output_dir := DDS]>)
   else ret tt) ;;
  ret (fst run).

Definition convert_dll (host : Host) (input_path output_path dds_format : string)
    (use_alpha_flag use_sepalpha : bool) (mipmap_levels : Z) : M bool :=
  let output_dir := dirname output_path in
  let args := ["-f"; dds_format; "-y"; "-o"; output_dir] ++
              texconv_flags use_alpha_flag use_sepalpha mipmap_levels ++
              ["--"; input_path] in
  try_except
    (ok <- run_converter (texconv_dll host args) input_path output_dir ;;
     if ok then relocate_created host input_path output_path ;; ret true
     else ret false)
    (λ e, ret false).

Definition convert_exe (host : Host) (path input_path output_path dds_format : string)
    (use_alpha_flag use_sepalpha : bool) (mipmap_levels : Z) : M bool :=
  let output_dir := dirname output_path in
  let cmd := [path; "-f"; dds_format; "-y"; "-o"; output_dir] ++
             texconv_flags use_alpha_flag use_sepalpha mipmap_levels ++
             [input_path] in
  try_except
    (ok <- run_converter (texconv_exe host cmd) input_path output_dir ;;
     if ok then relocate_created host input_path output_path ;; ret true
     else ret false)
    (λ e, ret false).

Definition convert (host : Host) (conv : Texconv) (input_path output_path dds_format : string)
    (use_alpha_flag use_sepalpha : bool) (mipmap_levels : Z) : M bool :=
  match tc_path conv with
  | None => ret false
  | Some path =>
      if tc_is_dll conv && tc_dll conv
      then convert_dll host input_path output_path dds_format
             use_alpha_flag use_sepalpha mipmap_levels
      else convert_exe host path input_path output_path dds_format
             use_alpha_flag use_sepalpha mipmap_levels
  end.

(** ** save_image_as_dds *)

(** [bpy.data.images.load(path)]: a new image named after the file. *)
Definition images_load (path : string) : M unit :=
  modify (set_images (λ imgs,
    match imgs !! basename path with
    | Some _ => imgs
    | None => <[basename path :=
        {| img_name := basename path; width := 0; height := 0; pixels := [];
           filepath_raw := path; file_format := "DDS" |}]> imgs
    end)).

(** The result is the name of the saved file, [None] when the temporary PNG
    could not be written. *)
Definition save_image_as_dds (host : Host) (image : string) (save_path dds_format : string)
    (use_alpha_flag use_sepalpha : bool) (mipmap_levels : Z) : M (option string) :=
  im <- get_image image ;;
  let original_filepath := filepath_raw im in
  let original_format := file_format im in
  let temp_png := fst (splitext save_path) +:+ "_temp.png" in
  set_filepath_raw image temp_png ;;
  set_file_format image "PNG" ;;
  image_save host image ;;
  saved <- path_exists temp_png ;;
  if negb saved then ret None
  else
    conv <- Texconv_init host None ;;
    let dds_file_path := fst (splitext save_path) +:+ ".dds" in
    success <-
      match tc_path conv with
      | Some _ =>
          ok <- convert host conv temp_png dds_file_path dds_format
                  use_alpha_flag use_sepalpha mipmap_levels ;;
          if negb ok then ret false
          else created <- path_exists dds_file_path ;; ret created
      | None => ret false
      end ;;
    still_there <- path_exists temp_png ;;
    (if still_there
     then try_except (os_remove host temp_png) (λ e, ret tt)
     else ret tt) ;;
    created <- path_exists dds_file_path ;;
    if success && created then
      try_except (images_load dds_file_path) (λ e, ret tt) ;;
      ret (Some (basename dds_file_path))
    else
      try_finally
        (set_filepath_raw image save_path ;;
         set_file_format image "PNG" ;;
         image_save host image ;;
         ret (Some (basename save_path)))
        (set_filepath_raw image original_filepath ;;
         set_file_format image original_format).

(** ** create_baked_material_shared *)

(** [nodes.new(type)]: the host names the node after its type. *)
Definition default_node_name (type : string) : string :=
  if decide (type = "ShaderNodeOutputMaterial") then "Material Output"
  else if decide (type = "ShaderNodeBsdfPrincipled") then "Principled BSDF"
  else if decide (type = "ShaderNodeTexImage") then "Image Texture"
  else if decide (type = "ShaderNodeNormalMap") then "Normal Map"
  else type.

Definition nodes_new (type : string) (img : option string) (mat : Mat) : Mat :=
  set_nodes mat (nodes mat ++
    [ {| node_name := default_node_name type; node_type := type;
         node_image := img; node_select := true |} ]).

Definition set_shader (nm : string) (mat : Mat) : Mat :=
  {| use_nodes := use_nodes mat; node_tree := node_tree mat;
     active_node := active_node mat;
     shader := nm; tex_params := tex_params mat |}.

(** [setattr(mat, param_name, value)] *)
Definition set_tex_param (param value : string) (mat : Mat) : Mat :=
  {| use_nodes := use_nodes mat; node_tree := node_tree mat;
     active_node := active_node mat;
     shader := shader mat; tex_params := dict_set (tex_params mat) param value |}.

Definition create_baked_material_shared (objs : list nat)
    (texture_results : list (string * option string)) (shader_name : string)
    : M string :=
  match objs with
  | [] => raise IndexError
  | first :: _ =>
      ob <- get_obj first ;;
      let base_name := replace (o_name ob) "_Baked" "" in
      let mat_name := if decide (1 < length objs)%nat
                      then base_name +:+ "_Atlas_Baked"
                      else base_name +:+ "_Baked" in
      w <- get_world ;;
      (if decide (is_Some (materials w !! mat_name)) then ret tt
       else modify (set_materials <[mat_name := new_mat]>)) ;;
      update_mat mat_name (λ mat, set_use_nodes mat true) ;;
      update_mat mat_name (λ mat, set_nodes mat []) ;;
      update_mat mat_name (set_shader shader_name) ;;
      update_mat mat_name (nodes_new "ShaderNodeOutputMaterial" None) ;;
      update_mat mat_name (nodes_new "ShaderNodeBsdfPrincipled" None) ;;
      for_each texture_results (λ pt,
        match snd pt with
        | None => raise TypeError
        | Some tex_path =>
            let base_name_tex := fst (splitext tex_path) in
            update_mat mat_name (set_tex_param (fst pt) (base_name_tex +:+ ".dds")) ;;
            w <- get_world ;;
            let dds_name := base_name_tex +:+ ".dds" in
            let png_name := base_name_tex +:+ ".png" in
            match List.find (λ i, bool_decide (is_Some (images w !! i)))
                    [dds_name; png_name; tex_path] with
            | Some img =>
                update_mat mat_name (nodes_new "ShaderNodeTexImage" (Some img)) ;;
                if decide (fst pt = "BaseTexture") then ret tt
                else if decide (fst pt = "NormalTexture")
                     then update_mat mat_name (nodes_new "ShaderNodeNormalMap" None)
                     else ret tt
            | None => ret tt
            end
        end) ;;
      for_each objs (λ obj,
        update_obj obj (λ ob,
          {| o_name := o_name ob; o_type := o_type ob; o_parts := o_parts ob;
             o_uv_layers := o_uv_layers ob; o_materials := [Some mat_name] |})) ;;
      ret mat_name
  end.

(** ** cleanup_bake_nodes *)

Definition is_bake_node (n : Node) : bool := startswith (node_name n) "BAKE_".

Definition cleanup_bake_nodes (obj : nat) : M unit :=
  ob <- get_obj obj ;;
  for_each (o_materials ob) (λ slot,
    match slot with
    | None => ret tt
    | Some m =>
        mat <- get_mat m ;;
        if negb (use_nodes mat) then ret tt
        else update_mat m (λ mat,
               set_nodes mat (filter (λ n, is_bake_node n = false) (nodes mat)))
    end).

(** ** run_pipeline *)

(** The arguments of [run_pipeline] after the list of objects. *)
Record BakeRequest := {
  export_dir : string;
  resolution : nat;
  shader_name : string;
  dds_format_diffuse : string;
  dds_format_normal : string;
  alpha_mode : string;
  alpha_value : Z;
  use_bc1_alpha_flag : bool;
  mipmap_levels : Z
}.

(** Step 3 for one channel: the body of [for bake_type, image in images.items()]. *)
Definition bake_channel (host : Host) (req : BakeRequest) (joined_obj : nat)
    (base_name : string) (texture_results : list (string * option string))
    (bi : string * string) : M (list (string * option string)) :=
  let bake_type := fst bi in
  let image := snd bi in
  let is_normal := bool_decide (bake_type = "NORMAL") in
  let param_name := if is_normal then "NormalTexture" else "BaseTexture" in
  let dds_fmt := if is_normal then dds_format_normal req else dds_format_diffuse req in
  let filename := base_name +:+ "_" +:+ param_name +:+ ".png" in
  let save_path := join (export_dir req) [filename] in
  bake_pass host joined_obj bake_type (Some image) (Some save_path) ;;
  flags <-
    (if decide (bake_type = "DIFFUSE") then
       apply_alpha image (alpha_mode req) (alpha_value req) ;;
       set_filepath_raw image save_path ;;
       set_file_format image "PNG" ;;
       image_save host image ;;
       if decide (dds_fmt = "BC1_UNORM") then ret (use_bc1_alpha_flag req, false)
       else if decide (dds_fmt = "BC3_UNORM") then ret (false, true)
       else ret (false, false)
     else ret (false, false)) ;;
  let actual_mipmap_levels :=
    if decide (mipmap_levels req = 0)%Z then 1%Z
    else if decide (0 < mipmap_levels req)%Z then mipmap_levels req else 0%Z in
  saved_name <- save_image_as_dds host image save_path dds_fmt
                  (fst flags) (snd flags) actual_mipmap_levels ;;
  ret (dict_set texture_results param_name saved_name).

(** The result is [None] for [(None, None)]. *)
Definition run_pipeline (host : Host) (objs : list nat) (req : BakeRequest)
    : M (option (list nat * list (string * option string))) :=
  match objs with
  | [] => ret None
  | first :: _ =>
      let is_multi := bool_decide (1 < length objs)%nat in
      jm <- prepare_objects_for_bake host objs "ALAMO_BAKE_ATLAS" (resolution req) ;;
      let joined_obj := fst jm in
      let metadata := snd jm in
      imgs <- setup_baking_material joined_obj (resolution req, resolution req) ;;
      ob <- get_obj first ;;
      let base_name := if is_multi then o_name ob +:+ "_Atlas" else o_name ob in
      texture_results <-
        fold_each imgs (bake_channel host req joined_obj base_name) [] ;;
      separated_objs <- separate_baked_meshes host joined_obj metadata
        (if is_multi then "ALAMO_BAKE_ATLAS" else "ALAMO_BAKE") ;;
      create_baked_material_shared separated_objs texture_results (shader_name req) ;;
      for_each objs cleanup_bake_nodes ;;
      for_each separated_objs cleanup_bake_nodes ;;
      ret (Some (separated_objs, texture_results))
  end.

End Bake.

(* ===================================================================== *)
(** * UI_material.py: the operator that runs the pipeline *)
(* ===================================================================== *)

Module Operator.

Import OsPath Bake.

Local Open Scope pipeline_scope.

(** [self.report({level}, text)] and the set an operator returns. *)
Inductive Level := INFO | WARNING | ERROR.

Record Report := { level : Level; text : string }.

Inductive Status := CANCELLED | FINISHED.

(** What [execute] reads besides the selection: the scene properties
    [context.scene.alamo_bake_*], [bpy.data.filepath] and the home directory
    [os.path.expanduser("~")].  [alamo_bake_res] is one of the enumerated
    sizes, held as the number [int(...)] makes of it. *)
Record BakeSettings := {
  alamo_bake_res : nat;
  alamo_bake_shader : string;
  alamo_bake_dds_diffuse : string;
  alamo_bake_dds_normal : string;
  alamo_bake_alpha_mode : string;
  alamo_bake_alpha_value : Z;
  filepath : string;
  home : string
}.

Definition report (l : Level) (t : string) (reports : list Report) : list Report :=
  reports ++ [ {| level := l; text := t |} ].

(** The request [execute] passes on; the two arguments it leaves out keep
    the defaults of [run_pipeline]. *)
Definition request_of (settings : BakeSettings) (export_dir : string) : BakeRequest :=
  {| export_dir := export_dir;
     resolution := alamo_bake_res settings;
     shader_name := alamo_bake_shader settings;
     dds_format_diffuse := alamo_bake_dds_diffuse settings;
     dds_format_normal := alamo_bake_dds_normal settings;
     alpha_mode := alamo_bake_alpha_mode settings;
     alpha_value := alamo_bake_alpha_value settings;
     use_bc1_alpha_flag := true;
     mipmap_levels := 9 |}.

(** [ALAMO_OT_BakeTextures.execute]; [str] is the host's [str(e)] of an
    exception.  The result holds the reports in the order they were made. *)
Definition execute (host : Host) (str : Exn → string) (settings : BakeSettings)
    : M (list Report * Status) :=
  selected <- selected_meshes ;;
  if decide (length selected = 0)%nat then
    ret (report ERROR "No mesh objects selected" [], CANCELLED)
  else
    let export_dir :=
      if decide (filepath settings = "") then home settings
      else dirname (filepath settings) in
    let res := alamo_bake_res settings in
    let alpha_mode := alamo_bake_alpha_mode settings in
    let alpha_value := alamo_bake_alpha_value settings in
    let reports :=
      if bool_decide (alpha_mode = "CONSTANT")
         && bool_decide (alamo_bake_dds_diffuse settings = "BC1_UNORM")
         && negb (bool_decide (alpha_value = 0 ∨ alpha_value = 255)%Z)
      then report WARNING ("BC1 will clamp alpha " +:+ pretty alpha_value
                           +:+ " to binary (0 or 255)") []
      else [] in
    let reports :=
      if decide (length selected = 1)%nat
      then report INFO ("Starting single object bake at " +:+ pretty res
                        +:+ "px with alpha=" +:+ pretty alpha_value +:+ "...") reports
      else report INFO ("Starting atlas bake for " +:+ pretty (length selected)
                        +:+ " objects at " +:+ pretty res +:+ "px...") reports in
    try_except
      (returned <- run_pipeline host selected (request_of settings export_dir) ;;
       match returned with
       | None => raise TypeError
       | Some (baked_objs, results) =>
           if decide (length selected = 1)%nat then
             match baked_objs with
             | [] => raise IndexError
             | first :: _ =>
                 ob <- get_obj first ;;
                 if decide (alpha_mode = "EXTRACT_SATURATION")
                 then ret (report INFO
                             ("Bake finished with saturation extraction. New object: "
                              +:+ o_name ob) reports, FINISHED)
                 else ret (report INFO
                             ("Bake finished (alpha=" +:+ pretty alpha_value
                              +:+ "). New object: " +:+ o_name ob) reports, FINISHED)
             end
           else
             ret (report INFO
                    ("Atlas bake finished! Created " +:+ pretty (length baked_objs)
                     +:+ " objects with shared texture") reports, FINISHED)
       end)
      (λ e, ret (report ERROR ("Bake failed: " +:+ str e) reports, CANCELLED)).

(** The level of the last report that goes with a status. *)
Definition closing_level (status : Status) : Level :=
  match status with
  | FINISHED => INFO
  | CANCELLED => ERROR
  end.

(** Settings as the panel has them by default, for an unsaved file. *)
Definition default_settings : BakeSettings :=
  {| alamo_bake_res := 1024; alamo_bake_shader := "MeshGloss.fx";
     alamo_bake_dds_diffuse := "BC1_UNORM"; alamo_bake_dds_normal := "BC3_UNORM";
     alamo_bake_alpha_mode := "CONSTANT"; alamo_bake_alpha_value := 255;
     filepath := ""; home := "/home/user" |}.

End Operator.

(* ===================================================================== *)
(** * Notions the statements use, and concrete scenes *)
(* ===================================================================== *)

Module Scenarios.

Import Validation.

Local Open Scope Q_scope.

(** A finding of a given severity is among the findings. *)
Definition has_error (fs : list Finding) : Prop := Exists (λ f, severity f = ERROR) fs.
Definition has_warning (fs : list Finding) : Prop := Exists (λ f, severity f = WARNING) fs.

(** The object [o] with another loop count. *)
Definition with_loops (o : Object) (n : N) : Object :=
  {| name := name o; type := type o; loops := n; vertices := vertices o;
     vertex_groups := vertex_groups o; active_material := active_material o |}.

(** The weights of a vertex, in the order of its groups. *)
Definition weights (v : MeshVertex) : list Q := weight <$> groups v.

(** [sub] occurs in [s]. *)
Definition contains (s sub : string) : Prop :=
  ∃ m, substring m (String.length sub) s = sub.

(** A vertex group [g] is used: some vertex refers to it with weight 1. *)
Definition group_used (object : Object) (g : nat) : Prop :=
  ∃ v e, v ∈ vertices object ∧ e ∈ groups v ∧ group e = g ∧ weight e == 1.

(** A mesh with one vertex group assigned with weights 0.5 and 0.5. *)
Definition vertex_of (ws : list (nat * Q)) : MeshVertex :=
  {| groups := (λ gw, {| group := fst gw; weight := snd gw |}) <$> ws |}.

Definition mesh_of (vs : list MeshVertex) : Object :=
  {| name := "Body"; type := "MESH"; loops := 24; vertices := vs;
     vertex_groups := Some ["Bone_A"; "Bone_B"];
     active_material := Some {| shaderList := "RSkinGloss.fx" |} |}.

Definition mesh_half_half : Object := mesh_of [vertex_of [(0%nat, 0.5); (1%nat, 0.5)]].

Definition mesh_three_cases : Object :=
  mesh_of [vertex_of [(0%nat, 1)]; vertex_of [(0%nat, 0.7)];
           vertex_of [(0%nat, 1); (1%nat, 1)]].

(** A skinned mesh whose vertex [k] is bound to bone [k] with weight 1, for
    [n] vertices, and one more vertex bound to bone 0 with weight 0.5. *)
Definition skinned_mesh (n : nat) : Object :=
  mesh_of (((λ k, vertex_of [(k, 1)]) <$> seq 0 n) ++ [vertex_of [(0%nat, 0.5)]]).

(** What makes [checkVertexGroups] stop at a vertex. *)
Definition bad_vertex (v : MeshVertex) : bool :=
  match sum_weights (groups v) 0 with
  | inl _ => true
  | inr total => not_in_0_1 total
  end.

(** ** Alpha processing *)

(** The grey value, the binary mask and the saturation as the code computes
    it, and what the loop body leaves in channel [c] of a pixel. *)
Definition gray (r g b : Q) : Q := 0.299 * r + 0.587 * g + 0.114 * b.

Definition mask (saturation : Q) : Q := if Qlt_le_dec 0.1 saturation then 1.0 else 0.0.

Definition code_saturation (r g b : Q) : Q :=
  if Qlt_le_dec 0 (Alpha.py_max3 r g b)
  then (Alpha.py_max3 r g b - Alpha.py_min3 r g b) / Alpha.py_max3 r g b else 0.

Definition saturation_out (r g b : Q) (c : nat) : Q :=
  match c with
  | 3%nat => mask (code_saturation r g b)
  | _ => gray r g b
  end.

(** An image of two pixels: the first has saturation exactly 0.1, the second
    is pure red. *)
Definition two_pixels : Alpha.Image :=
  {| Alpha.img_name := "Cube_BaseTexture"; Alpha.width := 2; Alpha.height := 1;
     Alpha.pixels := [1; 0.9; 0.9; 0.5;  1; 0; 0; 0.5];
     Alpha.filepath_raw := ""; Alpha.file_format := "PNG" |}.

(** Four pixels in two rows: green greatest and red least with saturation
    exactly 0.1; green greatest and red least, saturated; blue greatest and
    green least, saturated; black. *)
Definition mixed_pixels : Alpha.Image :=
  {| Alpha.img_name := "Cube_BaseTexture"; Alpha.width := 2; Alpha.height := 2;
     Alpha.pixels := [0.9; 1; 0.95; 0.5;  0.2; 1; 0.5; 0.5;
                      0.95; 0.2; 1; 0.5;  0; 0; 0; 0.5];
     Alpha.filepath_raw := ""; Alpha.file_format := "PNG" |}.

Import Alpha Bake.

(** ** Scenes *)

Definition cube : Obj :=
  {| o_name := "Cube"; o_type := "MESH"; o_parts := [8%nat];
     o_uv_layers := ["UVMap"]; o_materials := [Some "Hull"] |}.

Definition hull : Mat :=
  {| use_nodes := true; node_tree := Some []; active_node := None; shader := "";
     tex_params := [] |}.

(** A scene with one textured cube, no converter installed. *)
Definition cube_scene : World :=
  {| objects := {[ 0%nat := cube ]}; materials := {[ "Hull" := hull ]};
     images := ∅; selected := []; active_object := None;
     render_engine := "BLENDER_EEVEE"; cycles_bake_type := "COMBINED";
     bake_passes := (true, true, true); files := ∅; bake_calls := [];
     alamo_texconv_path := ""; appdata := None |}.

(** A host's way to number a name that is in use. *)
Definition numbered (taken : string → bool) (nm : string) : string :=
  if taken nm then
    default nm (List.find (λ c, negb (taken c))
                  ((λ k, nm +:+ ".00" +:+ pretty k) <$> seq 1 9))
  else nm.

(** A host on which everything works, one whose bake always fails, and one
    that cannot write images. *)
Definition working_host : Host :=
  {| bake_raises := λ _, false; bake_value := λ _ _, 0.5%Q;
     save_raises := λ _, false; remove_raises := λ _, false;
     load_library_raises := λ _, false;
     texconv_dll := λ _, (true, true); texconv_exe := λ _, (true, true);
     unique_name := numbered; loose_parts := λ ps, ps;
     separated_order := λ l, l |}.

Definition failing_bake_host : Host :=
  {| bake_raises := λ _, true; bake_value := λ _ _, 0.5%Q;
     save_raises := λ _, false; remove_raises := λ _, false;
     load_library_raises := λ _, false;
     texconv_dll := λ _, (true, true); texconv_exe := λ _, (true, true);
     unique_name := numbered; loose_parts := λ ps, ps;
     separated_order := λ l, l |}.

Definition read_only_host : Host :=
  {| bake_raises := λ _, false; bake_value := λ _ _, 0.5%Q;
     save_raises := λ _, true; remove_raises := λ _, false;
     load_library_raises := λ _, false;
     texconv_dll := λ _, (true, true); texconv_exe := λ _, (true, true);
     unique_name := numbered; loose_parts := λ ps, ps;
     separated_order := λ l, l |}.

Definition small_request : BakeRequest :=
  {| export_dir := "/export"; resolution := 2; shader_name := "MeshGloss.fx";
     dds_format_diffuse := "BC1_UNORM"; dds_format_normal := "BC3_UNORM";
     alpha_mode := "CONSTANT"; alpha_value := 255; use_bc1_alpha_flag := true;
     mipmap_levels := 9 |}.

(** ** Temporary bake nodes *)

(** Material [m] holds no temporary bake node (if it uses nodes at all);
    object [o] has only such materials in its slots. *)
Definition clean_mat (w : World) (m : string) : Prop :=
  ∀ mat, materials w !! m = Some mat → use_nodes mat = true →
    Forall (λ n, is_bake_node n = false) (nodes mat).

Definition clean_obj (w : World) (o : nat) : Prop :=
  ∀ ob m, objects w !! o = Some ob → Some m ∈ o_materials ob → clean_mat w m.

(** From [w] to [w'] no object changed and no material lost its cleanness. *)
Definition cleaner (w w' : World) : Prop :=
  objects w' = objects w ∧ ∀ m, clean_mat w m → clean_mat w' m.

(** ** Texture files *)

(** A file is at [path]. *)
Definition on_disk (path : string) (w : World) : Prop := is_Some (files w !! path).

(** [name] is the name of a texture file of the channel recorded under
    [param] that is on disk: the PNG at the channel's save path in the
    directory [dir], or the DDS file next to it. *)
Definition texture_on_disk (w : World) (dir base_name param name : string) : Prop :=
  let save_path := OsPath.join dir [base_name +:+ "_" +:+ param +:+ ".png"] in
  ∃ path, (path = save_path ∨ path = fst (OsPath.splitext save_path) +:+ ".dds") ∧
          name = OsPath.basename path ∧ on_disk path w.

(** ** Looking for the converter *)

(** The converter cannot be located: the configured path is empty or names
    no file, and none of the well-known installation paths names a file. *)
Definition tool_not_located (w : World) : Prop :=
  (alamo_texconv_path w = "" ∨ files w !! alamo_texconv_path w = None) ∧
  ∀ a, appdata w = Some a → a ≠ "" →
    Forall (λ p, files w !! p = None) (addon_paths a).

(** The cube scene with an image to save. *)
Definition cube_scene_with_image : World :=
  set_images <["Cube_BaseTexture" := new_image "Cube_BaseTexture" 1 1]> cube_scene.

(** The same scene after an earlier export left a DDS file for the image. *)
Definition cube_scene_with_stale_dds : World :=
  set_files <["/export/Cube_BaseTexture.dds" := DDS]> cube_scene_with_image.

Local Open Scope pipeline_scope.

(** ** The atlas round trip *)













(** A host that can write every file but the requested PNG. *)
Definition locked_target_host : Host :=
  {| bake_raises := λ _, false; bake_value := λ _ _, 0.5%Q;
     save_raises := λ p, bool_decide (p = "/export/Cube_BaseTexture.png");
     remove_raises := λ _, false; load_library_raises := λ _, false;
     texconv_dll := λ _, (true, true); texconv_exe := λ _, (true, true);
     unique_name := numbered; loose_parts := λ ps, ps;
     separated_order := λ l, l |}.

(** The cube scene with an image to save and a configured converter. *)
Definition cube_scene_with_converter : World :=
  {| objects := objects cube_scene; materials := materials cube_scene;
     images := {[ "Cube_BaseTexture" := new_image "Cube_BaseTexture" 1 1 ]};
     selected := []; active_object := None;
     render_engine := "BLENDER_EEVEE"; cycles_bake_type := "COMBINED";
     bake_passes := (true, true, true);
     files := {[ "/tools/texconv.exe" := OtherFile ]}; bake_calls := [];
     alamo_texconv_path := "/tools/texconv.exe"; appdata := None |}.

(** The image [im] redirected to [path] in format [fmt], as the two
    assignments before [image.save()] leave it. *)
Definition redirected (im : Image) (path fmt : string) : Image :=
  {| img_name := img_name im; width := width im; height := height im;
     pixels := pixels im; filepath_raw := path; file_format := fmt |}.

(** Metadata of two sources with 100 and 102 vertices. *)
Definition close_metadata : list Meta :=
  [ {| original_name := "Hull"; duplicate := 3; vertex_count := 100 |};
    {| original_name := "Turret"; duplicate := 4; vertex_count := 102 |} ].

(** ** Nodes that are not temporary bake nodes *)

(** The nodes of a material that [cleanup_bake_nodes] would leave. *)
Definition plain_nodes (mat : Mat) : list Node :=
  filter (λ n, is_bake_node n = false) (nodes mat).

(** [mat'] is [mat] up to bake nodes and a switch to node use; the nodes
    are compared where [mat] has a node tree. *)
Definition same_plain_nodes (mat mat' : Mat) : Prop :=
  (is_Some (node_tree mat) →
   is_Some (node_tree mat') ∧ plain_nodes mat' = plain_nodes mat) ∧
  shader mat' = shader mat ∧
  tex_params mat' = tex_params mat ∧
  (use_nodes mat = true → use_nodes mat' = true).

(** From [w] to [w'] the same materials exist, each up to bake nodes. *)
Definition nodes_kept (w w' : World) : Prop :=
  ∀ m, match materials w !! m with
       | Some mat => ∃ mat', materials w' !! m = Some mat' ∧ same_plain_nodes mat mat'
       | None => materials w' !! m = None
       end.

(** What [run_pipeline] does to the materials of the object it bakes:
    step 2 and step 6. *)
Definition setup_then_cleanup (obj : nat) (resolution : nat * nat) : M unit :=
  setup_baking_material obj resolution ;;
  cleanup_bake_nodes obj.

(** The temporary node [setup_baking_material] adds for a bake type. *)
Definition bake_node (bake_type image : string) : Node :=
  {| node_name := "BAKE_" +:+ bake_type; node_type := "ShaderNodeTexImage";
     node_image := Some image; node_select := false |}.

(** The material [setup_baking_material] leaves on an object named [nm]
    that had no material: the host's default nodes and the two bake nodes. *)
Definition temp_material (nm : string) : Mat :=
  {| use_nodes := true;
     node_tree := Some (default_nodes ++
                        [bake_node "DIFFUSE" (nm +:+ "_BaseTexture");
                         bake_node "NORMAL" (nm +:+ "_NormalTexture")]);
     active_node := None; shader := ""; tex_params := [] |}.

(** [ob] with other material slots. *)
Definition with_slots (ob : Obj) (slots : list (option string)) : Obj :=
  {| o_name := o_name ob; o_type := o_type ob; o_parts := o_parts ob;
     o_uv_layers := o_uv_layers ob; o_materials := slots |}.

(** A material with a shader node and a bake node left by an earlier run;
    the cube scene with it on the cube, twice; the cube without slots. *)
Definition used_hull : Mat :=
  {| use_nodes := false;
     node_tree :=
       Some [ {| node_name := "BAKE_DIFFUSE"; node_type := "ShaderNodeTexImage";
                 node_image := None; node_select := true |};
              {| node_name := "Principled BSDF"; node_type := "ShaderNodeBsdfPrincipled";
                 node_image := None; node_select := false |} ];
     active_node := None; shader := "MeshGloss.fx"; tex_params := [] |}.

Definition used_cube_scene : World :=
  set_objects (λ _, {[ 0%nat := with_slots cube [Some "Hull"; Some "Hull"] ]})
    (set_materials (λ _, {[ "Hull" := used_hull ]}) cube_scene).

Definition bare_cube_scene : World :=
  set_objects (λ _, {[ 0%nat := with_slots cube [] ]}) cube_scene.


(** ** The copy that is baked *)

(** The mesh has no layer [uv_name] and no room for one. *)
Definition uv_layers_full (ob : Obj) (uv_name : string) : Prop :=
  (uv_name ∉ o_uv_layers ob) ∧ (max_uv_layers ≤ length (o_uv_layers ob))%nat.

#[global] Instance uv_layers_full_dec (ob : Obj) (uv_name : string) :
  Decision (uv_layers_full ob uv_name).
Proof. unfold uv_layers_full. apply _. Defined.

(** The copy of [ob] that [prepare_object_for_bake] makes, under the name
    [nm] the host gives it: it has the bake's UV layer if [ob] has it or has
    room for it. *)
Definition baking_copy (ob : Obj) (nm uv_name : string) : Obj :=
  {| o_name := nm; o_type := o_type ob; o_parts := o_parts ob;
     o_uv_layers := if decide (uv_name ∈ o_uv_layers ob) then o_uv_layers ob
                    else if decide (uv_layers_full ob uv_name) then o_uv_layers ob
                    else o_uv_layers ob ++ [uv_name];
     o_materials := o_materials ob |}.

(** The name the host gives a new copy of [ob] in [w]. *)
Definition copy_name (host : Host) (w : World) (ob : Obj) : string :=
  unique_name host (name_taken (objects w)) (o_name ob).

(** The UV layers of object [o], if it exists. *)
Definition uv_layers_of (o : nat) (w : World) : option (list string) :=
  o_uv_layers <$> objects w !! o.

(** ** The baked material *)

(** The value [create_baked_material_shared] records for a texture result:
    its name with the extension replaced by [.dds]. *)
Definition dds_param (pt : string * option string) : string :=
  fst (OsPath.splitext (default "" (snd pt))) +:+ ".dds".

(** [mat'] has the Alamo properties of [mat]; only its nodes may differ. *)
Definition same_properties (mat mat' : Mat) : Prop :=
  use_nodes mat' = use_nodes mat ∧ shader mat' = shader mat ∧
  tex_params mat' = tex_params mat.

End Scenarios.

(* ===================================================================== *)
(** * validation.py: the other checks, [validate], [create_export_list] *)
(* ===================================================================== *)

Module Checks.

Import Validation.

(** ** What the checks read *)

(** A [mathutils] vector or Euler rotation: three numbers, compared
    component by component. *)
Definition Vector : Type := Q * Q * Q.

Definition vector_eqb (a b : Vector) : bool :=
  Qeq_bool (fst (fst a)) (fst (fst b)) && Qeq_bool (snd (fst a)) (snd (fst b))
  && Qeq_bool (snd a) (snd b).

Definition zero_vector : Vector := (0, 0, 0)%Q.
Definition one_vector : Vector := (1, 1, 1)%Q.

(** [modifier.object] is [None] or an object, of which the checks read the
    name and the type; [constraint.target] likewise, read for its name. *)
Record Modifier := {
  m_type : string;
  m_name : string;
  m_object : option (string * string)
}.

Record Constraint := {
  c_type : string;
  c_target : option string
}.

(** A scene object as the checks see it.  [base] holds what the checks of the
    first part read.  A material slot can be empty ([None]).
    [vert_is_manifold] and [edge_link_faces] are [vertex.is_manifold] and
    [len(edge.link_faces)] over the BMesh of the mesh.  [use_auto_smooth] is
    [None] where the mesh has no such attribute.  [data] identifies the mesh
    datablock, which objects can share. *)
Record SceneObject := {
  base : Object;
  materials : list (option Material);
  vert_is_manifold : list bool;
  edge_link_faces : list nat;
  HasCollision : bool;
  uv_layers : list string;
  modifiers : list Modifier;
  constraints : list Constraint;
  use_auto_smooth : option bool;
  location : Vector;
  rotation_euler : Vector;
  scale : Vector;
  hide_viewport : bool;
  data : nat
}.

(** The armature [utils.findArmature()] returns, and the scene settings the
    checks read: [scene.ActiveSkeleton.skeletonEnum] and that armature. *)
Record Armature := {
  a_name : string;
  a_location : Vector;
  a_rotation_euler : Vector;
  a_scale : Vector;
  bones : list string
}.

Record Scene := {
  skeletonEnum : string;
  findArmature : option Armature
}.

(** What [selectNonManifoldVertices] changes in the host: the context mode,
    the active object, the objects made visible, and the object whose
    non-manifold elements are the selection in edit mode. *)
Record View := {
  mode : string;
  active : option string;
  unhidden : list string;
  non_manifold_selected : option string
}.

Definition error (msg : string) : Finding := {| severity := ERROR; message := msg |}.

(** ** selectNonManifoldVertices *)

(** [bpy.ops.object.mode_set(mode=m)]: in edit mode on a mesh the context
    mode reads [EDIT_MESH]. *)
Definition mode_set (m : string) (v : View) : View :=
  {| mode := if decide (m = "EDIT") then "EDIT_MESH" else m;
     active := active v; unhidden := unhidden v;
     non_manifold_selected := if decide (m = "EDIT") then non_manifold_selected v
                              else None |}.

Definition selectNonManifoldVertices (object : SceneObject) (v : View) : View :=
  let v := if decide (mode v ≠ "OBJECT") then mode_set "OBJECT" v else v in
  let v := {| mode := mode v; active := active v;
              unhidden := unhidden v ++ [name (base object)];
              non_manifold_selected := non_manifold_selected v |} in
  let v := {| mode := mode v; active := Some (name (base object));
              unhidden := unhidden v;
              non_manifold_selected := non_manifold_selected v |} in
  let v := mode_set "EDIT" v in
  {| mode := mode v; active := active v; unhidden := unhidden v;
     non_manifold_selected := Some (name (base object)) |}.

(** ** checkShadowMesh *)

Definition is_shadow_shader (shader : string) : bool :=
  bool_decide (shader = "MeshShadowVolume.fx" ∨ shader = "RSkinShadowVolume.fx").

Definition non_manifold (object : SceneObject) : Finding :=
  error ("ALAMO - Non manifold geometry shadow mesh: " +:+ name (base object)).

Definition missing_material (object : SceneObject) : Finding :=
  error ("ALAMO - Missing material on object: " +:+ name (base object)).

(** A loop that runs an action at the first element that satisfies the test
    and then leaves: [for x in xs: if test(x): action; break]. *)
Fixpoint at_first {A S} (test : A → bool) (xs : list A) (action : S → S) (s : S) : S :=
  match xs with
  | [] => s
  | x :: xs' => if test x then action s else at_first test xs' action s
  end.

(** The result is [None] for the [AttributeError] of an empty first slot. *)
Definition checkShadowMesh (object : SceneObject) (v : View)
    : option (list Finding * View) :=
  match materials object with
  | [] => Some ([missing_material object], v)
  | None :: _ => None
  | Some material :: _ =>
      if is_shadow_shader (shaderList material) then
        let report := λ ev : list Finding * View,
          (fst ev ++ [non_manifold object],
           selectNonManifoldVertices object (snd ev)) in
        let ev := at_first negb (vert_is_manifold object) report ([], v) in
        let ev := at_first (λ n, n <? 2)%nat (edge_link_faces object) report ev in
        Some ev
      else Some ([], v)
  end.

(** ** checkUV *)

Definition multiple_shadow_materials (object : SceneObject) : Finding :=
  error ("ALAMO - Multiple materials on shadow volume: " +:+ name (base object)
         +:+ "; remove additional materials").

Definition multiple_collision_materials (object : SceneObject) : Finding :=
  error ("ALAMO - Multiple submeshes/materials on collision mesh: "
         +:+ name (base object) +:+ "; remove additional materials").

Definition missing_uv (object : SceneObject) : Finding :=
  error ("ALAMO - Missing UV: " +:+ name (base object)).

(** The loop over the material slots; [None] for the [AttributeError] of an
    empty slot. *)
Fixpoint checkUV_materials (object : SceneObject) (slots : list (option Material))
    (errors : list Finding) : option (list Finding) :=
  match slots with
  | [] => Some errors
  | None :: _ => None
  | Some material :: slots' =>
      let errors :=
        if is_shadow_shader (shaderList material) then
          if decide (1 < length (materials object))%nat
          then errors ++ [multiple_shadow_materials object] else errors
        else errors in
      let errors :=
        if HasCollision object then
          if decide (1 < length (materials object))%nat
          then errors ++ [multiple_collision_materials object] else errors
        else errors in
      checkUV_materials object slots' errors
  end.

Definition checkUV (object : SceneObject) : option (list Finding) :=
  errors ← checkUV_materials object (materials object) [];
  Some (if decide (uv_layers object = []) then errors ++ [missing_uv object]
        else errors).

(** ** checkInvalidArmatureModifier *)

Definition modifier_without_skeleton (object : SceneObject) : Finding :=
  error ("ALAMO - Armature modifier without selected skeleton on: "
         +:+ name (base object)).

Definition modifier_skeleton_mismatch (object : SceneObject) : Finding :=
  error ("ALAMO - Armature modifier skeleton doesn't match active skeleton on: "
         +:+ name (base object)).

Definition constraint_mismatch (object : SceneObject) : Finding :=
  error ("ALAMO - Constraint doesn't match active skeleton on: "
         +:+ name (base object)).

Fixpoint check_modifiers (activeSkeleton : string) (object : SceneObject)
    (mods : list Modifier) : list Finding :=
  match mods with
  | [] => []
  | modifier :: mods' =>
      if decide (m_type modifier = "ARMATURE") then
        match m_object modifier with
        | None => [modifier_without_skeleton object]
        | Some (target_name, target_type) =>
            if decide (target_type ≠ "NoneType") then
              if decide (target_name ≠ activeSkeleton)
              then [modifier_skeleton_mismatch object]
              else check_modifiers activeSkeleton object mods'
            else check_modifiers activeSkeleton object mods'
        end
      else check_modifiers activeSkeleton object mods'
  end.

Definition constraint_off_skeleton (activeSkeleton : string) (c : Constraint) : bool :=
  bool_decide (c_type c = "CHILD_OF") &&
  match c_target c with
  | Some target_name => bool_decide (target_name ≠ activeSkeleton)
  | None => false
  end.

Definition checkInvalidArmatureModifier (scene : Scene) (object : SceneObject)
    : list Finding :=
  let activeSkeleton := skeletonEnum scene in
  let errors := check_modifiers activeSkeleton object (modifiers object) in
  at_first (constraint_off_skeleton activeSkeleton) (constraints object)
    (λ errors, errors ++ [constraint_mismatch object]) errors.

(** ** checkAutosmooth *)

Definition uses_autosmooth (object : SceneObject) : Finding :=
  error ("ALAMO - " +:+ name (base object) +:+
         " uses autosmooth, ingame shading might not match blender; use edgesplit instead").

Definition is_smooth_by_angle (modifier : Modifier) : bool :=
  bool_decide (m_type modifier = "NODES") &&
  bool_decide (m_name modifier = "Smooth by Angle").

Definition checkAutosmooth (object : SceneObject) : list Finding :=
  let has_autosmooth := default false (use_auto_smooth object) in
  let has_autosmooth :=
    if negb has_autosmooth
    then at_first is_smooth_by_angle (modifiers object) (λ _, true) has_autosmooth
    else has_autosmooth in
  if has_autosmooth then [uses_autosmooth object] else [].

(** ** checkTranslation, checkScale *)

Definition checkTranslation (object : SceneObject) : list Finding :=
  if negb (vector_eqb (location object) zero_vector)
     || negb (vector_eqb (rotation_euler object) zero_vector)
  then [error ("ALAMO - " +:+ name (base object) +:+
               " is not aligned with the world origin; apply translation or bind to bone")]
  else [].

Definition checkScale (object : SceneObject) : list Finding :=
  if negb (vector_eqb (scale object) one_vector)
  then [error ("ALAMO - " +:+ name (base object) +:+ " has non-identity scale. Apply scale.")]
  else [].

(** ** checkTranslationArmature, checkBoneNames, checkBoneCount *)

Definition checkTranslationArmature (scene : Scene) : list Finding :=
  match findArmature scene with
  | Some armature =>
      if negb (vector_eqb (a_location armature) zero_vector)
         || negb (vector_eqb (a_rotation_euler armature) zero_vector)
         || negb (vector_eqb (a_scale armature) one_vector)
      then [error ("ALAMO - Armature " +:+ a_name armature +:+
                   " is not aligned with the world origin; apply translation")]
      else []
  | None => []
  end.

(** [str.isascii()]; a name is a string of code points below 256. *)
Fixpoint isascii (s : string) : bool :=
  match s with
  | EmptyString => true
  | String c s' => (nat_of_ascii c <? 128)%nat && isascii s'
  end.

Definition name_too_long (bone : string) : Finding :=
  error ("ALAMO - Bone name too long (> 63 chars): " +:+ bone).

Definition name_not_ascii (bone : string) : Finding :=
  error ("ALAMO - Bone name contains non-ASCII characters: " +:+ bone).

Definition checkBoneNames (scene : Scene) : list Finding :=
  match findArmature scene with
  | Some armature =>
      foldl (λ errors bone,
        let errors :=
          if decide (63 < String.length bone)%nat
          then errors ++ [name_too_long bone] else errors in
        if negb (isascii bone) then errors ++ [name_not_ascii bone] else errors)
        [] (bones armature)
  | None => []
  end.

Definition checkBoneCount (scene : Scene) : list Finding :=
  match findArmature scene with
  | Some armature =>
      if decide (255 < length (bones armature))%nat
      then [error ("ALAMO - Armature " +:+ a_name armature +:+ " has too many bones ("
                   +:+ pretty (length (bones armature)) +:+ "); maximum is 255")]
      else []
  | None => []
  end.

(** ** checkActiveSkeleton *)

Definition no_active_skeleton : Finding :=
  error "ALAMO - Active Skeleton is set to None, but meshes have armature modifiers. Please select the active skeleton in the Sidebar.".

Definition has_rigged_modifier (object : SceneObject) : bool :=
  existsb (λ modifier,
    bool_decide (m_type modifier = "ARMATURE") &&
    bool_decide (is_Some (m_object modifier))) (modifiers object).

Definition checkActiveSkeleton (scene : Scene) (mesh_list : list SceneObject)
    : list Finding :=
  if decide (skeletonEnum scene = "None") then
    at_first has_rigged_modifier mesh_list (λ _, [no_active_skeleton]) []
  else [].

(** ** validate *)

(** A check of the first list: it can fail with the [AttributeError] and
    change the view. *)
Definition Check : Type := SceneObject → View → option (list Finding * View).

Definition reads (check : SceneObject → list Finding) : Check :=
  λ object v, Some (check object, v).

Definition raising (check : SceneObject → option (list Finding)) : Check :=
  λ object v, errors ← check object; Some (errors, v).

Definition checklist (scene : Scene) : list Check :=
  [ checkShadowMesh;
    raising checkUV;
    reads (λ object, checkFaceNumber (base object));
    reads checkAutosmooth;
    reads checkTranslation;
    reads (checkInvalidArmatureModifier scene);
    reads checkScale;
    reads (λ object, checkVertexGroups (base object));
    reads (λ object, checkNumBones (Some (base object))) ].

Definition checklist_no_object : list (Scene → list Finding) :=
  [ checkTranslationArmature; checkBoneNames; checkBoneCount ].

(** [for object in mesh_list: errors += check(object)] *)
Fixpoint over_objects (check : Check) (mesh_list : list SceneObject)
    (errors : list Finding) (v : View) : option (list Finding * View) :=
  match mesh_list with
  | [] => Some (errors, v)
  | object :: mesh_list' =>
      match check object v with
      | Some (found, v') => over_objects check mesh_list' (errors ++ found) v'
      | None => None
      end
  end.

(** [for check in checklist: ...] *)
Fixpoint over_checks (checks : list Check) (mesh_list : list SceneObject)
    (errors : list Finding) (v : View) : option (list Finding * View) :=
  match checks with
  | [] => Some (errors, v)
  | check :: checks' =>
      match over_objects check mesh_list errors v with
      | Some (errors', v') => over_checks checks' mesh_list errors' v'
      | None => None
      end
  end.

Definition validate (scene : Scene) (mesh_list : list SceneObject) (v : View)
    : option (list Finding * View) :=
  match over_checks (checklist scene) mesh_list [] v with
  | Some (errors, v') =>
      let errors := errors ++ checkActiveSkeleton scene mesh_list in
      let errors := foldl (λ errors check, errors ++ check scene) errors
                      checklist_no_object in
      Some (errors, v')
  | None => None
  end.

(** ** create_export_list *)

(** A collection with its objects and child collections. *)
#[local] Unset Elimination Schemes.
Inductive Collection :=
  Coll (collection_hide_viewport : bool) (objects : list SceneObject)
       (children : list Collection).
#[local] Set Elimination Schemes.

(** How the host names a datablock: [naming taken nm] is the name it gives
    when [nm] is asked for and [taken] tells the names other datablocks
    have.  The host keeps the names of the mesh datablocks unique. *)
Definition Naming : Type := (string → bool) → string → string.

(** [object.data.name = nm]: the names of the other mesh datablocks are
    taken. *)
Definition name_taken_by_other (data_names : gmap nat string) (d : nat)
    (nm : string) : bool :=
  bool_decide (map_Exists (λ d' nm', d' ≠ d ∧ nm' = nm) data_names).

Definition set_data_name (naming : Naming) (d : nat) (nm : string)
    (data_names : gmap nat string) : gmap nat string :=
  <[d := naming (name_taken_by_other data_names d) nm]> data_names.

(** The loop over [collection.objects]: the names of the mesh datablocks are
    threaded through, the export list grows. *)
Fixpoint export_objects (naming : Naming) (objs : list SceneObject)
    (exportHiddenObjects : bool)
    (useNamesFrom : string) (export_list : list SceneObject)
    (data_names : gmap nat string) : list SceneObject * gmap nat string :=
  match objs with
  | [] => (export_list, data_names)
  | object :: objs' =>
      if bool_decide (type (base object) = "MESH")
         && (negb (hide_viewport object) || exportHiddenObjects)
      then
        let data_names :=
          if decide (useNamesFrom = "OBJECT")
          then set_data_name naming (data object) (name (base object)) data_names
          else data_names in
        export_objects naming objs' exportHiddenObjects useNamesFrom
          (export_list ++ [object]) data_names
      else export_objects naming objs' exportHiddenObjects useNamesFrom
             export_list data_names
  end.

Fixpoint create_export_list (naming : Naming) (collection : Collection)
    (exportHiddenObjects : bool)
    (useNamesFrom : string) (data_names : gmap nat string)
    : list SceneObject * gmap nat string :=
  match collection with
  | Coll hide objs children =>
      if hide then ([], data_names)
      else
        foldl (λ acc child,
          let sub := create_export_list naming child exportHiddenObjects useNamesFrom
                       (snd acc) in
          (fst acc ++ fst sub, snd sub))
          (export_objects naming objs exportHiddenObjects useNamesFrom [] data_names)
          children
  end.

End Checks.

Module CheckScenarios.

Import Validation Checks.

Local Open Scope Q_scope.

(** ** Notions the statements use *)

(** A vertex whose weights are all 0 or 1, with at most one of them 1. *)
Definition rigid_vertex (v : MeshVertex) : Prop :=
  Forall (λ g, weight g == 0 ∨ weight g == 1) (groups v) ∧
  (length (filter (λ g, Qeq_bool (weight g) 1 = true) (groups v)) ≤ 1)%nat.

(** The object has an empty material slot. *)
Definition has_empty_slot (object : SceneObject) : Prop := None ∈ materials object.

(** The object is a shadow volume with a vertex or an edge that is not
    manifold. *)
Definition has_loose_vertex (object : SceneObject) : bool :=
  existsb negb (vert_is_manifold object).

Definition has_open_edge (object : SceneObject) : bool :=
  existsb (λ n, n <? 2)%nat (edge_link_faces object).

Definition is_shadow_volume (object : SceneObject) : bool :=
  match materials object with
  | Some material :: _ => is_shadow_shader (shaderList material)
  | _ => false
  end.

Definition is_open_shadow (object : SceneObject) : bool :=
  is_shadow_volume object && (has_loose_vertex object || has_open_edge object).

(** What [checkShadowMesh] and [checkUV] report where they do not fail. *)
Definition shadow_findings (object : SceneObject) : list Finding :=
  match materials object with
  | [] => [missing_material object]
  | _ =>
      if is_shadow_volume object then
        (if has_loose_vertex object then [non_manifold object] else []) ++
        (if has_open_edge object then [non_manifold object] else [])
      else []
  end.

Definition uv_findings (object : SceneObject) : list Finding :=
  default [] (checkUV object).

(** The findings [validate] collects, check by check. *)
Definition findings_by_check (scene : Scene) (mesh_list : list SceneObject)
    : list Finding :=
  (mesh_list ≫= shadow_findings) ++
  (mesh_list ≫= uv_findings) ++
  (mesh_list ≫= λ object, checkFaceNumber (base object)) ++
  (mesh_list ≫= checkAutosmooth) ++
  (mesh_list ≫= checkTranslation) ++
  (mesh_list ≫= checkInvalidArmatureModifier scene) ++
  (mesh_list ≫= checkScale) ++
  (mesh_list ≫= λ object, checkVertexGroups (base object)) ++
  (mesh_list ≫= λ object, checkNumBones (Some (base object))) ++
  checkActiveSkeleton scene mesh_list ++
  checkTranslationArmature scene ++
  checkBoneNames scene ++
  checkBoneCount scene.

(** A modifier or a constraint that agrees with the active skeleton. *)
Definition modifier_on_skeleton (activeSkeleton : string) (modifier : Modifier) : Prop :=
  m_type modifier = "ARMATURE" →
  ∃ target_name target_type,
    m_object modifier = Some (target_name, target_type) ∧
    (target_type = "NoneType" ∨ target_name = activeSkeleton).

Definition constraint_on_skeleton (activeSkeleton : string) (c : Constraint) : Prop :=
  c_type c = "CHILD_OF" → ∀ target_name, c_target c = Some target_name →
  target_name = activeSkeleton.

(** What [checkBoneNames] reports for one bone. *)
Definition bone_name_findings (bone : string) : list Finding :=
  (if decide (63 < String.length bone)%nat then [name_too_long bone] else []) ++
  (if isascii bone then [] else [name_not_ascii bone]).

(** The object lies in the collection or below it, with no hidden
    collection on the way. *)
Inductive visible_member : Collection → SceneObject → Prop :=
  | member_here objs children object :
      object ∈ objs → visible_member (Coll false objs children) object
  | member_below objs children child object :
      child ∈ children → visible_member child object →
      visible_member (Coll false objs children) object.

(** The object is a mesh that is exported: visible, or hidden objects are
    exported too. *)
Definition exportable (exportHiddenObjects : bool) (object : SceneObject) : Prop :=
  type (base object) = "MESH" ∧
  (hide_viewport object = false ∨ exportHiddenObjects = true).

(** The names of the mesh datablocks follow the export list: the datablock
    of every listed object carries the name the host gave it when the name
    of a listed object that uses it was asked for, and a datablock no listed
    object uses has the name it had in [start]. *)
Definition names_follow (naming : Naming) (start : gmap nat string)
    (export_list : list SceneObject) (data_names : gmap nat string) : Prop :=
  (∀ object, object ∈ export_list →
     ∃ namesake taken, namesake ∈ export_list ∧ data namesake = data object ∧
       data_names !! data object = Some (naming taken (name (base namesake)))) ∧
  (∀ d, (∀ object, object ∈ export_list → data object ≠ d) →
     data_names !! d = start !! d).

(** ** Concrete objects *)

Definition plain_object (nm : string) : Object :=
  {| name := nm; type := "MESH"; loops := 24; vertices := [];
     vertex_groups := None; active_material := None |}.

Definition object_view : View :=
  {| mode := "OBJECT"; active := None; unhidden := [];
     non_manifold_selected := None |}.

(** A mesh with one material, UVs and default transforms. *)
Definition sound_mesh (nm : string) (shader : string) : SceneObject :=
  {| base := plain_object nm; materials := [Some {| shaderList := shader |}];
     vert_is_manifold := [true; true]; edge_link_faces := [2%nat; 2%nat];
     HasCollision := false; uv_layers := ["UVMap"]; modifiers := [];
     constraints := []; use_auto_smooth := None;
     location := zero_vector; rotation_euler := zero_vector; scale := one_vector;
     hide_viewport := false; data := 0 |}.

(** A mesh with an empty material slot after its material. *)
Definition mesh_with_empty_slot : SceneObject :=
  {| base := plain_object "Turret";
     materials := [Some {| shaderList := "MeshGloss.fx" |}; None];
     vert_is_manifold := []; edge_link_faces := [];
     HasCollision := false; uv_layers := ["UVMap"]; modifiers := [];
     constraints := []; use_auto_smooth := None;
     location := zero_vector; rotation_euler := zero_vector; scale := one_vector;
     hide_viewport := false; data := 1 |}.

(** A shadow volume with a loose vertex and an open edge. *)
Definition open_shadow : SceneObject :=
  {| base := plain_object "Shadow";
     materials := [Some {| shaderList := "MeshShadowVolume.fx" |}];
     vert_is_manifold := [true; false]; edge_link_faces := [2%nat; 1%nat];
     HasCollision := false; uv_layers := []; modifiers := [];
     constraints := []; use_auto_smooth := None;
     location := zero_vector; rotation_euler := zero_vector; scale := one_vector;
     hide_viewport := false; data := 2 |}.

(** A collision mesh with three materials. *)
Definition collision_mesh : SceneObject :=
  {| base := plain_object "Collision";
     materials := [Some {| shaderList := "MeshGloss.fx" |};
                   Some {| shaderList := "MeshGloss.fx" |};
                   Some {| shaderList := "MeshGloss.fx" |}];
     vert_is_manifold := []; edge_link_faces := [];
     HasCollision := true; uv_layers := ["UVMap"]; modifiers := [];
     constraints := []; use_auto_smooth := None;
     location := zero_vector; rotation_euler := zero_vector; scale := one_vector;
     hide_viewport := false; data := 3 |}.

Definition bare_scene : Scene := {| skeletonEnum := "None"; findArmature := None |}.

(** An armature with a bone whose name is not ASCII (a code point 233). *)
Definition turret_armature : Armature :=
  {| a_name := "Skeleton"; a_location := zero_vector;
     a_rotation_euler := zero_vector; a_scale := one_vector;
     bones := ["Root"; String (ascii_of_nat 233) "paule"] |}.

Definition rigged_scene : Scene :=
  {| skeletonEnum := "Skeleton"; findArmature := Some turret_armature |}.

End CheckScenarios.

(* ===================================================================== *)
(** * Reasoning about pipeline computations *)
(* ===================================================================== *)

Module Logic.

Import Bake.

(** [wp m Q E w]: run from [w], [m] either returns a value and a world that
    satisfy [Q], or raises an exception in a world that satisfy [E]. *)
Definition wp {A} (m : M A) (Q : A → World → Prop) (E : Exn → World → Prop)
    (w : World) : Prop :=
  match m w with
  | Ret a w' => Q a w'
  | Raise e w' => E e w'
  end.

(** [m] leaves the observation [f] of the world as it was, however it ends. *)
Definition keeps {A B} (f : World → B) (m : M A) : Prop :=
  ∀ w, wp m (λ _ w', f w' = f w) (λ _ w', f w' = f w) w.

(** [m] leaves a world in which [I] holds in one in which it holds, however
    it ends. *)
Definition preserves {A} (I : World → Prop) (m : M A) : Prop :=
  ∀ w, I w → wp m (λ _ w', I w') (λ _ w', I w') w.

(** [m] never lets the engine's bake failure escape. *)
Definition no_bake_error {A} (m : M A) : Prop :=
  ∀ w, wp m (λ _ _, True) (λ e _, e ≠ BakeError) w.

End Logic.

(* ===================================================================== *)
(** * Properties of the validation checks *)
(* ===================================================================== *)

Section ValidationFacts.

Import Validation Scenarios.

Local Open Scope Q_scope.

Lemma Exists_one {A} (P : A → Prop) (x : A) : Exists P [x] ↔ P x.
Proof. rewrite Exists_cons, Exists_nil. tauto. Qed.

Lemma checkFaceNumber_error (object : Object) :
  has_error (checkFaceNumber object) ↔ (65535 < loops object)%N.
Proof.
  unfold checkFaceNumber, has_error.
  destruct (decide (65535 < loops object)%N) as [Hbig|Hbig].
  - rewrite Exists_one. simpl. tauto.
  - destruct (decide (60000 < loops object)%N).
    + rewrite Exists_one. simpl. split; [discriminate | tauto].
    + rewrite Exists_nil. tauto.
Qed.

Lemma checkFaceNumber_warning (object : Object) :
  has_warning (checkFaceNumber object)
  ↔ (60000 < loops object ∧ loops object ≤ 65535)%N.
Proof.
  unfold checkFaceNumber, has_warning.
  destruct (decide (65535 < loops object)%N) as [Hbig|Hbig].
  - rewrite Exists_one. simpl. split; [discriminate | lia].
  - destruct (decide (60000 < loops object)%N).
    + rewrite Exists_one. simpl. split; [lia | tauto].
    + rewrite Exists_nil. lia.
Qed.

(** C6.  A mesh with exactly 65535 loops gets no error finding, one with 65536
    loops gets an error finding, and one with 60001 loops gets a warning
    finding and no error finding. *)
Theorem checkFaceNumber_boundaries (o : Object) :
  ¬ has_error (checkFaceNumber (with_loops o 65535)) ∧
  has_error (checkFaceNumber (with_loops o 65536)) ∧
  has_warning (checkFaceNumber (with_loops o 60001)) ∧
  ¬ has_error (checkFaceNumber (with_loops o 60001)).
Proof.
  rewrite !checkFaceNumber_error, checkFaceNumber_warning. simpl. lia.
Qed.

(** ** Vertex groups *)

Lemma not_in_0_1_true (x : Q) : not_in_0_1 x = true ↔ ¬ x == 0 ∧ ¬ x == 1.
Proof.
  unfold not_in_0_1. rewrite negb_true_iff, orb_false_iff.
  rewrite <- !not_true_iff_false, !Qeq_bool_iff. tauto.
Qed.

Lemma not_in_0_1_false (x : Q) : not_in_0_1 x = false ↔ x == 0 ∨ x == 1.
Proof.
  unfold not_in_0_1. rewrite negb_false_iff, orb_true_iff, !Qeq_bool_iff. tauto.
Qed.

Lemma scan_vertices_true (vs : list MeshVertex) :
  scan_vertices vs = true ↔ Exists (λ v, bad_vertex v = true) vs.
Proof.
  induction vs as [|v vs IH]; simpl.
  - rewrite Exists_nil. split; [discriminate | tauto].
  - rewrite Exists_cons, <- IH. unfold bad_vertex.
    destruct (sum_weights (groups v) 0) as [[]|total]; [tauto|].
    destruct (not_in_0_1 total); [tauto|].
    split; [tauto | intros [?|?]; [discriminate | done]].
Qed.

Lemma checkVertexGroups_bad (object : Object) (vgs : list string) :
  vertex_groups object = Some vgs → vgs ≠ [] →
  Exists (λ v, bad_vertex v = true) (vertices object) →
  checkVertexGroups object = improper_vertex_groups object.
Proof.
  intros Hvg Hne Hbad. unfold checkVertexGroups. rewrite Hvg.
  destruct (decide (length vgs = 0%nat)) as [H0|_].
  - destruct vgs; [done | discriminate].
  - apply scan_vertices_true in Hbad. by rewrite Hbad.
Qed.

Lemma checkVertexGroups_good (object : Object) :
  Forall (λ v, bad_vertex v = false) (vertices object) →
  checkVertexGroups object = [].
Proof.
  intros Hgood. unfold checkVertexGroups.
  destruct (vertex_groups object) as [vgs|]; [|done].
  destruct (decide (length vgs = 0%nat)); [done|].
  destruct (scan_vertices (vertices object)) eqn:Hscan; [|done].
  apply scan_vertices_true, Exists_exists in Hscan as (v & Hv & Hbad).
  rewrite Forall_forall in Hgood. specialize (Hgood v Hv). congruence.
Qed.

(** A weight other than 0 and 1 stops the scan of the vertex at once. *)
Lemma bad_vertex_first_weight (v : MeshVertex) (e : VertexGroupElement) es :
  groups v = e :: es → ¬ weight e == 0 → ¬ weight e == 1 → bad_vertex v = true.
Proof.
  intros Hg H0 H1. unfold bad_vertex. rewrite Hg. simpl.
  by rewrite (proj2 (not_in_0_1_true (weight e)) (conj H0 H1)).
Qed.

Lemma weights_cons (es : list VertexGroupElement) (q : Q) (qs : list Q) :
  Forall2 Qeq (weight <$> es) (q :: qs) →
  ∃ e es', es = e :: es' ∧ weight e == q ∧ Forall2 Qeq (weight <$> es') qs.
Proof.
  destruct es as [|e es']; simpl; intros H.
  - inversion H.
  - inversion H; subst. eauto.
Qed.

Lemma weights_nil (es : list VertexGroupElement) :
  Forall2 Qeq (weight <$> es) [] → es = [].
Proof. destruct es; [done | inversion 1]. Qed.

Lemma bad_vertex_half_half (v : MeshVertex) :
  Forall2 Qeq (weights v) [0.5; 0.5] → bad_vertex v = true.
Proof.
  intros (e & es & Hg & He & _)%weights_cons.
  apply (bad_vertex_first_weight v e es Hg); rewrite He; discriminate.
Qed.

Lemma bad_vertex_single_07 (v : MeshVertex) :
  Forall2 Qeq (weights v) [0.7] → bad_vertex v = true.
Proof.
  intros (e & es & Hg & He & _)%weights_cons.
  apply (bad_vertex_first_weight v e es Hg); rewrite He; discriminate.
Qed.

Lemma bad_vertex_one_one (v : MeshVertex) :
  Forall2 Qeq (weights v) [1; 1] → bad_vertex v = true.
Proof.
  intros (e1 & es & Hg & H1 & Hrest)%weights_cons.
  apply weights_cons in Hrest as (e2 & es' & -> & H2 & ->%weights_nil).
  unfold bad_vertex. rewrite Hg. simpl.
  rewrite (proj2 (not_in_0_1_false (weight e1))) by (by right).
  rewrite (proj2 (not_in_0_1_false (weight e2))) by (by right).
  apply not_in_0_1_true. rewrite H1, H2. split; discriminate.
Qed.

(** C2 (amended).  On a mesh with at least one vertex group, a vertex whose
    two weights are 0.5 and 0.5 produces the error, as does a vertex with the
    single weight 0.7 and a vertex with two weights 1: every weight has to be
    0 or 1, and so has their sum. *)
Theorem checkVertexGroups_rejects (object : Object) (vgs : list string)
    (v : MeshVertex) :
  vertex_groups object = Some vgs → vgs ≠ [] → v ∈ vertices object →
  Forall2 Qeq (weights v) [0.5; 0.5] ∨
  Forall2 Qeq (weights v) [0.7] ∨
  Forall2 Qeq (weights v) [1; 1] →
  checkVertexGroups object = improper_vertex_groups object ∧
  has_error (checkVertexGroups object).
Proof.
  intros Hvg Hne Hv Hw.
  assert (checkVertexGroups object = improper_vertex_groups object) as ->.
  { apply (checkVertexGroups_bad object vgs Hvg Hne), Exists_exists.
    exists v. split; [done|].
    destruct Hw as [H|[H|H]];
      eauto using bad_vertex_half_half, bad_vertex_single_07, bad_vertex_one_one. }
  split; [done|]. by apply Exists_cons_hd.
Qed.

Lemma checkVertexGroups_rejects_witness :
  checkVertexGroups mesh_three_cases = improper_vertex_groups mesh_three_cases ∧
  has_error (checkVertexGroups mesh_three_cases).
Proof.
  apply (checkVertexGroups_rejects mesh_three_cases ["Bone_A"; "Bone_B"]
           (vertex_of [(0%nat, 0.7)])).
  - reflexivity.
  - discriminate.
  - apply list_elem_of_In. simpl. tauto.
  - right; left. repeat constructor.
Defined.

(** C2, as stated, fails: the mesh whose only vertex has the weights 0.5 and
    0.5 does not pass. *)
Lemma checkVertexGroups_half_half_fails :
  checkVertexGroups mesh_half_half ≠ [].
Proof. vm_compute. discriminate. Qed.

(** ** Bone ceiling *)

Lemma str_find_contains (s sub : string) :
  sub ≠ "" → (-1 < str_find s sub)%Z ↔ contains s sub.
Proof.
  intros Hne. unfold str_find, contains.
  destruct (index 0 sub s) as [i|] eqn:Hi.
  - split; [|lia]. intros _. exists i. by apply (index_correct1 0).
  - split; [lia|]. intros [m Hm].
    by destruct (index_correct3 0 m sub s Hi Hne (Nat.le_0_l m)).
Qed.

Lemma used_groups_spec (object : Object) (g : nat) :
  g ∈ used_groups object ↔ group_used object g.
Proof.
  unfold used_groups, group_used, used_groups_of_vertex.
  rewrite list_elem_of_bind. split.
  - intros (v & Hg & Hv).
    apply list_elem_of_fmap in Hg as (e & -> & He).
    apply list_elem_of_filter in He as [Hw He].
    exists v, e. repeat split; try done. by apply Qeq_bool_iff.
  - intros (v & e & Hv & He & <- & Hw). exists v. split; [|done].
    apply list_elem_of_fmap. exists e. split; [done|].
    apply list_elem_of_filter. split; [|done]. by apply Qeq_bool_iff.
Qed.

Lemma num_used_groups_spec (object : Object) (used : gset nat) :
  (∀ g, g ∈ used ↔ group_used object g) → num_used_groups object = size used.
Proof.
  intros Hused. unfold num_used_groups. f_equal. apply set_eq. intros g.
  by rewrite elem_of_list_to_set, used_groups_spec, Hused.
Qed.

(** C10.  For a mesh object whose active material's shader name contains
    "RSkin", the bone-count check reports an error exactly when more than 23
    distinct vertex groups are referred to by some vertex with weight exactly
    1; without an active material, or with a shader name without "RSkin",
    it reports nothing. *)
Theorem checkNumBones_bone_ceiling (object : Object) :
  type object = "MESH" →
  (∀ material (used : gset nat),
      active_material object = Some material →
      contains (shaderList material) "RSkin" →
      (∀ g, g ∈ used ↔ group_used object g) →
      (has_error (checkNumBones (Some object)) ↔ (23 < size used)%nat) ∧
      ((23 < size used)%nat → checkNumBones (Some object) = too_many_bones object) ∧
      ((size used ≤ 23)%nat → checkNumBones (Some object) = [])) ∧
  (active_material object = None → checkNumBones (Some object) = []) ∧
  (∀ material,
      active_material object = Some material →
      ¬ contains (shaderList material) "RSkin" →
      checkNumBones (Some object) = []).
Proof.
  intros Hty. unfold checkNumBones.
  destruct (decide (type object = "MESH")) as [_|]; [|done].
  split; [|split].
  - intros material used -> Hsh Hused.
    apply str_find_contains in Hsh; [|discriminate].
    destruct (decide (-1 < str_find (shaderList material) "RSkin")%Z); [|done].
    rewrite (num_used_groups_spec object used Hused).
    destruct (decide (23 < size used)%nat) as [Hgt|Hle].
    + repeat split; try done; try lia. intros _. by apply Exists_cons_hd.
    + repeat split; try done; try lia. intros H. by apply Exists_nil in H.
  - by intros ->.
  - intros material -> Hsh.
    destruct (decide (-1 < str_find (shaderList material) "RSkin")%Z) as [Hf|]; [|done].
    apply str_find_contains in Hf; [done | discriminate].
Qed.

Lemma checkNumBones_bone_ceiling_witness :
  has_error (checkNumBones (Some (skinned_mesh 24))) ↔
  (23 < size (list_to_set (seq 0 24) : gset nat))%nat.
Proof.
  assert (type (skinned_mesh 24) = "MESH") as Hty by reflexivity.
  destruct (checkNumBones_bone_ceiling (skinned_mesh 24) Hty) as [H _].
  refine (proj1 (H {| shaderList := "RSkinGloss.fx" |} _ eq_refl _ _)).
  - exists 0%nat. reflexivity.
  - intros g. rewrite <- used_groups_spec. vm_compute used_groups.
    by rewrite elem_of_list_to_set.
Defined.

End ValidationFacts.

(* ===================================================================== *)
(** * Properties of the alpha processing *)
(* ===================================================================== *)

Section AlphaFacts.

Import Alpha Scenarios.
Local Open Scope nat_scope.

(** ** Loops over the pixels *)

Lemma for_range_S {S : Type} (n : nat) (body : nat → S → S) (s : S) :
  for_range (Datatypes.S n) body s = body n (for_range n body s).
Proof. unfold for_range. by rewrite seq_S, foldl_snoc. Qed.

Lemma for_range_add {S : Type} (a b : nat) (f : nat → S → S) (s : S) :
  for_range (a + b) f s = for_range b (λ x, f (a + x)) (for_range a f s).
Proof.
  induction b as [|b IH].
  - by rewrite Nat.add_0_r.
  - by rewrite Nat.add_succ_r, !for_range_S, IH.
Qed.

Lemma for_range_ext {S : Type} (n : nat) (f g : nat → S → S) (s : S) :
  (∀ i s', f i s' = g i s') → for_range n f s = for_range n g s.
Proof.
  intros Hfg. induction n as [|n IH]; [done|].
  by rewrite !for_range_S, IH, Hfg.
Qed.

(** The two nested loops visit the pixels in row-major order. *)
Lemma for_range_rows {S : Type} (h w : nat) (f : nat → S → S) (s : S) :
  for_range h (λ y, for_range w (λ x, f (y * w + x))) s = for_range (h * w) f s.
Proof.
  induction h as [|h IH].
  - reflexivity.
  - rewrite for_range_S, IH.
    replace (Datatypes.S h * w) with (h * w + w) by lia.
    by rewrite for_range_add.
Qed.

Section PixelLoop.

(** A loop body that rewrites pixel [k] from the values of pixel [k]. *)
Variable step : nat → list Q → list Q.

Hypothesis step_length : ∀ k buf, length (step k buf) = length buf.

Hypothesis step_other : ∀ k buf j,
  j < k * 4 ∨ k * 4 + 4 ≤ j → step k buf !! j = buf !! j.

Hypothesis step_local : ∀ k buf buf' c,
  c < 4 → k * 4 + 4 ≤ length buf → length buf = length buf' →
  (∀ c', c' < 4 → buf !! (k * 4 + c') = buf' !! (k * 4 + c')) →
  step k buf !! (k * 4 + c) = step k buf' !! (k * 4 + c).

Lemma pixel_loop (n : nat) (buf : list Q) :
  length (for_range n step buf) = length buf ∧
  ∀ k c, c < 4 → k * 4 + 4 ≤ length buf →
    for_range n step buf !! (k * 4 + c) =
      if decide (k < n) then step k buf !! (k * 4 + c) else buf !! (k * 4 + c).
Proof.
  induction n as [|n [IHlen IH]].
  - split; [done|]. intros k c Hc Hin. by case_decide; [lia|].
  - rewrite for_range_S. split; [by rewrite step_length|].
    intros k c Hc Hin.
    destruct (decide (k = n)) as [->|Hkn].
    + rewrite decide_True by lia.
      apply step_local; [done | lia | done |].
      intros c' Hc'. rewrite (IH n c' Hc' Hin). by rewrite decide_False by lia.
    + rewrite step_other by lia. rewrite (IH k c Hc Hin).
      destruct (decide (k < n)), (decide (k < Datatypes.S n)); done || lia.
Qed.

End PixelLoop.

(** ** The saturation mask *)

Local Open Scope Q_scope.

Lemma chan_0_0 (k c : nat) : chan 0 0 k c = (k * 4 + c)%nat.
Proof. reflexivity. Qed.

(** A pixel is addressed by its rank [y * w + x] in row-major order. *)
Lemma chan_flat (w y x c : nat) : chan w y x c = chan 0 0 (y * w + x) c.
Proof. reflexivity. Qed.

Lemma saturation_body_flat (w y x : nat) (buf : list Q) :
  saturation_body w y x buf = saturation_body 0 0 (y * w + x) buf.
Proof. unfold saturation_body. by rewrite !(chan_flat w y x). Qed.

Lemma constant_body_flat (a : Q) (w y x : nat) (buf : list Q) :
  constant_body a w y x buf = constant_body a 0 0 (y * w + x) buf.
Proof. reflexivity. Qed.

Lemma saturation_body_length (w y x : nat) (buf : list Q) :
  length (saturation_body w y x buf) = length buf.
Proof.
  unfold saturation_body.
  destruct (Qlt_le_dec 0.1 _); by rewrite !length_insert.
Qed.

Lemma saturation_body_other (k : nat) (buf : list Q) (j : nat) :
  (j < k * 4 ∨ k * 4 + 4 ≤ j)%nat →
  saturation_body 0 0 k buf !! j = buf !! j.
Proof.
  intros Hj. unfold saturation_body. rewrite !chan_0_0.
  destruct (Qlt_le_dec 0.1 _); by rewrite !list_lookup_insert_ne by lia.
Qed.

Lemma saturation_body_value (k : nat) (buf : list Q) (c : nat) :
  (c < 4)%nat → (k * 4 + 4 ≤ length buf)%nat →
  saturation_body 0 0 k buf !! (k * 4 + c)%nat =
    Some (saturation_out (rd buf (k * 4 + 0)) (rd buf (k * 4 + 1))
                         (rd buf (k * 4 + 2)) c).
Proof.
  intros Hc Hin. unfold saturation_body. rewrite !chan_0_0.
  fold (gray (rd buf (k * 4 + 0)) (rd buf (k * 4 + 1)) (rd buf (k * 4 + 2))).
  fold (code_saturation (rd buf (k * 4 + 0)) (rd buf (k * 4 + 1)) (rd buf (k * 4 + 2))).
  set (r := rd buf (k * 4 + 0)). set (g := rd buf (k * 4 + 1)).
  set (b := rd buf (k * 4 + 2)).
  assert (∀ a, length (<[(k * 4 + 3)%nat := a]> buf) = length buf) as Hlen
    by (intros; apply length_insert).
  destruct c as [|[|[|[|c]]]]; [| | | |lia]; simpl saturation_out;
    unfold mask; destruct (Qlt_le_dec 0.1 (code_saturation r g b)).
  all: repeat first
    [ rewrite list_lookup_insert_eq by (rewrite ?length_insert; lia)
    | rewrite list_lookup_insert_ne by lia ]; done.
Qed.

Lemma py_max3_ge (a b c : Q) : a <= py_max3 a b c.
Proof.
  unfold py_max3. destruct (Qlt_le_dec a b); destruct (Qlt_le_dec _ c); lra.
Qed.

Lemma py_min3_le (a b c : Q) : py_min3 a b c <= a.
Proof.
  unfold py_min3. destruct (Qlt_le_dec b a); destruct (Qlt_le_dec c _); lra.
Qed.

Lemma Qdiv_nonneg_neg (a m : Q) : 0 <= a → m < 0 → a / m <= 0.
Proof.
  intros Ha Hm.
  assert (a / m == (- a) / (- m)) as -> by (field; lra).
  apply Qle_shift_div_r; lra.
Qed.

(** Python's [max] and [min] of three numbers are the greatest and the
    least of them. *)
Lemma py_max3_is_max (a b c : Q) : py_max3 a b c == Qmax (Qmax a b) c.
Proof.
  unfold py_max3.
  destruct (Q.max_spec a b) as [[H1 E1]|[H1 E1]];
    destruct (Q.max_spec (Qmax a b) c) as [[H2 E2]|[H2 E2]];
    destruct (Qlt_le_dec a b); destruct (Qlt_le_dec _ c); lra.
Qed.

Lemma py_min3_is_min (a b c : Q) : py_min3 a b c == Qmin (Qmin a b) c.
Proof.
  unfold py_min3.
  destruct (Q.min_spec a b) as [[H1 E1]|[H1 E1]];
    destruct (Q.min_spec (Qmin a b) c) as [[H2 E2]|[H2 E2]];
    destruct (Qlt_le_dec b a); destruct (Qlt_le_dec c _); lra.
Qed.

Lemma mask_proper (s s' : Q) : s == s' → mask s = mask s'.
Proof.
  intros H. unfold mask.
  destruct (Qlt_le_dec 0.1 s), (Qlt_le_dec 0.1 s'); try reflexivity; lra.
Qed.

(** The test [max_c > 0] of the code and the case "0 when max is 0" of the
    specification give the same mask: a negative maximum has a quotient that
    is not positive. *)
Lemma mask_code_spec (r g b : Q) :
  mask (code_saturation r g b) = mask (saturation_spec r g b).
Proof.
  unfold code_saturation, saturation_spec. cbv zeta.
  pose proof (py_max3_is_max r g b) as Hmax.
  pose proof (py_min3_is_min r g b) as Hmin.
  pose proof (py_max3_ge r g b). pose proof (py_min3_le r g b).
  set (max_c := Qmax (Qmax r g) b) in *. set (min_c := Qmin (Qmin r g) b) in *.
  destruct (Qlt_le_dec 0 (py_max3 r g b)) as [Hpos|Hneg].
  - destruct (Qeq_bool max_c 0) eqn:Heq.
    { apply Qeq_bool_iff in Heq. lra. }
    apply mask_proper. rewrite Hmax, Hmin. reflexivity.
  - destruct (Qeq_bool max_c 0) eqn:Heq; [done|].
    apply Qeq_bool_neq in Heq.
    assert ((max_c - min_c) / max_c <= 0)
      by (apply Qdiv_nonneg_neg; lra).
    unfold mask.
    destruct (Qlt_le_dec 0.1 0); [lra|].
    destruct (Qlt_le_dec 0.1 _); [lra|done].
Qed.

Lemma saturation_body_local (k : nat) (buf buf' : list Q) (c : nat) :
  (c < 4)%nat → (k * 4 + 4 ≤ length buf)%nat → length buf = length buf' →
  (∀ c', (c' < 4)%nat → buf !! (k * 4 + c')%nat = buf' !! (k * 4 + c')%nat) →
  saturation_body 0 0 k buf !! (k * 4 + c)%nat =
  saturation_body 0 0 k buf' !! (k * 4 + c)%nat.
Proof.
  intros Hc Hin Hlen Hsame.
  rewrite !saturation_body_value by (done || lia).
  unfold rd. by rewrite !Hsame by lia.
Qed.

Lemma pixel_in_bounds (h w y x : nat) :
  (y < h)%nat → (x < w)%nat → (y * w + x < h * w)%nat.
Proof. nia. Qed.

Lemma reshape_ok (image : Image) :
  length (pixels image) = (height image * width image * 4)%nat →
  reshape image = Some (pixels image).
Proof. intros H. unfold reshape. by rewrite decide_True. Qed.

Lemma saturation_loop (h w : nat) (buf : list Q) :
  length buf = (h * w * 4)%nat →
  length (for_range h (λ y, for_range w (λ x, saturation_body w y x)) buf)
    = length buf ∧
  ∀ y x c, (y < h)%nat → (x < w)%nat → (c < 4)%nat →
    for_range h (λ y, for_range w (λ x, saturation_body w y x)) buf !! chan w y x c
    = Some (saturation_out (rd buf (chan w y x 0)) (rd buf (chan w y x 1))
                           (rd buf (chan w y x 2)) c).
Proof.
  intros Hlen.
  rewrite (for_range_ext h _
             (λ y, for_range w (λ x, saturation_body 0 0 (y * w + x))))
    by (intros; apply for_range_ext; intros; apply saturation_body_flat).
  rewrite for_range_rows.
  destruct (pixel_loop (saturation_body 0 0)
              (saturation_body_length 0 0) saturation_body_other
              saturation_body_local (h * w) buf) as [Hl Hpx].
  split; [done|]. intros y x c Hy Hx Hc.
  pose proof (pixel_in_bounds _ _ _ _ Hy Hx) as Hk.
  change (chan w y x c) with ((y * w + x) * 4 + c)%nat.
  rewrite Hpx by (done || lia). rewrite decide_True by done.
  by rewrite saturation_body_value by (done || lia).
Qed.

Lemma process_saturation_eq (image : Image) (alpha_value : Z) :
  length (pixels image) = (height image * width image * 4)%nat →
  process_alpha_channel image "EXTRACT_SATURATION" alpha_value =
  Some (set_pixels image
    (for_range (height image) (λ y,
       for_range (width image) (λ x, saturation_body (width image) y x))
       (pixels image))).
Proof.
  intros Hlen. unfold process_alpha_channel.
  rewrite decide_True by done. by rewrite (reshape_ok image Hlen).
Qed.

(** C4.  In [EXTRACT_SATURATION] mode every pixel gets alpha 1.0 when its
    saturation -- (max - min) / max of its R, G and B, 0 when max is 0 --
    is strictly greater than 0.1 and alpha 0.0 otherwise (so at exactly 0.1
    too), and its R, G and B all become 0.299 R + 0.587 G + 0.114 B of the
    input pixel. *)
Theorem extract_saturation_pixels (image : Image) (alpha_value : Z) :
  length (pixels image) = (height image * width image * 4)%nat →
  ∃ image',
    process_alpha_channel image "EXTRACT_SATURATION" alpha_value = Some image' ∧
    width image' = width image ∧ height image' = height image ∧
    length (pixels image') = length (pixels image) ∧
    ∀ y x, (y < height image)%nat → (x < width image)%nat →
      let r := rd (pixels image) (chan (width image) y x 0) in
      let g := rd (pixels image) (chan (width image) y x 1) in
      let b := rd (pixels image) (chan (width image) y x 2) in
      pixels image' !! chan (width image) y x 0 = Some (0.299 * r + 0.587 * g + 0.114 * b) ∧
      pixels image' !! chan (width image) y x 1 = Some (0.299 * r + 0.587 * g + 0.114 * b) ∧
      pixels image' !! chan (width image) y x 2 = Some (0.299 * r + 0.587 * g + 0.114 * b) ∧
      (0.1 < saturation_spec r g b →
         pixels image' !! chan (width image) y x 3 = Some 1.0) ∧
      (saturation_spec r g b <= 0.1 →
         pixels image' !! chan (width image) y x 3 = Some 0.0).
Proof.
  intros Hlen. rewrite (process_saturation_eq image alpha_value Hlen).
  destruct (saturation_loop (height image) (width image) (pixels image) Hlen)
    as [Hl Hpx].
  eexists. split; [reflexivity|].
  split; [reflexivity|]. split; [reflexivity|]. split; [exact Hl|].
  intros y x Hy Hx r g b.
  change (pixels (set_pixels image ?l)) with l.
  rewrite !Hpx by (done || lia).
  fold r g b. change (saturation_out r g b 0) with (gray r g b).
  change (saturation_out r g b 1) with (gray r g b).
  change (saturation_out r g b 2) with (gray r g b).
  change (saturation_out r g b 3) with (mask (code_saturation r g b)).
  rewrite mask_code_spec. unfold mask.
  split; [done|]. split; [done|]. split; [done|]. split.
  - intros Hs. destruct (Qlt_le_dec 0.1 _); [done | lra].
  - intros Hs. destruct (Qlt_le_dec 0.1 _); [lra | done].
Qed.

Lemma extract_saturation_pixels_witness :
  ∃ image',
    process_alpha_channel mixed_pixels "EXTRACT_SATURATION" 255 = Some image' ∧
    pixels image' !! 0%nat = Some (0.299 * 0.9 + 0.587 * 1 + 0.114 * 0.95) ∧
    pixels image' !! 3%nat = Some 0.0 ∧ pixels image' !! 7%nat = Some 1.0 ∧
    pixels image' !! 11%nat = Some 1.0 ∧ pixels image' !! 15%nat = Some 0.0.
Proof.
  destruct (extract_saturation_pixels mixed_pixels 255 eq_refl)
    as (image' & Hrun & _ & _ & _ & Hpx).
  exists image'. split; [exact Hrun|].
  split; [|split; [|split; [|split]]].
  - apply (Hpx 0%nat 0%nat); simpl; lia.
  - apply (Hpx 0%nat 0%nat); [simpl; lia | simpl; lia |].
    vm_compute. discriminate.
  - apply (Hpx 0%nat 1%nat); [simpl; lia | simpl; lia |].
    vm_compute. reflexivity.
  - apply (Hpx 1%nat 0%nat); [simpl; lia | simpl; lia |].
    vm_compute. reflexivity.
  - apply (Hpx 1%nat 1%nat); [simpl; lia | simpl; lia |].
    vm_compute. discriminate.
Defined.

(** ** The constant alpha *)

Lemma constant_body_length (a : Q) (w y x : nat) (buf : list Q) :
  length (constant_body a w y x buf) = length buf.
Proof. apply length_insert. Qed.

Lemma constant_body_other (a : Q) (k : nat) (buf : list Q) (j : nat) :
  (j < k * 4 ∨ k * 4 + 4 ≤ j)%nat →
  constant_body a 0 0 k buf !! j = buf !! j.
Proof.
  intros Hj. unfold constant_body. rewrite chan_0_0.
  by rewrite list_lookup_insert_ne by lia.
Qed.

Lemma constant_body_value (a : Q) (k : nat) (buf : list Q) (c : nat) :
  (c < 4)%nat → (k * 4 + 4 ≤ length buf)%nat →
  constant_body a 0 0 k buf !! (k * 4 + c)%nat =
    if decide (c = 3%nat) then Some a else buf !! (k * 4 + c)%nat.
Proof.
  intros Hc Hin. unfold constant_body. rewrite chan_0_0.
  destruct (decide (c = 3%nat)) as [->|].
  - by rewrite list_lookup_insert_eq by lia.
  - by rewrite list_lookup_insert_ne by lia.
Qed.

Lemma constant_body_local (a : Q) (k : nat) (buf buf' : list Q) (c : nat) :
  (c < 4)%nat → (k * 4 + 4 ≤ length buf)%nat → length buf = length buf' →
  (∀ c', (c' < 4)%nat → buf !! (k * 4 + c')%nat = buf' !! (k * 4 + c')%nat) →
  constant_body a 0 0 k buf !! (k * 4 + c)%nat =
  constant_body a 0 0 k buf' !! (k * 4 + c)%nat.
Proof.
  intros Hc Hin Hlen Hsame.
  rewrite !constant_body_value by (done || lia).
  case_decide; [done|]. by apply Hsame.
Qed.

Lemma alpha_normalized_value (v : Z) : inject_Z v / 255.0 == v # 255.
Proof.
  unfold Qdiv, Qmult, Qinv, Qeq, inject_Z. simpl. lia.
Qed.

Lemma constant_loop (a : Q) (h w : nat) (buf : list Q) :
  length buf = (h * w * 4)%nat →
  length (for_range h (λ y, for_range w (λ x, constant_body a w y x)) buf)
    = length buf ∧
  ∀ y x c, (y < h)%nat → (x < w)%nat → (c < 4)%nat →
    for_range h (λ y, for_range w (λ x, constant_body a w y x)) buf !! chan w y x c
    = if decide (c = 3%nat) then Some a else buf !! chan w y x c.
Proof.
  intros Hlen.
  rewrite (for_range_ext h _
             (λ y, for_range w (λ x, constant_body a 0 0 (y * w + x))))
    by (intros; apply for_range_ext; intros; apply constant_body_flat).
  rewrite for_range_rows.
  destruct (pixel_loop (constant_body a 0 0)
              (constant_body_length a 0 0) (constant_body_other a)
              (constant_body_local a) (h * w) buf) as [Hl Hpx].
  split; [done|]. intros y x c Hy Hx Hc.
  pose proof (pixel_in_bounds _ _ _ _ Hy Hx) as Hk.
  change (chan w y x c) with ((y * w + x) * 4 + c)%nat.
  rewrite Hpx by (done || lia). rewrite decide_True by done.
  by rewrite constant_body_value by (done || lia).
Qed.

Lemma process_constant_eq (image : Image) (v : Z) :
  length (pixels image) = (height image * width image * 4)%nat →
  process_alpha_channel image "CONSTANT" v =
  Some (set_pixels image
    (for_range (height image) (λ y,
       for_range (width image) (λ x,
         constant_body (inject_Z v / 255.0) (width image) y x))
       (pixels image))).
Proof.
  intros Hlen. unfold process_alpha_channel.
  rewrite decide_False by discriminate. rewrite decide_True by done.
  by rewrite (reshape_ok image Hlen).
Qed.

(** C5.  In [CONSTANT] mode with an alpha value [v] in [0, 255], every pixel
    of the buffer ends with alpha [v / 255], and its R, G and B are the ones
    it had. *)
Theorem constant_alpha_pixels (image : Image) (v : Z) :
  (0 ≤ v ≤ 255)%Z →
  length (pixels image) = (height image * width image * 4)%nat →
  ∃ image',
    process_alpha_channel image "CONSTANT" v = Some image' ∧
    width image' = width image ∧ height image' = height image ∧
    length (pixels image') = length (pixels image) ∧
    inject_Z v / 255.0 == v # 255 ∧
    ∀ y x, (y < height image)%nat → (x < width image)%nat →
      pixels image' !! chan (width image) y x 3 = Some (inject_Z v / 255.0) ∧
      ∀ c, (c < 3)%nat →
        pixels image' !! chan (width image) y x c =
        pixels image !! chan (width image) y x c.
Proof.
  intros Hv Hlen. rewrite (process_constant_eq image v Hlen).
  pose proof (alpha_normalized_value v) as Ha. revert Ha.
  generalize (inject_Z v / 255.0). intros a Ha.
  destruct (constant_loop a (height image) (width image) (pixels image) Hlen)
    as [Hl Hpx].
  eexists. split; [reflexivity|].
  split; [reflexivity|]. split; [reflexivity|]. split; [exact Hl|].
  split; [exact Ha|].
  intros y x Hy Hx.
  change (pixels (set_pixels image ?l)) with l.
  split.
  - by rewrite Hpx by (done || lia).
  - intros c Hc. rewrite Hpx by (done || lia). by rewrite decide_False by lia.
Qed.

Lemma constant_alpha_pixels_witness :
  ∃ image',
    process_alpha_channel two_pixels "CONSTANT" 128 = Some image' ∧
    pixels image' !! 7%nat = Some (inject_Z 128 / 255.0) ∧
    pixels image' !! 5%nat = Some 0.
Proof.
  assert (0 ≤ 128 ≤ 255)%Z as Hv by lia.
  destruct (constant_alpha_pixels two_pixels 128 Hv eq_refl)
    as (image' & Hrun & _ & _ & _ & _ & Hpx).
  exists image'. split; [exact Hrun|].
  destruct (Hpx 0%nat 1%nat) as [Ha Hrgb]; [simpl; lia | simpl; lia |].
  split; [exact Ha|].
  transitivity (pixels two_pixels !! chan (width two_pixels) 0 1 1);
    [apply (Hrgb 1%nat); lia | reflexivity].
Defined.

End AlphaFacts.

(* ===================================================================== *)
(** * Paths *)
(* ===================================================================== *)

Section PathFacts.
Import OsPath.

Lemma string_app_cons (x : ascii) (a b : string) :
  String x a +:+ b = String x (a +:+ b).
Proof. reflexivity. Qed.

Lemma string_app_nil (b : string) : "" +:+ b = b.
Proof. reflexivity. Qed.

Lemma string_app_assoc (a b c : string) : (a +:+ b) +:+ c = a +:+ (b +:+ c).
Proof.
  induction a as [|x a IH]; [done|]. by rewrite !string_app_cons, IH.
Qed.

Lemma string_length_app (a b : string) :
  String.length (a +:+ b) = (String.length a + String.length b)%nat.
Proof.
  induction a as [|x a IH]; [done|]. rewrite string_app_cons. simpl. by rewrite IH.
Qed.

Lemma app_suffix_inj (x y a b : string) :
  String.length a = String.length b → x +:+ a = y +:+ b → a = b.
Proof.
  intros Hlen. revert y. induction x as [|c x IH]; intros [|d y] H;
    rewrite ?string_app_cons, ?string_app_nil in H.
  - done.
  - exfalso. rewrite H in Hlen. simpl in Hlen. rewrite string_length_app in Hlen. lia.
  - exfalso. rewrite <- H in Hlen. simpl in Hlen. rewrite string_length_app in Hlen. lia.
  - injection H as _ H. by apply (IH y).
Qed.

(** Two strings with different endings of the same length differ. *)
Lemma app_neq_by_suffix (x y t1 t2 : string) (p1 a p2 b : string) :
  t1 = p1 +:+ a → t2 = p2 +:+ b → String.length a = String.length b → a ≠ b →
  x +:+ t1 ≠ y +:+ t2.
Proof.
  intros -> -> Hlen Hne H. rewrite <- !string_app_assoc in H.
  by apply app_suffix_inj in H.
Qed.

Lemma rfind_from_shift (c : ascii) (s : string) (i : nat) :
  rfind_from c s i = (λ j, (j + i)%nat) <$> rfind_from c s 0.
Proof.
  revert i. induction s as [|a s IH]; intros i; simpl; [done|].
  rewrite (IH (S i)), (IH 1%nat).
  destruct (rfind_from c s 0) as [j|]; simpl.
  - f_equal. lia.
  - by destruct (Ascii.eqb a c).
Qed.

Lemma rfind_from_app (c : ascii) (y t : string) (i : nat) :
  rfind_from c (y +:+ t) i =
  match rfind_from c t (i + String.length y) with
  | Some j => Some j
  | None => rfind_from c y i
  end.
Proof.
  revert i. induction y as [|a y IH]; intros i;
    rewrite ?string_app_cons, ?string_app_nil; simpl.
  - rewrite Nat.add_0_r. by destruct (rfind_from c t i).
  - rewrite IH. replace (S i + String.length y)%nat with (i + S (String.length y))%nat by lia.
    by destruct (rfind_from c t (i + S (String.length y))).
Qed.

Lemma rfind_from_bound (c : ascii) (s : string) (i j : nat) :
  rfind_from c s i = Some j → (i ≤ j < i + String.length s)%nat.
Proof.
  revert i. induction s as [|a s IH]; intros i; simpl; [done|].
  destruct (rfind_from c s (S i)) as [j'|] eqn:Hr.
  - intros [= <-]. apply IH in Hr. lia.
  - destruct (Ascii.eqb a c); [|done]. intros [= <-]. lia.
Qed.

Lemma rfind_bound (s : string) (c : ascii) :
  (-1 ≤ rfind s c < Z.of_nat (String.length s))%Z.
Proof.
  unfold rfind. destruct (rfind_from c s 0) as [j|] eqn:Hr; [|lia].
  apply rfind_from_bound in Hr. lia.
Qed.

Lemma rfind_app_absent (y t : string) (c : ascii) :
  rfind_from c t 0 = None → rfind (y +:+ t) c = rfind y c.
Proof.
  intros Hno. unfold rfind. rewrite rfind_from_app, rfind_from_shift, Hno. done.
Qed.

Lemma rfind_app_present (y t : string) (c : ascii) (k : nat) :
  rfind_from c t 0 = Some k →
  rfind (y +:+ t) c = Z.of_nat (String.length y + k).
Proof.
  intros Hk. unfold rfind. rewrite rfind_from_app, rfind_from_shift, Hk. simpl.
  f_equal. lia.
Qed.

Lemma substring_app_prefix (y t : string) (k : nat) :
  substring 0 (String.length y + k) (y +:+ t) = y +:+ substring 0 k t.
Proof.
  induction y as [|a y IH]; [done|]. rewrite string_app_cons. simpl. by rewrite IH.
Qed.

Lemma char_at_app (y t : string) (c : ascii) :
  char_at (y +:+ t) (String.length y) c = char_at t 0 c.
Proof.
  unfold char_at. by rewrite (append_correct2 y t 0).
Qed.

(** The stem of a path that ends in a file-name tail [t]: a tail without
    separator, with a dot that is not its first character. *)
Lemma splitext_tail (y t : string) (k : nat) :
  rfind_from "/" t 0 = None → rfind_from "." t 0 = Some k →
  char_at t 0 "." = false → (0 < k)%nat →
  fst (splitext (y +:+ t)) = y +:+ substring 0 k t.
Proof.
  intros Hsep Hdot Hfirst Hk. unfold splitext.
  rewrite (rfind_app_absent y t "/" Hsep), (rfind_app_present y t "." k Hdot).
  pose proof (rfind_bound y "/") as Hb.
  rewrite decide_True by lia.
  rewrite Nat2Z.id.
  replace (existsb _ _) with true.
  - unfold slice_to. simpl. apply substring_app_prefix.
  - symmetry. apply existsb_exists. exists (String.length y). split.
    + apply in_seq. lia.
    + by rewrite char_at_app, Hfirst.
Qed.

Lemma join_tail (d b : string) : ∃ pre, join d [b] = pre +:+ b.
Proof.
  unfold join. simpl. unfold join2.
  destruct (startswith b "/"); [by exists ""|].
  destruct (decide (d = "")); [by exists ""|].
  destruct (endswith d "/"); [by exists d|].
  exists (d +:+ "/"). by rewrite string_app_assoc.
Qed.

(** The files of one channel are not the temporary files of the other. *)
Lemma channel_paths_apart (d base path : string) :
  let save_B := join d [base +:+ "_BaseTexture.png"] in
  let save_N := join d [base +:+ "_NormalTexture.png"] in
  let stem_N := fst (splitext save_N) in
  path = save_B ∨ path = fst (splitext save_B) +:+ ".dds" →
  path ≠ stem_N +:+ "_temp.png" ∧ path ≠ stem_N +:+ ".dds" ∧
  path ≠ fst (splitext (stem_N +:+ "_temp.png")) +:+ ".dds".
Proof.
  intros save_B save_N stem_N.
  destruct (join_tail d (base +:+ "_BaseTexture.png")) as [pB HB].
  destruct (join_tail d (base +:+ "_NormalTexture.png")) as [pN HN].
  rewrite <- string_app_assoc in HB, HN.
  assert (stem_N = (pN +:+ base) +:+ "_NormalTexture") as HsN.
  { unfold stem_N, save_N. rewrite HN.
    rewrite (splitext_tail _ "_NormalTexture.png" 14); [reflexivity..|lia]. }
  assert (fst (splitext save_B) = (pB +:+ base) +:+ "_BaseTexture") as HsB.
  { unfold save_B. rewrite HB.
    rewrite (splitext_tail _ "_BaseTexture.png" 12); [reflexivity..|lia]. }
  assert (fst (splitext (stem_N +:+ "_temp.png"))
          = (pN +:+ base) +:+ "_NormalTexture_temp") as HsT.
  { rewrite HsN, string_app_assoc.
    rewrite (splitext_tail _ "_NormalTexture_temp.png" 19); [reflexivity..|lia]. }
  rewrite HsT, HsB, HsN. unfold save_B. rewrite HB.
  rewrite ?(string_app_assoc (pB +:+ base)), ?(string_app_assoc (pN +:+ base)).
  intros [-> | ->]; (split; [|split]).
  - apply (app_neq_by_suffix _ _ _ _ "_BaseTextur" "e.png" "_NormalTexture_tem" "p.png");
      [reflexivity | reflexivity | reflexivity | discriminate].
  - apply (app_neq_by_suffix _ _ _ _ "_BaseTexture" ".png" "_NormalTexture" ".dds");
      [reflexivity | reflexivity | reflexivity | discriminate].
  - apply (app_neq_by_suffix _ _ _ _ "_BaseTexture" ".png" "_NormalTexture_temp" ".dds");
      [reflexivity | reflexivity | reflexivity | discriminate].
  - apply (app_neq_by_suffix _ _ _ _ "_BaseTexture" ".dds" "_NormalTexture_temp" ".png");
      [reflexivity | reflexivity | reflexivity | discriminate].
  - apply (app_neq_by_suffix _ _ _ _ "_" "BaseTexture.dds" "_No" "rmalTexture.dds");
      [reflexivity | reflexivity | reflexivity | discriminate].
  - apply (app_neq_by_suffix _ _ _ _ "_BaseTextur" "e.dds" "_NormalTexture_tem" "p.dds");
      [reflexivity | reflexivity | reflexivity | discriminate].
Qed.

End PathFacts.

(* ===================================================================== *)
(** * Properties of the bake pipeline *)
(* ===================================================================== *)

Section PipelineFacts.

Import Alpha OsPath Bake Logic Scenarios.
Local Open Scope pipeline_scope.

(** ** Rules *)

Lemma wp_bind {A B} (m : M A) (k : A → M B) Q E w :
  wp (bind m k) Q E w ↔ wp m (λ a w', wp (k a) Q E w') E w.
Proof. unfold wp, bind. by destruct (m w). Qed.

Lemma wp_mono {A} (m : M A) (Q Q' : A → World → Prop) (E E' : Exn → World → Prop) w :
  (∀ a w', Q a w' → Q' a w') → (∀ e w', E e w' → E' e w') →
  wp m Q E w → wp m Q' E' w.
Proof. unfold wp. intros HQ HE. destruct (m w); auto. Qed.

Lemma wp_and {A} (m : M A) (Q Q' : A → World → Prop) (E E' : Exn → World → Prop) w :
  wp m Q E w → wp m Q' E' w →
  wp m (λ a w', Q a w' ∧ Q' a w') (λ e w', E e w' ∧ E' e w') w.
Proof. unfold wp. destruct (m w); auto. Qed.

Lemma wp_try_except {A} (m : M A) (h : Exn → M A) Q E w :
  wp (try_except m h) Q E w ↔ wp m Q (λ e w', wp (h e) Q E w') w.
Proof. unfold wp, try_except. by destruct (m w). Qed.

Lemma wp_try_finally {A} (m : M A) (fin : M unit) Q E w :
  wp (try_finally m fin) Q E w ↔
  wp m (λ a w', wp fin (λ _ w'', Q a w'') E w')
       (λ e w', wp fin (λ _ w'', E e w'') E w') w.
Proof. unfold wp, try_finally. destruct (m w) as [a w'|e w']; by destruct (fin w'). Qed.

Lemma wp_for_each {A} (I : World → Prop) (l : list A) (body : A → M unit) Q E w :
  I w →
  (∀ x w', x ∈ l → I w' → wp (body x) (λ _, I) E w') →
  (∀ w', I w' → Q tt w') →
  wp (for_each l body) Q E w.
Proof.
  intros HI Hbody HQ. revert w HI.
  induction l as [|x l IH]; intros w HI; simpl.
  - by apply HQ.
  - apply wp_bind. eapply wp_mono; [| |apply Hbody; [left|done]]; [|done].
    intros u w' HI'. apply IH; [|done].
    intros y w'' Hy. apply Hbody. by right.
Qed.

Lemma wp_fold_each {A S} (I : S → World → Prop) (l : list A) (body : S → A → M S)
    (s : S) Q E w :
  I s w →
  (∀ s x w', x ∈ l → I s w' → wp (body s x) I E w') →
  (∀ s w', I s w' → Q s w') →
  wp (fold_each l body s) Q E w.
Proof.
  intros HI Hbody HQ. revert s w HI.
  induction l as [|x l IH]; intros s w HI; simpl.
  - by apply HQ.
  - apply wp_bind. eapply wp_mono; [| |apply Hbody; [left|done]]; [|done].
    intros s' w' HI'. apply IH; [|done].
    intros s'' y w'' Hy. apply Hbody. by right.
Qed.

(** ** Observations that a computation keeps *)

Section Keeps.

Context {B : Type} (f : World → B).

Lemma keeps_ret {A} (a : A) : keeps f (ret a).
Proof. by intros w. Qed.

Lemma keeps_raise {A} (e : Exn) : keeps f (raise e : M A).
Proof. by intros w. Qed.

Lemma keeps_get_world : keeps f get_world.
Proof. by intros w. Qed.

Lemma keeps_modify (g : World → World) :
  (∀ w, f (g w) = f w) → keeps f (modify g).
Proof. intros Hg w. apply Hg. Qed.

Lemma keeps_bind {A C} (m : M A) (k : A → M C) :
  keeps f m → (∀ a, keeps f (k a)) → keeps f (bind m k).
Proof.
  intros Hm Hk w. apply wp_bind. specialize (Hm w). unfold wp in *.
  destruct (m w) as [a w'|e w']; [|done].
  pose proof (Hk a w') as Hk'. unfold wp in Hk'.
  destruct (k a w'); simpl in *; congruence.
Qed.

Lemma keeps_try_except {A} (m : M A) (h : Exn → M A) :
  keeps f m → (∀ e, keeps f (h e)) → keeps f (try_except m h).
Proof.
  intros Hm Hh w. apply wp_try_except. specialize (Hm w). unfold wp in *.
  destruct (m w) as [a w'|e w']; [done|].
  pose proof (Hh e w') as Hh'. unfold wp in Hh'.
  destruct (h e w'); simpl in *; congruence.
Qed.

Lemma keeps_try_finally {A} (m : M A) (fin : M unit) :
  keeps f m → keeps f fin → keeps f (try_finally m fin).
Proof.
  intros Hm Hfin w. apply wp_try_finally. specialize (Hm w). unfold wp in *.
  destruct (m w) as [a w'|e w']; pose proof (Hfin w') as Hfin';
    unfold wp in Hfin'; destruct (fin w'); simpl in *; congruence.
Qed.

Lemma keeps_for_each {A} (l : list A) (body : A → M unit) :
  (∀ x, keeps f (body x)) → keeps f (for_each l body).
Proof.
  intros Hbody. induction l as [|x l IH]; simpl.
  - apply keeps_ret.
  - apply keeps_bind; [apply Hbody | by intros _].
Qed.

Lemma keeps_fold_each {A S} (l : list A) (body : S → A → M S) (s : S) :
  (∀ s x, keeps f (body s x)) → keeps f (fold_each l body s).
Proof.
  intros Hbody. revert s. induction l as [|x l IH]; intros s; simpl.
  - apply keeps_ret.
  - apply keeps_bind; [apply Hbody | done].
Qed.

Lemma keeps_get_obj (o : nat) : keeps f (get_obj o).
Proof. intros w. unfold wp, get_obj. by destruct (objects w !! o). Qed.

Lemma keeps_get_image (i : string) : keeps f (get_image i).
Proof. intros w. unfold wp, get_image. by destruct (images w !! i). Qed.

Lemma keeps_get_mat (m : string) : keeps f (get_mat m).
Proof. intros w. unfold wp, get_mat. by destruct (materials w !! m). Qed.

End Keeps.

Lemma wp_ret {A} (a : A) Q E w : wp (ret a) Q E w ↔ Q a w.
Proof. done. Qed.

Lemma wp_raise {A} (e : Exn) (Q : A → World → Prop) E w : wp (raise e) Q E w ↔ E e w.
Proof. done. Qed.

Lemma wp_get_world Q E w : wp get_world Q E w ↔ Q w w.
Proof. done. Qed.

Lemma wp_modify (g : World → World) Q E w : wp (modify g) Q E w ↔ Q tt (g w).
Proof. done. Qed.

Lemma wp_any {A} (m : M A) (Q : A → World → Prop) (E : Exn → World → Prop) w :
  (∀ a w', Q a w') → (∀ e w', E e w') → wp m Q E w.
Proof. unfold wp. intros HQ HE. by destruct (m w). Qed.

(** After a computation that keeps [f], go on knowing [f]. *)
Lemma wp_bind_keeps {A C B} (f : World → B) (m : M A) (k : A → M C) Q E w :
  keeps f m →
  (∀ a w', f w' = f w → wp (k a) Q E w') →
  (∀ e w', f w' = f w → E e w') →
  wp (bind m k) Q E w.
Proof.
  intros Hm Hk HE. apply wp_bind. eapply wp_mono; [| |apply (Hm w)]; simpl; auto.
Qed.

Lemma wp_keeps {A B} (f : World → B) (m : M A) (P : B → Prop) w :
  keeps f m → P (f w) → wp m (λ _ w', P (f w')) (λ _ w', P (f w')) w.
Proof.
  intros Hm HP. eapply wp_mono; [| |apply (Hm w)]; simpl; by intros ? ? ->.
Qed.

Create HintDb pipeline.

#[local] Hint Unfold update_obj update_mat update_image set_active select_set
  select_all_deselect set_filepath_raw set_file_format image_save path_exists
  os_remove os_rename ensure_uv_layer unwrap_and_pack rename_obj
  remove_old_uv_maps when images_load copy_object selected_meshes
  ops_object_join ops_mesh_separate_loose apply_alpha : pipeline.

Ltac keeps_step :=
  lazymatch goal with
  | |- keeps _ (ret _) => apply keeps_ret
  | |- keeps _ (raise _) => apply keeps_raise
  | |- keeps _ get_world => apply keeps_get_world
  | |- keeps _ (get_obj _) => apply keeps_get_obj
  | |- keeps _ (get_image _) => apply keeps_get_image
  | |- keeps _ (get_mat _) => apply keeps_get_mat
  | |- keeps _ (bind _ _) => apply keeps_bind; [|intros ?]
  | |- keeps _ (try_except _ _) => apply keeps_try_except; [|intros ?]
  | |- keeps _ (try_finally _ _) => apply keeps_try_finally
  | |- keeps _ (for_each _ _) => apply keeps_for_each; intros ?
  | |- keeps _ (fold_each _ _ _) => apply keeps_fold_each; intros ? ?
  | |- keeps _ (modify _) => apply keeps_modify; intros ?; reflexivity
  | |- keeps _ (match ?x with _ => _ end) => destruct x
  | |- keeps _ _ => first [ progress cbv zeta | progress autounfold with pipeline ]
  end.

Ltac keeps_tac := repeat keeps_step.

(** ** The render engine *)

Lemma keeps_engine_image_save host i : keeps render_engine (image_save host i).
Proof. keeps_tac. Qed.

Lemma keeps_engine_select (obj : nat) (bake_type : string) :
  keeps render_engine
    (set_active obj ;;
     ob <- get_obj obj ;;
     for_each (o_materials ob) (λ slot,
       match slot with
       | None => raise AttributeError
       | Some m =>
           mat <- get_mat m ;;
           if negb (use_nodes mat) then ret tt
           else if has_node (nodes mat) ("BAKE_" +:+ bake_type)
                then update_mat m (select_only ("BAKE_" +:+ bake_type))
                else ret tt
       end)).
Proof. keeps_tac. Qed.

(** C8.  Whatever way a bake pass ends -- it returns after a successful bake,
    it returns [None] after the engine's bake call failed, or a later step
    raises -- the scene's render engine is the one it was before the pass. *)
Theorem bake_pass_restores_engine (host : Host) (obj : nat) (bake_type : string)
    (image save_path : option string) (w : World) :
  match bake_pass host obj bake_type image save_path w with
  | Ret _ w' => render_engine w' = render_engine w
  | Raise _ w' => render_engine w' = render_engine w
  end.
Proof.
  change (wp (bake_pass host obj bake_type image save_path)
            (λ _ w', render_engine w' = render_engine w)
            (λ _ w', render_engine w' = render_engine w) w).
  unfold bake_pass.
  apply (wp_bind_keeps render_engine); [keeps_tac | | auto]. intros _ w1 H1.
  apply (wp_bind_keeps render_engine); [keeps_tac | | congruence]. intros ob w2 H2.
  apply (wp_bind_keeps render_engine); [keeps_tac | | congruence]. intros _ w3 H3.
  apply wp_bind, wp_get_world.
  assert (render_engine w3 = render_engine w) as -> by congruence.
  clear. generalize (render_engine w). intros original_engine.
  apply wp_bind, wp_modify. apply wp_bind, wp_modify.
  apply wp_bind.
  apply (wp_mono _ (λ _ _, True) _ (λ _ _, False)); [| done |].
  2: { destruct (decide (bake_type = "DIFFUSE")); done. }
  intros _ w4 _.
  apply wp_bind, wp_try_except, wp_bind, wp_any.
  - intros _ w5. apply wp_ret. apply wp_bind, wp_modify.
    apply (wp_keeps render_engine _ (λ e, e = original_engine));
      [keeps_tac | reflexivity].
  - intros e w5. apply wp_bind, wp_modify. reflexivity.
Qed.

(** ** The bake failure does not escape *)

Lemma nbe_ret {A} (a : A) : no_bake_error (ret a).
Proof. by intros w. Qed.

Lemma nbe_raise {A} (e : Exn) : e ≠ BakeError → no_bake_error (raise e : M A).
Proof. by intros He w. Qed.

Lemma nbe_get_world : no_bake_error get_world.
Proof. by intros w. Qed.

Lemma nbe_modify (g : World → World) : no_bake_error (modify g).
Proof. by intros w. Qed.

Lemma nbe_bind {A C} (m : M A) (k : A → M C) :
  no_bake_error m → (∀ a, no_bake_error (k a)) → no_bake_error (bind m k).
Proof.
  intros Hm Hk w. apply wp_bind. eapply wp_mono; [| |apply (Hm w)]; simpl; [|done].
  intros a w' _. apply Hk.
Qed.

Lemma nbe_try_except {A} (m : M A) (h : Exn → M A) :
  (∀ e, no_bake_error (h e)) → no_bake_error (try_except m h).
Proof.
  intros Hh w. apply wp_try_except. unfold wp. destruct (m w) as [a w'|e w']; [done|].
  apply Hh.
Qed.

Lemma nbe_try_finally {A} (m : M A) (fin : M unit) :
  no_bake_error m → no_bake_error fin → no_bake_error (try_finally m fin).
Proof.
  intros Hm Hfin w. apply wp_try_finally. specialize (Hm w). unfold wp in *.
  destruct (m w) as [a w'|e w']; pose proof (Hfin w') as Hfin';
    unfold wp in Hfin'; by destruct (fin w').
Qed.

Lemma nbe_for_each {A} (l : list A) (body : A → M unit) :
  (∀ x, no_bake_error (body x)) → no_bake_error (for_each l body).
Proof.
  intros Hbody. induction l as [|x l IH]; simpl.
  - apply nbe_ret.
  - apply nbe_bind; [apply Hbody | by intros _].
Qed.

Lemma nbe_fold_each {A S} (l : list A) (body : S → A → M S) (s : S) :
  (∀ s x, no_bake_error (body s x)) → no_bake_error (fold_each l body s).
Proof.
  intros Hbody. revert s. induction l as [|x l IH]; intros s; simpl.
  - apply nbe_ret.
  - apply nbe_bind; [apply Hbody | done].
Qed.

Lemma nbe_get_obj (o : nat) : no_bake_error (get_obj o).
Proof. intros w. unfold wp, get_obj. by destruct (objects w !! o). Qed.

Lemma nbe_get_image (i : string) : no_bake_error (get_image i).
Proof. intros w. unfold wp, get_image. by destruct (images w !! i). Qed.

Lemma nbe_get_mat (m : string) : no_bake_error (get_mat m).
Proof. intros w. unfold wp, get_mat. by destruct (materials w !! m). Qed.

#[local] Hint Unfold prepare_object_for_bake prepare_objects_for_bake
  separate_baked_meshes setup_baking_material create_baked_material_shared
  cleanup_bake_nodes save_image_as_dds Texconv_init convert convert_dll
  convert_exe run_converter relocate_created : pipeline.

Ltac nbe_step :=
  lazymatch goal with
  | |- no_bake_error (ret _) => apply nbe_ret
  | |- no_bake_error (raise _) => apply nbe_raise; discriminate
  | |- no_bake_error get_world => apply nbe_get_world
  | |- no_bake_error (get_obj _) => apply nbe_get_obj
  | |- no_bake_error (get_image _) => apply nbe_get_image
  | |- no_bake_error (get_mat _) => apply nbe_get_mat
  | |- no_bake_error (bind _ _) => apply nbe_bind; [|intros ?]
  | |- no_bake_error (try_except _ _) => apply nbe_try_except; intros ?
  | |- no_bake_error (try_finally _ _) => apply nbe_try_finally
  | |- no_bake_error (for_each _ _) => apply nbe_for_each; intros ?
  | |- no_bake_error (fold_each _ _ _) => apply nbe_fold_each; intros ? ?
  | |- no_bake_error (modify _) => apply nbe_modify
  | |- no_bake_error (match ?x with _ => _ end) => destruct x
  | |- no_bake_error _ => first [ progress cbv zeta | progress autounfold with pipeline ]
  end.

Ltac nbe_tac := repeat nbe_step.

Lemma nbe_bake_pass host obj bake_type image save_path :
  no_bake_error (bake_pass host obj bake_type image save_path).
Proof. unfold bake_pass. nbe_tac. Qed.

Lemma nbe_save_image_as_dds host image save_path fmt a s mip :
  no_bake_error (save_image_as_dds host image save_path fmt a s mip).
Proof. nbe_tac. Qed.

Lemma nbe_bake_channel host req joined base results bi :
  no_bake_error (bake_channel host req joined base results bi).
Proof.
  unfold bake_channel. cbv zeta.
  apply nbe_bind; [apply nbe_bake_pass|]. intros _.
  apply nbe_bind; [nbe_tac|]. intros flags.
  apply nbe_bind; [apply nbe_save_image_as_dds|]. intros saved. apply nbe_ret.
Qed.

Lemma nbe_run_pipeline host objs req : no_bake_error (run_pipeline host objs req).
Proof.
  unfold run_pipeline. destruct objs as [|first rest]; [apply nbe_ret|].
  cbv zeta.
  apply nbe_bind; [nbe_tac|]. intros jm.
  apply nbe_bind; [nbe_tac|]. intros imgs.
  apply nbe_bind; [nbe_tac|]. intros ob.
  apply nbe_bind; [apply nbe_fold_each; intros; apply nbe_bake_channel|].
  intros results. nbe_tac.
Qed.

(** ** The calls of the engine's bake *)

Lemma wp_bind_any {A C} (m : M A) (k : A → M C) Q E w :
  (∀ a w', wp (k a) Q E w') → (∀ e w', E e w') → wp (bind m k) Q E w.
Proof. intros Hk HE. apply wp_bind, wp_any; auto. Qed.

Lemma ops_object_bake_calls host bake_type w :
  wp (ops_object_bake host bake_type)
     (λ _ w', bake_calls w' = bake_calls w ++ [bake_type])
     (λ _ w', bake_calls w' = bake_calls w ++ [bake_type]) w.
Proof.
  unfold ops_object_bake. apply wp_bind, wp_modify.
  apply (wp_keeps bake_calls _ (λ c, c = bake_calls w ++ [bake_type]));
    [keeps_tac | reflexivity].
Qed.

Lemma bake_pass_calls host obj bake_type image save_path w :
  wp (bake_pass host obj bake_type image save_path)
     (λ _ w', bake_calls w' = bake_calls w ++ [bake_type])
     (λ _ _, True) w.
Proof.
  unfold bake_pass.
  apply (wp_bind_keeps bake_calls); [keeps_tac | | auto]. intros _ w1 H1.
  apply (wp_bind_keeps bake_calls); [keeps_tac | | auto]. intros ob w2 H2.
  apply (wp_bind_keeps bake_calls); [keeps_tac | | auto]. intros _ w3 H3.
  apply wp_bind, wp_get_world.
  apply wp_bind, wp_modify. apply wp_bind, wp_modify.
  apply (wp_bind_keeps bake_calls); [keeps_tac | | auto]. intros _ w4 H4.
  simpl in H4.
  assert (bake_calls w4 = bake_calls w) as Hw4 by congruence.
  apply wp_bind, wp_try_except, wp_bind.
  eapply wp_mono; [| |apply ops_object_bake_calls].
  - intros u w5 H5. apply wp_ret. apply wp_bind, wp_modify.
    eapply wp_mono; [| |apply (wp_keeps bake_calls _
      (λ c, c = bake_calls w ++ [bake_type]))]; [done | done | keeps_tac |].
    simpl. congruence.
  - intros e w5 H5. apply wp_bind, wp_modify. simpl. apply wp_ret, wp_ret.
    simpl. congruence.
Qed.

Lemma wp_get_image (i : string) Q E w :
  (∀ im, images w !! i = Some im → Q im w) → E ReferenceError w →
  wp (get_image i) Q E w.
Proof. intros HQ HE. unfold wp, get_image. destruct (images w !! i); auto. Qed.

Lemma wp_get_obj (o : nat) Q E w :
  (∀ ob, objects w !! o = Some ob → Q ob w) → E ReferenceError w →
  wp (get_obj o) Q E w.
Proof. intros HQ HE. unfold wp, get_obj. destruct (objects w !! o); auto. Qed.

Lemma wp_get_mat (m : string) Q E w :
  (∀ mat, materials w !! m = Some mat → Q mat w) → E ReferenceError w →
  wp (get_mat m) Q E w.
Proof. intros HQ HE. unfold wp, get_mat. destruct (materials w !! m); auto. Qed.

(** [image.save()] after [filepath_raw] was set leaves a file at that path. *)
Lemma image_save_at host image path fmt w :
  wp (set_filepath_raw image path ;; set_file_format image fmt ;;
      image_save host image)
     (λ _ w', files w' = <[path := kind_of_format fmt]> (files w))
     (λ _ _, True) w.
Proof.
  unfold set_filepath_raw, set_file_format, update_image, image_save.
  apply wp_bind, wp_modify. apply wp_bind, wp_modify.
  apply wp_bind, wp_get_image; [|done]. simpl. intros im Him.
  rewrite !lookup_alter_eq in Him.
  destruct (images w !! image) as [im0|]; [|done]. simpl in Him.
  injection Him as <-. simpl.
  destruct (save_raises host path); [done|]. by apply wp_modify.
Qed.

Lemma wp_image_save_at {C} host image path fmt (k : M C) Q E w :
  (∀ w', files w' = <[path := kind_of_format fmt]> (files w) → wp k Q E w') →
  (∀ e w', E e w') →
  wp (set_filepath_raw image path ;; set_file_format image fmt ;;
      image_save host image ;; k) Q E w.
Proof.
  intros Hk HE.
  unfold set_filepath_raw, set_file_format, update_image, image_save.
  apply wp_bind, wp_modify. apply wp_bind, wp_modify.
  apply wp_bind, wp_bind, wp_get_image; [|apply HE]. simpl. intros im Him.
  rewrite !lookup_alter_eq in Him.
  destruct (images w !! image) as [im0|]; [|done]. simpl in Him.
  injection Him as <-. simpl.
  destruct (save_raises host path); [apply HE|].
  apply wp_modify. by apply Hk.
Qed.

Lemma wp_path_exists (p : string) Q E w :
  Q (bool_decide (is_Some (files w !! p))) w → wp (path_exists p) Q E w.
Proof. done. Qed.

Lemma save_image_as_dds_saved host image save_path fmt a s mip w :
  wp (save_image_as_dds host image save_path fmt a s mip)
     (λ r _, is_Some r) (λ _ _, True) w.
Proof.
  unfold save_image_as_dds.
  apply wp_bind_any; [|done]. intros im w1. cbv zeta.
  apply wp_image_save_at; [|done]. intros w2 Hw2.
  apply wp_bind, wp_path_exists. rewrite Hw2, lookup_insert_eq.
  rewrite bool_decide_eq_true_2 by eauto. simpl.
  do 5 (apply wp_bind_any; [|done]; intros ? ?).
  match goal with |- wp (if ?b then _ else _) _ _ _ => destruct b end.
  - apply wp_bind_any; [|done]. intros ? ?. by apply wp_ret.
  - apply wp_try_finally, wp_image_save_at; [|intros; by apply wp_any].
    intros w3 _. apply wp_ret. by apply wp_any.
Qed.

(** The parameter a channel is recorded under. *)
Lemma bake_channel_spec host req joined base results bake_type image w :
  wp (bake_channel host req joined base results (bake_type, image))
     (λ r w', bake_calls w' = bake_calls w ++ [bake_type] ∧
              ∃ name, r = dict_set results
                (if bool_decide (bake_type = "NORMAL")
                 then "NormalTexture" else "BaseTexture") (Some name))
     (λ e _, e ≠ BakeError) w.
Proof.
  eapply wp_mono; [| |apply wp_and;
    [apply (nbe_bake_channel host req joined base results (bake_type, image) w)|]].
  { intros r w' [_ H]. exact H. }
  { intros e w' [H _]. exact H. }
  unfold bake_channel. cbv zeta. simpl fst. simpl snd.
  apply wp_bind. eapply wp_mono; [| |apply bake_pass_calls]; [|done].
  intros u w1 H1.
  set (param := if bool_decide (bake_type = "NORMAL")
                then "NormalTexture" else "BaseTexture").
  apply (wp_mono _
    (λ r w', bake_calls w' = bake_calls w ++ [bake_type] ∧
             ∃ name, r = dict_set results param (Some name))
    _ (λ _ _, True ∧ True)); [done | done |].
  apply wp_and.
  - eapply wp_mono; [| |apply (wp_keeps bake_calls _
      (λ c, c = bake_calls w ++ [bake_type]))]; [done | done | keeps_tac | done].
  - apply wp_bind_any; [|done]. intros flags w2.
    apply wp_bind. eapply wp_mono; [| |apply save_image_as_dds_saved]; [|done].
    intros r w3 [name ->]. apply wp_ret. eauto.
Qed.

(** The images [setup_baking_material] hands out: one for each bake type. *)
Lemma setup_baking_material_images obj resolution w :
  wp (setup_baking_material obj resolution)
     (λ imgs _, ∃ d n, imgs = [("DIFFUSE", d); ("NORMAL", n)])
     (λ _ _, True) w.
Proof.
  unfold setup_baking_material.
  apply wp_bind_any; [|done]. intros ob w1. simpl fold_each.
  rewrite !wp_bind. apply wp_modify. rewrite !wp_bind. apply wp_modify.
  apply wp_ret. rewrite !wp_bind. apply wp_modify. rewrite !wp_bind.
  apply wp_modify. apply wp_ret, wp_ret.
  do 3 (apply wp_bind_any; [|done]; intros ? ?).
  apply wp_ret. simpl. eauto.
Qed.

Lemma wp_keeps_ret {A B} (f : World → B) (m : M A) (P : B → Prop) w :
  keeps f m → P (f w) → wp m (λ _ w', P (f w')) (λ _ _, True) w.
Proof.
  intros Hm HP. eapply wp_mono; [| |apply (wp_keeps f m P w Hm HP)]; done.
Qed.

Lemma run_pipeline_calls host objs req w :
  wp (run_pipeline host objs req)
     (λ r w', match r with
              | None => objs = []
              | Some st =>
                  bake_calls w' = bake_calls w ++ ["DIFFUSE"; "NORMAL"] ∧
                  ∃ base normal, snd st = [("BaseTexture", Some base);
                                           ("NormalTexture", Some normal)]
              end)
     (λ _ _, True) w.
Proof.
  unfold run_pipeline. destruct objs as [|first rest]; [done|]. cbv zeta.
  apply (wp_bind_keeps bake_calls); [keeps_tac | | done]. intros jm w1 H1.
  apply wp_bind.
  eapply wp_mono; [| |apply wp_and;
    [apply setup_baking_material_images
    |apply (wp_keeps_ret bake_calls _ (λ c, c = bake_calls w))]];
    [|done|keeps_tac|done].
  intros imgs w2 [(d & n & ->) H2]. simpl in H2.
  apply (wp_bind_keeps bake_calls); [keeps_tac | | done]. intros ob w3 H3.
  simpl fold_each. apply wp_bind, wp_bind.
  eapply wp_mono; [| |apply bake_channel_spec]; [|done].
  intros r1 w4 [H4 (base & ->)]. apply wp_bind.
  eapply wp_mono; [| |apply bake_channel_spec]; [|done].
  intros r2 w5 [H5 (normal & ->)]. apply wp_ret.
  apply (wp_bind_keeps bake_calls); [keeps_tac | | done]. intros seps w6 H6.
  apply (wp_bind_keeps bake_calls); [keeps_tac | | done]. intros mat w7 H7.
  apply (wp_bind_keeps bake_calls); [keeps_tac | | done]. intros u1 w8 H8.
  apply (wp_bind_keeps bake_calls); [keeps_tac | | done]. intros u2 w9 H9.
  apply wp_ret. simpl. split; [|eauto].
  rewrite H9, H8, H7, H6, H5, H4, H3, H2. by rewrite <- app_assoc.
Qed.

(** ** Cleaning up the bake nodes *)

(** A loop whose iterations are related by a preorder [R] and establish [P]
    for their element, when [P] survives [R]. *)
Lemma wp_for_each_rel {A} (R : World → World → Prop) (P : A → World → Prop)
    (l : list A) (body : A → M unit) (w : World) :
  (∀ w1, R w1 w1) →
  (∀ w1 w2 w3, R w1 w2 → R w2 w3 → R w1 w3) →
  (∀ x w1 w2, P x w1 → R w1 w2 → P x w2) →
  (∀ x w1, x ∈ l → wp (body x) (λ _ w2, R w1 w2 ∧ P x w2) (λ _ _, True) w1) →
  wp (for_each l body) (λ _ w', R w w' ∧ ∀ x, x ∈ l → P x w') (λ _ _, True) w.
Proof.
  intros Hrefl Htrans Hstable. revert w.
  induction l as [|x l IH]; intros w Hbody; simpl.
  - apply wp_ret. split; [apply Hrefl|]. intros x Hx. by apply elem_of_nil in Hx.
  - apply wp_bind. eapply wp_mono; [| |apply (Hbody x w)]; [|done|by left].
    intros u w1 [HR HP]. simpl.
    eapply wp_mono; [| |apply (IH w1)]; [|done|].
    + intros u' w2 [HR' HP']. simpl. split; [by eapply Htrans|].
      intros y [->|Hy]%elem_of_cons; [by eapply Hstable | by apply HP'].
    + intros y w' Hy. apply Hbody. by right.
Qed.

Lemma cleaner_refl (w : World) : cleaner w w.
Proof. by split. Qed.

Lemma cleaner_trans (w1 w2 w3 : World) : cleaner w1 w2 → cleaner w2 w3 → cleaner w1 w3.
Proof. intros [Ho1 Hm1] [Ho2 Hm2]. split; [congruence | auto]. Qed.

Lemma clean_obj_cleaner (o : nat) (w1 w2 : World) :
  clean_obj w1 o → cleaner w1 w2 → clean_obj w2 o.
Proof.
  intros Hc [Ho Hm] ob m Hob Hslot. apply Hm, (Hc ob m); [|done]. by rewrite <- Ho.
Qed.

(** Removing the bake nodes of one material. *)
Lemma remove_bake_nodes_cleaner (m : string) (w : World) :
  let w' := set_materials
    (alter (λ mat, set_nodes mat (filter (λ n, is_bake_node n = false) (nodes mat))) m) w in
  cleaner w w' ∧ clean_mat w' m.
Proof.
  intros w'. split; [split; [done|]|].
  - intros m' Hclean mat' Hm' Hu. subst w'. simpl in Hm'.
    destruct (decide (m' = m)) as [->|Hne].
    + rewrite lookup_alter_eq in Hm'.
      destruct (materials w !! m) as [mat|] eqn:Hm; [|done].
      injection Hm' as <-. simpl in *.
      apply Forall_forall. intros n [Hn _]%list_elem_of_filter. done.
    + rewrite lookup_alter_ne in Hm' by done. by apply Hclean.
  - intros mat' Hm' Hu. subst w'. simpl in Hm'. rewrite lookup_alter_eq in Hm'.
    destruct (materials w !! m) as [mat|] eqn:Hm; [|done].
    injection Hm' as <-. simpl.
    apply Forall_forall. intros n [Hn _]%list_elem_of_filter. done.
Qed.

Lemma cleanup_bake_nodes_spec (o : nat) (w : World) :
  wp (cleanup_bake_nodes o) (λ _ w', cleaner w w' ∧ clean_obj w' o) (λ _ _, True) w.
Proof.
  unfold cleanup_bake_nodes.
  apply wp_bind, wp_get_obj; [|done]. intros ob Hob.
  eapply wp_mono; [| |apply (wp_for_each_rel cleaner
    (λ slot w', ∀ m, slot = Some m → clean_mat w' m))]; [|done|..].
  - intros u w' [Hcl Hslots]. simpl. split; [done|].
    intros ob' m Hob' Hm. destruct Hcl as [Ho _]. rewrite Ho, Hob in Hob'.
    injection Hob' as <-. by apply (Hslots (Some m)).
  - apply cleaner_refl.
  - apply cleaner_trans.
  - intros slot w1 w2 HP [_ Hm] m ->. by apply Hm, HP.
  - intros [m|] w1 _.
    + apply wp_bind, wp_get_mat; [|done]. intros mat Hmat.
      destruct (use_nodes mat) eqn:Hu; simpl.
      * unfold update_mat. apply wp_modify.
        destruct (remove_bake_nodes_cleaner m w1) as [Hc Hm].
        split; [exact Hc|]. by intros ? [= <-].
      * apply wp_ret. split; [apply cleaner_refl|]. intros ? [= <-] mat' Hm' Hu'.
        congruence.
    + apply wp_ret. split; [apply cleaner_refl | done].
Qed.

Lemma cleanup_all_spec (objs : list nat) (w : World) :
  wp (for_each objs cleanup_bake_nodes)
     (λ _ w', cleaner w w' ∧ ∀ o, o ∈ objs → clean_obj w' o) (λ _ _, True) w.
Proof.
  apply (wp_for_each_rel cleaner (λ o w', clean_obj w' o)).
  - apply cleaner_refl.
  - apply cleaner_trans.
  - intros o w1 w2. apply clean_obj_cleaner.
  - intros o w1 _. apply cleanup_bake_nodes_spec.
Qed.

Lemma run_pipeline_cleanup host objs req w :
  wp (run_pipeline host objs req)
     (λ r w', match r with
              | None => True
              | Some st => ∀ o, o ∈ objs ++ fst st → clean_obj w' o
              end)
     (λ _ _, True) w.
Proof.
  unfold run_pipeline. destruct objs as [|first rest]; [done|]. cbv zeta.
  do 6 (apply wp_bind_any; [|done]; intros ? ?).
  apply wp_bind. eapply wp_mono; [| |apply cleanup_all_spec]; [|done].
  intros u1 w1 [_ Hobjs]. apply wp_bind.
  eapply wp_mono; [| |apply cleanup_all_spec]; [|done].
  intros u2 w2 [Hcl Hseps]. apply wp_ret. simpl fst.
  intros o [Ho|Ho]%elem_of_app.
  - by eapply clean_obj_cleaner; [apply Hobjs|].
  - by apply Hseps.
Qed.

(** What the clean-up reaches.  When [run_pipeline] returns -- which it also
    does after a bake pass failed -- no material that uses nodes and sits in
    a material slot of an input object or of a returned object holds a node
    whose name starts with BAKE_. *)
Theorem run_pipeline_cleans_on_return (host : Host) (objs : list nat)
    (req : BakeRequest) (w : World) :
  match run_pipeline host objs req w with
  | Ret (Some (separated_objs, _)) w' =>
      ∀ o ob m mat,
        o ∈ objs ++ separated_objs →
        objects w' !! o = Some ob → Some m ∈ o_materials ob →
        materials w' !! m = Some mat → use_nodes mat = true →
        Forall (λ n, is_bake_node n = false) (nodes mat)
  | _ => True
  end.
Proof.
  pose proof (run_pipeline_cleanup host objs req w) as H. unfold wp in H.
  destruct (run_pipeline host objs req w) as [[[seps results]|] w'|e w']; [|done..].
  intros o ob m mat Ho Hob Hm Hmat Hu. by apply (H o Ho ob m Hob Hm mat).
Qed.

(** The clean-up is the last step and nothing protects it: when a step
    before it raises -- here the host cannot write the intermediate PNG --
    the pipeline is left before the clean-up and the material of the object
    keeps both bake nodes. *)
Lemma run_pipeline_leaves_bake_nodes_on_exception :
  match run_pipeline read_only_host [0%nat] small_request cube_scene with
  | Raise _ w' =>
      ∃ mat, materials w' !! "Hull" = Some mat ∧
             (is_bake_node <$> nodes mat) = [true; true]
  | Ret _ _ => False
  end.
Proof. vm_compute. eexists. split; reflexivity. Qed.

(** C3.  The clean-up misses the material the set-up creates.  For a mesh
    without material slots [setup_baking_material] creates BakeTemp and puts
    both bake nodes on it; [create_baked_material_shared] then replaces the
    slots of the baked object, so the clean-up, which walks the material
    slots of the input and of the returned objects, never reaches BakeTemp.
    The pipeline returns normally, every bake having succeeded, and
    BakeTemp still uses nodes and holds BAKE_DIFFUSE and BAKE_NORMAL. *)
Lemma run_pipeline_leaves_bake_nodes_on_temp_material :
  match run_pipeline working_host [0%nat] small_request bare_cube_scene with
  | Ret (Some (separated_objs, _)) w' =>
      (∀ o ob, o ∈ 0%nat :: separated_objs → objects w' !! o = Some ob →
         Some "BakeTemp" ∉ o_materials ob) ∧
      ∃ mat, materials w' !! "BakeTemp" = Some mat ∧ use_nodes mat = true ∧
             node_name <$> nodes mat
             = ["Principled BSDF"; "Material Output"; "BAKE_DIFFUSE"; "BAKE_NORMAL"]
  | _ => False
  end.
Proof.
  vm_compute. split.
  - intros o ob [->|[->|[]%elem_of_nil]%elem_of_cons]%elem_of_cons.
    + intros [= <-]. by intros []%elem_of_nil.
    + intros [= <-] [[=]|[]%elem_of_nil]%elem_of_cons.
  - eexists. repeat split; reflexivity.
Qed.

(** ** The PNG fallback *)

Lemma exists_on_disk_false (w : World) (p : string) :
  exists_on_disk w p = false ↔ files w !! p = None.
Proof.
  unfold exists_on_disk. rewrite bool_decide_eq_false, <- eq_None_not_Some. done.
Qed.

Lemma find_all_false {A} (f : A → bool) (l : list A) :
  Forall (λ x, f x = false) l → List.find f l = None.
Proof.
  induction 1 as [|x l Hx _ IH]; [done|]. simpl. by rewrite Hx.
Qed.

Lemma find_texconv_tool_not_located (w : World) :
  tool_not_located w → find_texconv_tool w = None.
Proof.
  intros [Hover Haddon]. unfold find_texconv_tool.
  assert ((if decide (alamo_texconv_path w = "") then None
           else if exists_on_disk w (alamo_texconv_path w)
                then Some (alamo_texconv_path w) else None) = None) as ->.
  { destruct (decide (alamo_texconv_path w = "")); [done|].
    destruct Hover as [?|Hnone]; [done|].
    by rewrite (proj2 (exists_on_disk_false _ _) Hnone). }
  destruct (appdata w) as [a|] eqn:Ha; [|done].
  destruct (decide (a = "")); [done|].
  specialize (Haddon a eq_refl n).
  apply find_all_false. eapply Forall_impl; [exact Haddon|].
  intros p Hp. by apply exists_on_disk_false.
Qed.

Lemma find_texconv_tool_same (w w' : World) :
  files w' = files w → alamo_texconv_path w' = alamo_texconv_path w →
  appdata w' = appdata w → find_texconv_tool w' = find_texconv_tool w.
Proof.
  intros Hf Hp Ha. unfold find_texconv_tool, exists_on_disk. by rewrite Hf, Hp, Ha.
Qed.

Lemma append_inv_head (s a b : string) : s +:+ a = s +:+ b → a = b.
Proof. induction s as [|c s IH]; simpl; [done|]. intros [= H]. auto. Qed.

(** Saving an image that is there, on a host that can write the file. *)
Lemma wp_image_save_ok {C} host image path fmt (k : M C) Q E w :
  is_Some (images w !! image) → save_raises host path = false →
  (∀ w', files w' = <[path := kind_of_format fmt]> (files w) →
         alamo_texconv_path w' = alamo_texconv_path w →
         appdata w' = appdata w →
         is_Some (images w' !! image) → wp k Q E w') →
  wp (set_filepath_raw image path ;; set_file_format image fmt ;;
      image_save host image ;; k) Q E w.
Proof.
  intros [im0 Him0] Hsave Hk.
  unfold set_filepath_raw, set_file_format, update_image, image_save.
  apply wp_bind, wp_modify. apply wp_bind, wp_modify.
  apply wp_bind, wp_bind. unfold wp at 1, get_image. simpl.
  rewrite !lookup_alter_eq, Him0. simpl. rewrite Hsave.
  apply wp_modify. apply Hk; simpl; try done.
  rewrite !lookup_alter_eq, Him0. by eexists.
Qed.

Lemma save_image_as_dds_fallback_spec host image save_path fmt a s mip w :
  is_Some (images w !! image) →
  save_raises host (fst (splitext save_path) +:+ "_temp.png") = false →
  save_raises host save_path = false →
  tool_not_located (set_files <[fst (splitext save_path) +:+ "_temp.png" := PNG]> w) →
  wp (save_image_as_dds host image save_path fmt a s mip)
     (λ r w', r = Some (basename save_path) ∧
              files w' !! save_path = Some PNG ∧
              (fst (splitext save_path) +:+ ".dds" ≠ save_path →
               files w' !! (fst (splitext save_path) +:+ ".dds")
               = files w !! (fst (splitext save_path) +:+ ".dds")))
     (λ _ _, False) w.
Proof.
  intros [im Him] Htemp Hsave Htool.
  set (stem := fst (splitext save_path)) in *.
  assert (stem +:+ "_temp.png" ≠ stem +:+ ".dds") as Hne'
    by (intros H%append_inv_head; discriminate).
  unfold save_image_as_dds.
  unfold wp at 1, bind at 1, get_image at 1. rewrite Him. cbv zeta. fold stem.
  apply wp_image_save_ok; [by eexists | done |]. intros w1 Hf1 Hp1 Ha1 Hi1.
  change (kind_of_format "PNG") with PNG in Hf1.
  apply wp_bind, wp_path_exists. rewrite Hf1, lookup_insert_eq.
  rewrite bool_decide_eq_true_2 by eauto. simpl negb. cbv iota.
  unfold Texconv_init. apply wp_bind, wp_bind, wp_get_world.
  rewrite (find_texconv_tool_same (set_files <[stem +:+ "_temp.png" := PNG]> w) w1)
    by done.
  rewrite (find_texconv_tool_not_located _ Htool). apply wp_ret. simpl tc_path.
  apply wp_bind, wp_ret.
  apply wp_bind, wp_path_exists. rewrite Hf1, lookup_insert_eq.
  rewrite bool_decide_eq_true_2 by eauto. cbv iota.
  apply wp_bind.
  apply (wp_mono _
    (λ _ w2, files w2 !! (stem +:+ ".dds") = files w !! (stem +:+ ".dds") ∧
             is_Some (images w2 !! image))
    _ (λ _ _, False)); [|done|].
  2: { apply wp_try_except. unfold os_remove.
       destruct (remove_raises host (stem +:+ "_temp.png")).
       - apply wp_raise, wp_ret. split; [|done].
         by rewrite Hf1, lookup_insert_ne.
       - apply wp_modify. simpl. split; [|done].
         by rewrite Hf1, lookup_delete_ne, lookup_insert_ne. }
  intros u w2 [Hd2 Hi2].
  apply wp_bind, wp_path_exists. simpl andb. cbv iota.
  apply wp_try_finally, wp_image_save_ok; [done | done |].
  intros w3 Hf3 _ _ _. apply wp_ret.
  unfold set_filepath_raw, set_file_format, update_image.
  apply wp_bind, wp_modify, wp_modify. simpl. rewrite Hf3.
  split; [done|]. split; [apply lookup_insert_eq|].
  intros Hne. by rewrite lookup_insert_ne.
Qed.

(** C9 (amended).  When the converter cannot be located on disk, saving an
    image leaves a PNG at the requested save path and returns the name of
    that PNG; the conversion is not attempted and the fallback does not
    touch the image's DDS path: the file there, if any, is the one that was
    there before (unless the save path is itself that path). *)
Theorem save_image_as_dds_png_fallback (host : Host) (image save_path fmt : string)
    (use_alpha_flag use_sepalpha : bool) (mipmap_levels : Z) (w : World) :
  let temp_png := fst (splitext save_path) +:+ "_temp.png" in
  let dds_file_path := fst (splitext save_path) +:+ ".dds" in
  is_Some (images w !! image) →
  save_raises host temp_png = false →
  save_raises host save_path = false →
  tool_not_located (set_files <[temp_png := PNG]> w) →
  ∃ w',
    save_image_as_dds host image save_path fmt
      use_alpha_flag use_sepalpha mipmap_levels w
    = Ret (Some (basename save_path)) w' ∧
    files w' !! save_path = Some PNG ∧
    (dds_file_path ≠ save_path →
     files w' !! dds_file_path = files w !! dds_file_path).
Proof.
  intros temp_png dds_file_path Him Htemp Hsave Htool.
  pose proof (save_image_as_dds_fallback_spec host image save_path fmt
                use_alpha_flag use_sepalpha mipmap_levels w
                Him Htemp Hsave Htool) as H.
  unfold wp in H.
  destruct (save_image_as_dds _ _ _ _ _ _ _ w) as [r w'|e w']; [|done].
  destruct H as (-> & Hpng & Hdds). eauto.
Qed.

Lemma save_image_as_dds_png_fallback_witness :
  ∃ w',
    save_image_as_dds working_host "Cube_BaseTexture" "/export/Cube_BaseTexture.png"
      "BC1_UNORM" true false 9 cube_scene_with_image
    = Ret (Some "Cube_BaseTexture.png") w' ∧
    files w' !! "/export/Cube_BaseTexture.png" = Some PNG ∧
    ("/export/Cube_BaseTexture.dds" ≠ "/export/Cube_BaseTexture.png" →
     files w' !! "/export/Cube_BaseTexture.dds"
     = files cube_scene_with_image !! "/export/Cube_BaseTexture.dds").
Proof.
  apply (save_image_as_dds_png_fallback working_host "Cube_BaseTexture"
           "/export/Cube_BaseTexture.png" "BC1_UNORM" true false 9
           cube_scene_with_image).
  - by eexists.
  - reflexivity.
  - reflexivity.
  - split; [by left | discriminate].
Defined.

(** C9, as stated, fails: a DDS file left at the image's DDS path by an
    earlier export is still there after the PNG fallback.  The converter
    cannot be located, the PNG is written and its name returned, and a DDS
    file for the image exists afterwards. *)
Lemma save_image_as_dds_keeps_stale_dds :
  tool_not_located
    (set_files <["/export/Cube_BaseTexture_temp.png" := PNG]> cube_scene_with_stale_dds) ∧
  ∃ w',
    save_image_as_dds working_host "Cube_BaseTexture" "/export/Cube_BaseTexture.png"
      "BC1_UNORM" true false 9 cube_scene_with_stale_dds
    = Ret (Some "Cube_BaseTexture.png") w' ∧
    files w' !! "/export/Cube_BaseTexture.png" = Some PNG ∧
    files w' !! "/export/Cube_BaseTexture.dds" = Some DDS.
Proof.
  split; [split; [by left | discriminate]|].
  eexists. split; [vm_compute; reflexivity|]. split; reflexivity.
Qed.

(** ** Locating the converter *)

Lemma exists_on_disk_true (w : World) (p : string) :
  exists_on_disk w p = true ↔ is_Some (files w !! p).
Proof. unfold exists_on_disk. apply bool_decide_eq_true. Qed.

Lemma find_texconv_tool_override (w : World) :
  alamo_texconv_path w ≠ "" → is_Some (files w !! alamo_texconv_path w) →
  find_texconv_tool w = Some (alamo_texconv_path w).
Proof.
  intros Hne Hex. unfold find_texconv_tool.
  rewrite decide_False by done.
  by rewrite (proj2 (exists_on_disk_true _ _) Hex).
Qed.

Lemma find_texconv_tool_Some (w : World) (p : string) :
  find_texconv_tool w = Some p →
  is_Some (files w !! p) ∧
  (p = alamo_texconv_path w ∧ p ≠ "" ∨
   ∃ a, appdata w = Some a ∧ a ≠ "" ∧ p ∈ addon_paths a).
Proof.
  unfold find_texconv_tool.
  destruct (decide (alamo_texconv_path w = "")) as [Hempty|Hne].
  - destruct (appdata w) as [a|]; [|done].
    destruct (decide (a = "")); [done|].
    intros [Hin Hex]%find_some. split; [by apply exists_on_disk_true|].
    right. exists a. split; [done|]. split; [done|]. by apply list_elem_of_In.
  - destruct (exists_on_disk w (alamo_texconv_path w)) eqn:Hex.
    + intros [= <-]. split; [by apply exists_on_disk_true|]. by left.
    + destruct (appdata w) as [a|]; [|done].
      destruct (decide (a = "")); [done|].
      intros [Hin Hex']%find_some. split; [by apply exists_on_disk_true|].
      right. exists a. split; [done|]. split; [done|]. by apply list_elem_of_In.
Qed.

Lemma find_texconv_tool_None (w : World) :
  find_texconv_tool w = None → tool_not_located w.
Proof.
  intros Hnone. split.
  - destruct (decide (alamo_texconv_path w = "")) as [|Hne]; [by left|]. right.
    destruct (files w !! alamo_texconv_path w) eqn:Hf; [|done].
    rewrite find_texconv_tool_override in Hnone; [done | done | by rewrite Hf].
  - intros a Ha Hne. apply Forall_forall. intros p Hp.
    destruct (files w !! p) eqn:Hf; [|done]. exfalso.
    unfold find_texconv_tool in Hnone. rewrite Ha in Hnone.
    destruct (if decide (alamo_texconv_path w = "") then None
              else if exists_on_disk w (alamo_texconv_path w)
                   then Some (alamo_texconv_path w) else None); [done|].
    destruct (decide (a = "")); [done|].
    assert (exists_on_disk w p = false) as Hfalse
      by (apply (find_none _ _ Hnone p); by apply list_elem_of_In).
    apply exists_on_disk_false in Hfalse. congruence.
Qed.

(** X4.  Whatever path [find_texconv_tool] returns names a file on disk, and
    it is the configured path or one of the two well-known paths under
    APPDATA; a configured path that exists is returned before any well-known
    path is looked at. *)
Theorem find_texconv_tool_sound (w : World) :
  (∀ p, find_texconv_tool w = Some p →
     is_Some (files w !! p) ∧
     (p = alamo_texconv_path w ∧ p ≠ "" ∨
      ∃ a, appdata w = Some a ∧ a ≠ "" ∧ p ∈ addon_paths a)) ∧
  (alamo_texconv_path w ≠ "" → is_Some (files w !! alamo_texconv_path w) →
     find_texconv_tool w = Some (alamo_texconv_path w)).
Proof.
  split; [apply find_texconv_tool_Some | apply find_texconv_tool_override].
Qed.

(** X5.  [find_texconv_tool] returns [None] exactly when the configured path
    is empty or names no file and, if APPDATA is set and not empty, neither
    well-known path names a file. *)
Theorem find_texconv_tool_none_iff (w : World) :
  find_texconv_tool w = None ↔ tool_not_located w.
Proof.
  split; [apply find_texconv_tool_None | apply find_texconv_tool_not_located].
Qed.

(** ** The converter does not raise *)

Lemma try_except_returns {A} (m : M A) (a : A) (w : World) :
  ∃ b w', try_except m (λ _, ret a) w = Ret b w'.
Proof. unfold try_except. destruct (m w); eauto. Qed.

Lemma keeps_convert {B} (f : World → B) host conv inp out fmt a s mip :
  (∀ g w, f (set_files g w) = f w) →
  keeps f (convert host conv inp out fmt a s mip).
Proof.
  intros Hf.
  assert (∀ g, keeps f (modify (set_files g))) as Hmod
    by (intros g; apply keeps_modify; intros w; apply Hf).
  unfold convert, convert_dll, convert_exe, run_converter, relocate_created,
    os_remove, os_rename, path_exists.
  repeat lazymatch goal with
  | |- keeps _ (modify (set_files _)) => apply Hmod
  | |- _ => keeps_step
  end.
Qed.

(** X6.  [Texconv.convert] never raises: whatever the converter or the file
    system does, the call returns a boolean; it changes nothing but files,
    and without a converter path it returns [False] and changes nothing. *)
Theorem convert_never_raises (host : Host) (conv : Texconv)
    (input_path output_path dds_format : string)
    (use_alpha_flag use_sepalpha : bool) (mipmap_levels : Z) (w : World) :
  ∃ ok w',
    convert host conv input_path output_path dds_format
      use_alpha_flag use_sepalpha mipmap_levels w = Ret ok w' ∧
    images w' = images w ∧ objects w' = objects w ∧ materials w' = materials w ∧
    (tc_path conv = None → ok = false ∧ w' = w).
Proof.
  pose proof (keeps_convert images host conv input_path output_path dds_format
                use_alpha_flag use_sepalpha mipmap_levels (λ _ _, eq_refl) w) as Hi.
  pose proof (keeps_convert objects host conv input_path output_path dds_format
                use_alpha_flag use_sepalpha mipmap_levels (λ _ _, eq_refl) w) as Ho.
  pose proof (keeps_convert materials host conv input_path output_path dds_format
                use_alpha_flag use_sepalpha mipmap_levels (λ _ _, eq_refl) w) as Hm.
  unfold wp in Hi, Ho, Hm.
  assert (∃ ok w', convert host conv input_path output_path dds_format
            use_alpha_flag use_sepalpha mipmap_levels w = Ret ok w' ∧
            (tc_path conv = None → ok = false ∧ w' = w)) as (ok & w' & Heq & Hnone).
  { unfold convert. destruct (tc_path conv) as [path|].
    - destruct (tc_is_dll conv && tc_dll conv).
      + destruct (try_except_returns
          (ok <- run_converter (texconv_dll host
                   (["-f"; dds_format; "-y"; "-o"; dirname output_path] ++
                    texconv_flags use_alpha_flag use_sepalpha mipmap_levels ++
                    ["--"; input_path])) input_path (dirname output_path) ;;
           if ok then relocate_created host input_path output_path ;; ret true
           else ret false) false w) as (ok & w' & Heq).
        exists ok, w'. split; [exact Heq | done].
      + destruct (try_except_returns
          (ok <- run_converter (texconv_exe host
                   ([path; "-f"; dds_format; "-y"; "-o"; dirname output_path] ++
                    texconv_flags use_alpha_flag use_sepalpha mipmap_levels ++
                    [input_path])) input_path (dirname output_path) ;;
           if ok then relocate_created host input_path output_path ;; ret true
           else ret false) false w) as (ok & w' & Heq).
        exists ok, w'. split; [exact Heq | done].
    - exists false, w. by split. }
  rewrite Heq in Hi, Ho, Hm. exists ok, w'. auto.
Qed.

(** ** What [save_image_as_dds] returns *)

Lemma save_image_as_dds_on_disk_spec host image save_path fmt a s mip w :
  wp (save_image_as_dds host image save_path fmt a s mip)
     (λ r w',
        r = Some (basename (fst (splitext save_path) +:+ ".dds")) ∧
        is_Some (files w' !! (fst (splitext save_path) +:+ ".dds")) ∨
        r = Some (basename save_path) ∧ files w' !! save_path = Some PNG)
     (λ _ _, True) w.
Proof.
  unfold save_image_as_dds.
  apply wp_bind_any; [|done]. intros im w1. cbv zeta.
  apply wp_image_save_at; [|done]. intros w2 Hw2.
  apply wp_bind, wp_path_exists. rewrite Hw2, lookup_insert_eq.
  rewrite bool_decide_eq_true_2 by eauto. simpl.
  apply wp_bind_any; [|done]. intros conv w3.
  apply wp_bind_any; [|done]. intros success w4.
  apply wp_bind_any; [|done]. intros still_there w5.
  apply wp_bind_any; [|done]. intros u w6.
  apply wp_bind, wp_path_exists.
  destruct (success && bool_decide (is_Some (files w6 !! (fst (splitext save_path) +:+ ".dds"))))
    eqn:Hboth.
  - apply andb_prop in Hboth as [_ Hex%bool_decide_eq_true].
    apply (wp_bind_keeps files); [keeps_tac | | done]. intros u' w7 H7.
    apply wp_ret. left. split; [done|]. by rewrite H7.
  - apply wp_try_finally, wp_image_save_at; [|intros; by apply wp_any].
    intros w7 H7. apply wp_ret.
    unfold set_filepath_raw, set_file_format, update_image.
    apply wp_bind, wp_modify, wp_modify. simpl. right. split; [done|].
    rewrite H7. apply lookup_insert_eq.
Qed.

(** X7.  Whenever [save_image_as_dds] returns, it returns a file name, never
    [None], and the file is on disk: either the name of the .dds file next to
    the save path, which exists, or the name of the save path itself, where
    a PNG has been written. *)
Theorem save_image_as_dds_result_on_disk (host : Host) (image save_path fmt : string)
    (use_alpha_flag use_sepalpha : bool) (mipmap_levels : Z) (w w' : World)
    (r : option string) :
  save_image_as_dds host image save_path fmt
    use_alpha_flag use_sepalpha mipmap_levels w = Ret r w' →
  r = Some (basename (fst (splitext save_path) +:+ ".dds")) ∧
  is_Some (files w' !! (fst (splitext save_path) +:+ ".dds")) ∨
  r = Some (basename save_path) ∧ files w' !! save_path = Some PNG.
Proof.
  intros Hrun.
  pose proof (save_image_as_dds_on_disk_spec host image save_path fmt
                use_alpha_flag use_sepalpha mipmap_levels w) as H.
  unfold wp in H. by rewrite Hrun in H.
Qed.

Lemma save_image_as_dds_result_on_disk_witness :
  ∃ w',
    save_image_as_dds working_host "Cube_BaseTexture" "/export/Cube_BaseTexture.png"
      "BC1_UNORM" true false 9 cube_scene_with_converter
    = Ret (Some "Cube_BaseTexture.dds") w' ∧
    (Some "Cube_BaseTexture.dds" = Some (basename "/export/Cube_BaseTexture.dds") ∧
     is_Some (files w' !! "/export/Cube_BaseTexture.dds") ∨
     Some "Cube_BaseTexture.dds" = Some (basename "/export/Cube_BaseTexture.png") ∧
     files w' !! "/export/Cube_BaseTexture.png" = Some PNG).
Proof.
  eexists. split; [vm_compute; reflexivity|].
  apply (save_image_as_dds_result_on_disk working_host "Cube_BaseTexture"
           "/export/Cube_BaseTexture.png" "BC1_UNORM" true false 9
           cube_scene_with_converter).
  vm_compute. reflexivity.
Defined.

(** ** Files that stay on disk *)

Section Preserves.

Context (I : World → Prop).

Lemma preserves_ret {A} (a : A) : preserves I (ret a).
Proof. by intros w. Qed.

Lemma preserves_raise {A} (e : Exn) : preserves I (raise e : M A).
Proof. by intros w. Qed.

Lemma preserves_modify (g : World → World) :
  (∀ w, I w → I (g w)) → preserves I (modify g).
Proof. intros Hg w. apply Hg. Qed.

Lemma preserves_bind {A C} (m : M A) (k : A → M C) :
  preserves I m → (∀ a, preserves I (k a)) → preserves I (bind m k).
Proof.
  intros Hm Hk w Hw. apply wp_bind. eapply wp_mono; [| |apply (Hm w Hw)]; [|done].
  intros a w' Hw'. by apply Hk.
Qed.

Lemma preserves_try_except {A} (m : M A) (h : Exn → M A) :
  preserves I m → (∀ e, preserves I (h e)) → preserves I (try_except m h).
Proof.
  intros Hm Hh w Hw. apply wp_try_except.
  eapply wp_mono; [| |apply (Hm w Hw)]; [done|].
  intros e w' Hw'. by apply Hh.
Qed.

Lemma preserves_try_finally {A} (m : M A) (fin : M unit) :
  preserves I m → preserves I fin → preserves I (try_finally m fin).
Proof.
  intros Hm Hfin w Hw. apply wp_try_finally.
  eapply wp_mono; [| |apply (Hm w Hw)]; intros ? w' Hw'; by apply Hfin.
Qed.

Lemma preserves_keeps {A B} (f : World → B) (m : M A) :
  (∀ w w', f w' = f w → I w → I w') → keeps f m → preserves I m.
Proof.
  intros Hf Hm w Hw. eapply wp_mono; [| |apply (Hm w)]; simpl; eauto.
Qed.

End Preserves.

Lemma on_disk_files (path : string) (w w' : World) :
  files w' = files w → on_disk path w → on_disk path w'.
Proof. unfold on_disk. by intros ->. Qed.

Lemma on_disk_insert (path p : string) (k : FileKind) (w : World) :
  on_disk path w → on_disk path (set_files <[p := k]> w).
Proof. unfold on_disk. simpl. intros H. apply lookup_insert_is_Some'. by right. Qed.

Lemma on_disk_delete (path p : string) (w : World) :
  path ≠ p → on_disk path w → on_disk path (set_files (delete p) w).
Proof. unfold on_disk. simpl. intros Hne H. by rewrite lookup_delete_ne. Qed.

Lemma preserves_image_save host path image :
  preserves (on_disk path) (image_save host image).
Proof.
  unfold image_save. apply preserves_bind.
  { apply (preserves_keeps _ files); [apply on_disk_files | keeps_tac]. }
  intros im. destruct (save_raises host (filepath_raw im)).
  - apply preserves_raise.
  - apply preserves_modify. intros w. apply on_disk_insert.
Qed.

Lemma preserves_os_remove host path p :
  path ≠ p → preserves (on_disk path) (os_remove host p).
Proof.
  intros Hne. unfold os_remove. destruct (remove_raises host p).
  - apply preserves_raise.
  - apply preserves_modify. intros w. by apply on_disk_delete.
Qed.

Lemma preserves_os_rename path src dst :
  path ≠ src → preserves (on_disk path) (os_rename src dst).
Proof.
  intros Hne. unfold os_rename. apply preserves_modify. intros w.
  unfold on_disk. simpl. destruct (files w !! src); [|done].
  intros H. apply lookup_insert_is_Some'. right. by rewrite lookup_delete_ne.
Qed.

Lemma preserves_relocate_created host path input_path output_path :
  path ≠ output_path → path ≠ fst (splitext input_path) +:+ ".dds" →
  preserves (on_disk path) (relocate_created host input_path output_path).
Proof.
  intros Hout Hcreated. unfold relocate_created. cbv zeta.
  apply preserves_bind.
  { apply (preserves_keeps _ files); [apply on_disk_files | keeps_tac]. }
  intros ex. destruct (ex && _); [|apply preserves_ret].
  apply preserves_bind.
  { apply (preserves_keeps _ files); [apply on_disk_files | keeps_tac]. }
  intros ex_out. apply preserves_bind.
  - destruct ex_out; [by apply preserves_os_remove | apply preserves_ret].
  - intros _. by apply preserves_os_rename.
Qed.

Lemma preserves_run_converter path run input_path output_dir :
  preserves (on_disk path) (run_converter run input_path output_dir).
Proof.
  unfold run_converter. apply preserves_bind; [|intros; apply preserves_ret].
  destruct (snd run); [|apply preserves_ret].
  apply preserves_modify. intros w. apply on_disk_insert.
Qed.

Lemma preserves_convert host conv path input_path output_path fmt a s mip :
  path ≠ output_path → path ≠ fst (splitext input_path) +:+ ".dds" →
  preserves (on_disk path) (convert host conv input_path output_path fmt a s mip).
Proof.
  intros Hout Hcreated. unfold convert.
  destruct (tc_path conv) as [p|]; [|apply preserves_ret].
  destruct (tc_is_dll conv && tc_dll conv); unfold convert_dll, convert_exe; cbv zeta;
    (apply preserves_try_except; [|intros; apply preserves_ret]);
    (apply preserves_bind; [apply preserves_run_converter|]);
    intros [|]; try apply preserves_ret;
    (apply preserves_bind; [by apply preserves_relocate_created|]);
    intros; apply preserves_ret.
Qed.

(** Saving an image removes no file but its own temporary PNG and the DDS
    files it replaces. *)
Lemma preserves_save_image_as_dds host image save_path fmt a s mip path :
  let stem := fst (splitext save_path) in
  path ≠ stem +:+ "_temp.png" → path ≠ stem +:+ ".dds" →
  path ≠ fst (splitext (stem +:+ "_temp.png")) +:+ ".dds" →
  preserves (on_disk path) (save_image_as_dds host image save_path fmt a s mip).
Proof.
  intros stem Htemp Hdds Hcreated. unfold save_image_as_dds. fold stem.
  pose proof (λ A (m : M A) (H : keeps files m),
    preserves_keeps (on_disk path) files m (on_disk_files path) H) as Hkeep.
  apply preserves_bind; [apply Hkeep; keeps_tac|]. intros im. cbv zeta.
  apply preserves_bind; [apply Hkeep; keeps_tac|]. intros _.
  apply preserves_bind; [apply Hkeep; keeps_tac|]. intros _.
  apply preserves_bind; [apply preserves_image_save|]. intros _.
  apply preserves_bind; [apply Hkeep; keeps_tac|]. intros saved.
  destruct (negb saved); [apply preserves_ret|].
  apply preserves_bind; [apply Hkeep; unfold Texconv_init; keeps_tac|]. intros conv.
  apply preserves_bind.
  { destruct (tc_path conv); [|apply preserves_ret].
    apply preserves_bind; [by apply preserves_convert|]. intros ok.
    destruct (negb ok); [apply preserves_ret | apply Hkeep; keeps_tac]. }
  intros success.
  apply preserves_bind; [apply Hkeep; keeps_tac|]. intros still_there.
  apply preserves_bind.
  { destruct still_there; [|apply preserves_ret].
    apply preserves_try_except; [by apply preserves_os_remove|].
    intros; apply preserves_ret. }
  intros _.
  apply preserves_bind; [apply Hkeep; keeps_tac|]. intros created.
  destruct (success && created).
  - apply Hkeep. keeps_tac.
  - apply preserves_try_finally; [|apply Hkeep; keeps_tac].
    apply preserves_bind; [apply Hkeep; keeps_tac|]. intros _.
    apply preserves_bind; [apply Hkeep; keeps_tac|]. intros _.
    apply preserves_bind; [apply preserves_image_save|]. intros _.
    apply preserves_ret.
Qed.

Lemma preserves_bake_pass host obj bake_type image save_path path :
  preserves (on_disk path) (bake_pass host obj bake_type image save_path).
Proof.
  pose proof (λ A (m : M A) (H : keeps files m),
    preserves_keeps (on_disk path) files m (on_disk_files path) H) as Hkeep.
  unfold bake_pass.
  do 7 (apply preserves_bind; [apply Hkeep; unfold ops_object_bake; keeps_tac|]; intros ?).
  apply preserves_bind; [apply Hkeep; unfold ops_object_bake; keeps_tac|].
  intros [r|]; [apply preserves_ret|].
  apply preserves_bind; [apply Hkeep; keeps_tac|]. intros _.
  destruct image as [i|]; [|apply preserves_ret].
  destruct save_path as [p|]; [|apply preserves_ret].
  destruct (decide (p = "")); [apply preserves_ret|].
  apply preserves_bind; [apply Hkeep; keeps_tac|]. intros _.
  apply preserves_bind; [apply Hkeep; keeps_tac|]. intros _.
  apply preserves_bind; [apply preserves_image_save|]. intros _.
  apply preserves_ret.
Qed.

Lemma preserves_bake_channel host req joined base results bake_type image path :
  let param := if bool_decide (bake_type = "NORMAL")
               then "NormalTexture" else "BaseTexture" in
  let stem := fst (splitext (join (export_dir req)
                               [base +:+ "_" +:+ param +:+ ".png"])) in
  path ≠ stem +:+ "_temp.png" → path ≠ stem +:+ ".dds" →
  path ≠ fst (splitext (stem +:+ "_temp.png")) +:+ ".dds" →
  preserves (on_disk path)
    (bake_channel host req joined base results (bake_type, image)).
Proof.
  intros param stem Htemp Hdds Hcreated.
  pose proof (λ A (m : M A) (H : keeps files m),
    preserves_keeps (on_disk path) files m (on_disk_files path) H) as Hkeep.
  unfold bake_channel. cbv zeta. simpl fst. simpl snd. fold param.
  apply preserves_bind; [apply preserves_bake_pass|]. intros _.
  apply preserves_bind.
  { destruct (decide (bake_type = "DIFFUSE")); [|apply preserves_ret].
    apply preserves_bind; [apply Hkeep; keeps_tac|]. intros _.
    apply preserves_bind; [apply Hkeep; keeps_tac|]. intros _.
    apply preserves_bind; [apply Hkeep; keeps_tac|]. intros _.
    apply preserves_bind; [apply preserves_image_save|]. intros _.
    apply Hkeep. keeps_tac. }
  intros flags.
  apply preserves_bind; [by apply preserves_save_image_as_dds|]. intros saved_name.
  apply preserves_ret.
Qed.

Lemma bake_channel_on_disk host req joined base results bake_type image w :
  let param := if bool_decide (bake_type = "NORMAL")
               then "NormalTexture" else "BaseTexture" in
  wp (bake_channel host req joined base results (bake_type, image))
     (λ r w', ∃ name, r = dict_set results param (Some name) ∧
                      texture_on_disk w' (export_dir req) base param name)
     (λ _ _, True) w.
Proof.
  intros param. unfold bake_channel. cbv zeta. simpl fst. simpl snd. fold param.
  apply wp_bind_any; [|done]. intros u w1.
  apply wp_bind_any; [|done]. intros flags w2.
  apply wp_bind.
  eapply wp_mono; [| |apply save_image_as_dds_on_disk_spec]; [|done].
  intros r w3 Hr. apply wp_ret.
  destruct Hr as [[-> Hex]|[-> Hex]]; eexists; (split; [reflexivity|]);
    eexists; (split; [|split; [reflexivity|]]).
  - by right.
  - exact Hex.
  - by left.
  - unfold on_disk. rewrite Hex. by eexists.
Qed.

Lemma run_pipeline_textures host objs req w :
  wp (run_pipeline host objs req)
     (λ r w', match r with
              | None => True
              | Some st =>
                  ∃ base_name base normal,
                    snd st = [("BaseTexture", Some base);
                              ("NormalTexture", Some normal)] ∧
                    texture_on_disk w' (export_dir req) base_name "BaseTexture" base ∧
                    texture_on_disk w' (export_dir req) base_name "NormalTexture" normal
              end)
     (λ _ _, True) w.
Proof.
  unfold run_pipeline. destruct objs as [|first rest]; [done|]. cbv zeta.
  apply wp_bind_any; [|done]. intros jm w1.
  apply wp_bind.
  eapply wp_mono; [| |apply setup_baking_material_images]; [|done].
  intros imgs w2 (d & n & ->).
  apply wp_bind_any; [|done]. intros ob w3.
  set (base_name := if bool_decide (1 < length (first :: rest))%nat
                    then o_name ob +:+ "_Atlas" else o_name ob).
  simpl fold_each. apply wp_bind, wp_bind.
  eapply wp_mono; [| |apply bake_channel_on_disk]; [|done].
  intros r1 w4 (base & -> & pB & HpB & HnB & HdB). apply wp_bind.
  destruct (channel_paths_apart (export_dir req) base_name pB HpB)
    as (Htemp & Hdds & Hcreated).
  eapply wp_mono; [| |apply wp_and;
    [apply bake_channel_on_disk
    |apply (preserves_bake_channel host req (fst jm) base_name _ "NORMAL" n pB
              Htemp Hdds Hcreated w4 HdB)]]; [|done].
  intros r2 w5 [(normal & -> & pN & HpN & HnN & HdN) HdB5]. apply wp_ret.
  apply (wp_bind_keeps files); [keeps_tac | | done]. intros seps w6 H6.
  apply (wp_bind_keeps files); [keeps_tac | | done]. intros mat w7 H7.
  apply (wp_bind_keeps files); [keeps_tac | | done]. intros u1 w8 H8.
  apply (wp_bind_keeps files); [keeps_tac | | done]. intros u2 w9 H9.
  apply wp_ret. simpl. exists base_name, base, normal.
  assert (files w9 = files w5) as Hfiles by congruence.
  split; [done|]. unfold texture_on_disk. cbv zeta.
  split; [exists pB | exists pN]; (split; [done|]; split; [done|]);
    by apply (on_disk_files _ w5).
Qed.

(** C1 (amended).  A failed bake does not abort the request.  Whenever
    [run_pipeline] returns for a non-empty list of objects, the engine's bake
    has been called for DIFFUSE and then for NORMAL, and for BaseTexture and
    for NormalTexture the name of a texture file is recorded that is on disk
    when the pipeline returns -- the PNG at the channel's save path in the
    export directory or the DDS file next to it --, whether or not a bake
    call failed; and whenever it raises, the exception is not the engine's
    bake failure. *)
Theorem run_pipeline_bakes_every_channel (host : Host) (objs : list nat)
    (req : BakeRequest) (w : World) :
  match run_pipeline host objs req w with
  | Ret None _ => objs = []
  | Ret (Some (_, texture_results)) w' =>
      bake_calls w' = bake_calls w ++ ["DIFFUSE"; "NORMAL"] ∧
      ∃ base_name base normal,
        texture_results = [("BaseTexture", Some base); ("NormalTexture", Some normal)] ∧
        texture_on_disk w' (export_dir req) base_name "BaseTexture" base ∧
        texture_on_disk w' (export_dir req) base_name "NormalTexture" normal
  | Raise e _ => e ≠ BakeError
  end.
Proof.
  pose proof (run_pipeline_calls host objs req w) as Hc.
  pose proof (run_pipeline_textures host objs req w) as Ht.
  pose proof (nbe_run_pipeline host objs req w) as He.
  unfold wp in Hc, Ht, He.
  destruct (run_pipeline host objs req w) as [[[seps results]|] w'|e w']; [|done..].
  destruct Hc as [Hcalls _]. by split.
Qed.

(** C1, as stated, fails: with an engine whose bake fails for every channel
    the request is not aborted.  The NORMAL bake is still called after the
    DIFFUSE one failed, a PNG is written for both channels and the pipeline
    returns their names. *)
Lemma run_pipeline_ignores_bake_failure :
  match run_pipeline failing_bake_host [0%nat] small_request cube_scene with
  | Ret (Some (_, texture_results)) w' =>
      bake_calls w' = ["DIFFUSE"; "NORMAL"] ∧
      texture_results = [("BaseTexture", Some "Cube_BaseTexture.png");
                         ("NormalTexture", Some "Cube_NormalTexture.png")] ∧
      files w' !! "/export/Cube_BaseTexture.png" = Some PNG ∧
      files w' !! "/export/Cube_NormalTexture.png" = Some PNG
  | _ => False
  end.
Proof. vm_compute. repeat split; reflexivity. Qed.

(** ** The image's path and format around the saves *)

Lemma redirected_redirected (im : Image) (p1 f1 p2 f2 : string) :
  redirected (redirected im p1 f1) p2 f2 = redirected im p2 f2.
Proof. done. Qed.

Lemma redirected_original (im : Image) :
  redirected im (filepath_raw im) (file_format im) = im.
Proof. by destruct im. Qed.

Lemma wp_image_save_tracked {C} host image path fmt im (k : M C) Q E w :
  images w !! image = Some im →
  (save_raises host path = false →
   ∀ w', files w' = <[path := kind_of_format fmt]> (files w) →
         alamo_texconv_path w' = alamo_texconv_path w →
         appdata w' = appdata w →
         images w' !! image = Some (redirected im path fmt) → wp k Q E w') →
  (save_raises host path = true →
   ∀ w', files w' = files w →
         images w' !! image = Some (redirected im path fmt) →
         E (SaveError path) w') →
  wp (set_filepath_raw image path ;; set_file_format image fmt ;;
      image_save host image ;; k) Q E w.
Proof.
  intros Him Hk HE.
  unfold set_filepath_raw, set_file_format, update_image, image_save.
  apply wp_bind, wp_modify. apply wp_bind, wp_modify.
  apply wp_bind, wp_bind. unfold wp at 1, get_image. simpl.
  rewrite !lookup_alter_eq, Him. simpl.
  destruct (save_raises host path) eqn:Hsave.
  - apply wp_raise. apply HE; [done | done |]. simpl.
    by rewrite !lookup_alter_eq, Him.
  - apply wp_modify. apply Hk; simpl; try done.
    by rewrite !lookup_alter_eq, Him.
Qed.

Lemma save_image_as_dds_restores_spec host image save_path fmt a s mip w im :
  images w !! image = Some im →
  save_raises host (fst (splitext save_path) +:+ "_temp.png") = false →
  tool_not_located (set_files <[fst (splitext save_path) +:+ "_temp.png" := PNG]> w) →
  wp (save_image_as_dds host image save_path fmt a s mip)
     (λ r w', save_raises host save_path = false ∧
              r = Some (basename save_path) ∧ images w' !! image = Some im)
     (λ e w', save_raises host save_path = true ∧
              e = SaveError save_path ∧ images w' !! image = Some im) w.
Proof.
  intros Him Htemp Htool.
  set (stem := fst (splitext save_path)) in *.
  unfold save_image_as_dds.
  unfold wp at 1, bind at 1, get_image at 1. rewrite Him. cbv zeta. fold stem.
  apply (wp_image_save_tracked _ _ _ _ im); [done | | congruence].
  intros _ w1 Hf1 Hp1 Ha1 Hi1.
  change (kind_of_format "PNG") with PNG in Hf1.
  apply wp_bind, wp_path_exists. rewrite Hf1, lookup_insert_eq.
  rewrite bool_decide_eq_true_2 by eauto. simpl negb. cbv iota.
  unfold Texconv_init. apply wp_bind, wp_bind, wp_get_world.
  rewrite (find_texconv_tool_same (set_files <[stem +:+ "_temp.png" := PNG]> w) w1)
    by done.
  rewrite (find_texconv_tool_not_located _ Htool). apply wp_ret. simpl tc_path.
  apply wp_bind, wp_ret.
  apply wp_bind, wp_path_exists. rewrite Hf1, lookup_insert_eq.
  rewrite bool_decide_eq_true_2 by eauto. cbv iota.
  apply wp_bind.
  apply (wp_mono _
    (λ _ w2, images w2 !! image = Some (redirected im (stem +:+ "_temp.png") "PNG"))
    _ (λ _ _, False)); [|done|].
  2: { apply wp_try_except. unfold os_remove.
       destruct (remove_raises host (stem +:+ "_temp.png")).
       - by apply wp_raise, wp_ret.
       - by apply wp_modify. }
  intros u w2 Hi2.
  apply wp_bind, wp_path_exists. simpl andb. cbv iota.
  apply wp_try_finally.
  apply (wp_image_save_tracked _ _ _ _
           (redirected im (stem +:+ "_temp.png") "PNG")); [done | |].
  - intros Hsave w3 _ _ _ Hi3. apply wp_ret.
    unfold set_filepath_raw, set_file_format, update_image.
    apply wp_bind, wp_modify, wp_modify. simpl.
    rewrite !lookup_alter_eq, Hi3. simpl. by destruct im.
  - intros Hsave w3 _ Hi3.
    unfold set_filepath_raw, set_file_format, update_image.
    apply wp_bind, wp_modify, wp_modify. simpl.
    rewrite !lookup_alter_eq, Hi3. simpl. by destruct im.
Qed.

(** X8.  On the PNG fallback the image gets its original path and format
    back whether or not the fallback write succeeds: with the temporary PNG
    written and no converter located, the call returns the PNG's name when
    the host can write the save path and raises the host's error when it
    cannot, and in both cases the image is exactly as it was before. *)
Theorem save_image_as_dds_fallback_restores (host : Host) (image save_path fmt : string)
    (use_alpha_flag use_sepalpha : bool) (mipmap_levels : Z) (w : World) (im : Image) :
  let temp_png := fst (splitext save_path) +:+ "_temp.png" in
  images w !! image = Some im →
  save_raises host temp_png = false →
  tool_not_located (set_files <[temp_png := PNG]> w) →
  ∃ w',
    save_image_as_dds host image save_path fmt
      use_alpha_flag use_sepalpha mipmap_levels w
    = (if save_raises host save_path then Raise (SaveError save_path) w'
       else Ret (Some (basename save_path)) w') ∧
    images w' !! image = Some im.
Proof.
  intros temp_png Him Htemp Htool.
  pose proof (save_image_as_dds_restores_spec host image save_path fmt
                use_alpha_flag use_sepalpha mipmap_levels w im
                Him Htemp Htool) as H.
  unfold wp in H.
  destruct (save_image_as_dds _ _ _ _ _ _ _ w) as [r w'|e w'];
    destruct H as (-> & -> & Hi); eauto.
Qed.

Lemma save_image_as_dds_fallback_restores_witness :
  ∃ w',
    save_image_as_dds locked_target_host "Cube_BaseTexture"
      "/export/Cube_BaseTexture.png" "BC1_UNORM" true false 9 cube_scene_with_image
    = Raise (SaveError "/export/Cube_BaseTexture.png") w' ∧
    images w' !! "Cube_BaseTexture" = Some (new_image "Cube_BaseTexture" 1 1).
Proof.
  apply (save_image_as_dds_fallback_restores locked_target_host "Cube_BaseTexture"
           "/export/Cube_BaseTexture.png" "BC1_UNORM" true false 9
           cube_scene_with_image (new_image "Cube_BaseTexture" 1 1)).
  - reflexivity.
  - reflexivity.
  - split; [by left | discriminate].
Defined.

(** X9.  When the first write, of the temporary PNG, fails, the host's error
    leaves [save_image_as_dds] with the image still redirected: its path is
    the temporary PNG's and its format PNG, not what they were; nothing has
    been written. *)
Theorem save_image_as_dds_temp_failure (host : Host) (image save_path fmt : string)
    (use_alpha_flag use_sepalpha : bool) (mipmap_levels : Z) (w : World) (im : Image) :
  let temp_png := fst (splitext save_path) +:+ "_temp.png" in
  images w !! image = Some im →
  save_raises host temp_png = true →
  ∃ w',
    save_image_as_dds host image save_path fmt
      use_alpha_flag use_sepalpha mipmap_levels w
    = Raise (SaveError temp_png) w' ∧
    images w' !! image = Some (redirected im temp_png "PNG") ∧
    files w' = files w.
Proof.
  intros temp_png Him Htemp.
  assert (wp (save_image_as_dds host image save_path fmt
                use_alpha_flag use_sepalpha mipmap_levels)
             (λ _ _, False)
             (λ e w', e = SaveError temp_png ∧
                      images w' !! image = Some (redirected im temp_png "PNG") ∧
                      files w' = files w) w) as H.
  { unfold save_image_as_dds.
    unfold wp at 1, bind at 1, get_image at 1. rewrite Him. cbv zeta.
    apply (wp_image_save_tracked _ _ _ _ im); [done | | done].
    fold temp_png. congruence. }
  unfold wp in H.
  destruct (save_image_as_dds _ _ _ _ _ _ _ w) as [r w'|e w']; [done|].
  destruct H as (-> & Hi & Hf). eauto.
Qed.

Lemma save_image_as_dds_temp_failure_witness :
  ∃ w',
    save_image_as_dds read_only_host "Cube_BaseTexture"
      "/export/Cube_BaseTexture.png" "BC1_UNORM" true false 9 cube_scene_with_image
    = Raise (SaveError "/export/Cube_BaseTexture_temp.png") w' ∧
    images w' !! "Cube_BaseTexture"
    = Some (redirected (new_image "Cube_BaseTexture" 1 1)
              "/export/Cube_BaseTexture_temp.png" "PNG") ∧
    files w' = files cube_scene_with_image.
Proof.
  apply (save_image_as_dds_temp_failure read_only_host "Cube_BaseTexture"
           "/export/Cube_BaseTexture.png" "BC1_UNORM" true false 9
           cube_scene_with_image (new_image "Cube_BaseTexture" 1 1)).
  - reflexivity.
  - reflexivity.
Defined.

(** ** The render engine across the whole pipeline *)

Lemma keeps_engine_bake_pass host obj bake_type image save_path :
  keeps render_engine (bake_pass host obj bake_type image save_path).
Proof.
  intros w. unfold bake_pass.
  apply (wp_bind_keeps render_engine); [keeps_tac | | auto]. intros _ w1 H1.
  apply (wp_bind_keeps render_engine); [keeps_tac | | congruence]. intros ob w2 H2.
  apply (wp_bind_keeps render_engine); [keeps_tac | | congruence]. intros _ w3 H3.
  apply wp_bind, wp_get_world.
  assert (render_engine w3 = render_engine w) as -> by congruence.
  clear. generalize (render_engine w). intros original_engine.
  apply wp_bind, wp_modify. apply wp_bind, wp_modify.
  apply wp_bind.
  apply (wp_mono _ (λ _ _, True) _ (λ _ _, False)); [| done |].
  2: { destruct (decide (bake_type = "DIFFUSE")); done. }
  intros _ w4 _.
  apply wp_bind, wp_try_except, wp_bind, wp_any.
  - intros _ w5. apply wp_ret. apply wp_bind, wp_modify.
    apply (wp_keeps render_engine _ (λ e, e = original_engine));
      [keeps_tac | reflexivity].
  - intros e w5. apply wp_bind, wp_modify. reflexivity.
Qed.

Lemma keeps_engine_bake_channel host req joined base results bi :
  keeps render_engine (bake_channel host req joined base results bi).
Proof.
  unfold bake_channel. cbv zeta.
  apply keeps_bind; [apply keeps_engine_bake_pass|]. intros _.
  apply keeps_bind; [keeps_tac|]. intros flags.
  apply keeps_bind; [keeps_tac|]. intros saved. apply keeps_ret.
Qed.

Lemma keeps_engine_run_pipeline host objs req :
  keeps render_engine (run_pipeline host objs req).
Proof.
  unfold run_pipeline. destruct objs as [|first rest]; [apply keeps_ret|].
  cbv zeta.
  apply keeps_bind; [keeps_tac|]. intros jm.
  apply keeps_bind; [keeps_tac|]. intros imgs.
  apply keeps_bind; [keeps_tac|]. intros ob.
  apply keeps_bind;
    [apply keeps_fold_each; intros; apply keeps_engine_bake_channel|].
  intros results. keeps_tac.
Qed.

(** X10.  However [run_pipeline] ends -- it returns, or any of its steps
    raises -- the scene's render engine is the one that was set before the
    call, although every bake pass switches it to Cycles. *)
Theorem run_pipeline_keeps_render_engine (host : Host) (objs : list nat)
    (req : BakeRequest) (w : World) :
  match run_pipeline host objs req w with
  | Ret _ w' => render_engine w' = render_engine w
  | Raise _ w' => render_engine w' = render_engine w
  end.
Proof.
  change (wp (run_pipeline host objs req)
            (λ _ w', render_engine w' = render_engine w)
            (λ _ w', render_engine w' = render_engine w) w).
  apply keeps_engine_run_pipeline.
Qed.

(** ** Bake nodes come and go, the other nodes stay *)

Lemma bake_node_name_is_bake (bake_type : string) :
  startswith ("BAKE_" +:+ bake_type) "BAKE_" = true.
Proof. by destruct bake_type. Qed.

Lemma filter_plain_remove_node (ns : list Node) (nm : string) :
  startswith nm "BAKE_" = true →
  filter (λ n, is_bake_node n = false) (remove_node ns nm)
  = filter (λ n, is_bake_node n = false) ns.
Proof.
  intros Hnm. induction ns as [|n ns IH]; [done|]. simpl.
  destruct (decide (node_name n = nm)) as [Heq|Hne].
  - rewrite (filter_cons_False _ n); [done|].
    unfold is_bake_node. rewrite Heq, Hnm. done.
  - rewrite !filter_cons. by rewrite IH.
Qed.

Lemma plain_nodes_add_bake_node (bake_type image : string) (mat : Mat) :
  plain_nodes (add_bake_node bake_type image mat) = plain_nodes mat.
Proof.
  unfold plain_nodes, add_bake_node. cbv zeta.
  change (nodes (set_nodes mat ?ns)) with ns.
  rewrite filter_app, filter_cons_False, filter_nil, app_nil_r.
  - destruct (has_node (nodes mat) ("BAKE_" +:+ bake_type)); [|done].
    apply filter_plain_remove_node, bake_node_name_is_bake.
  - unfold is_bake_node. simpl node_name. by rewrite bake_node_name_is_bake.
Qed.

Lemma filter_plain_idemp (ns : list Node) :
  filter (λ n, is_bake_node n = false) (filter (λ n, is_bake_node n = false) ns)
  = filter (λ n, is_bake_node n = false) ns.
Proof.
  induction ns as [|n ns IH]; [done|]. rewrite filter_cons.
  destruct (decide (is_bake_node n = false)) as [Hn|Hn]; [|done].
  rewrite filter_cons_True by done. by rewrite IH.
Qed.

Lemma filter_plain_all (ns : list Node) :
  Forall (λ n, is_bake_node n = false) ns →
  filter (λ n, is_bake_node n = false) ns = ns.
Proof.
  induction 1 as [|n ns Hn _ IH]; [done|].
  rewrite filter_cons_True by done. by rewrite IH.
Qed.

Lemma same_plain_nodes_refl (mat : Mat) : same_plain_nodes mat mat.
Proof. by repeat split. Qed.

Lemma same_plain_nodes_trans (m1 m2 m3 : Mat) :
  same_plain_nodes m1 m2 → same_plain_nodes m2 m3 → same_plain_nodes m1 m3.
Proof.
  intros (Hn1 & Hs1 & Ht1 & Hu1) (Hn2 & Hs2 & Ht2 & Hu2).
  split; [|split; [congruence|split; [congruence|auto]]].
  intros [Ht2' Hp1]%Hn1. destruct (Hn2 Ht2') as [Ht3 Hp2].
  split; [done | congruence].
Qed.

Lemma same_plain_nodes_use (mat : Mat) :
  same_plain_nodes mat (set_use_nodes mat true).
Proof.
  split; [|done]. intros [ns Hns]. unfold plain_nodes, nodes. simpl.
  rewrite Hns. split; [by eexists | done].
Qed.

Lemma nodes_kept_refl (w : World) : nodes_kept w w.
Proof.
  intros m. destruct (materials w !! m) as [mat|]; [|done].
  exists mat. split; [done | apply same_plain_nodes_refl].
Qed.

Lemma nodes_kept_trans (w1 w2 w3 : World) :
  nodes_kept w1 w2 → nodes_kept w2 w3 → nodes_kept w1 w3.
Proof.
  intros H12 H23 m. specialize (H12 m). specialize (H23 m).
  destruct (materials w1 !! m) as [mat1|].
  - destruct H12 as (mat2 & Hm2 & Hs12). rewrite Hm2 in H23.
    destruct H23 as (mat3 & Hm3 & Hs23). exists mat3. split; [done|].
    by eapply same_plain_nodes_trans.
  - by rewrite H12 in H23.
Qed.

Lemma nodes_kept_same (w w' : World) : materials w' = materials w → nodes_kept w w'.
Proof. intros Hm m. rewrite Hm. apply nodes_kept_refl. Qed.

Lemma nodes_kept_alter (f : Mat → Mat) (m : string) (w : World) :
  (∀ mat, same_plain_nodes mat (f mat)) →
  nodes_kept w (set_materials (alter f m) w).
Proof.
  intros Hf m'. simpl. destruct (decide (m' = m)) as [->|Hne].
  - rewrite lookup_alter_eq. destruct (materials w !! m) as [mat|]; [|done].
    simpl. eauto.
  - rewrite lookup_alter_ne by done.
    destruct (materials w !! m') as [mat|]; [|done].
    exists mat. split; [done | apply same_plain_nodes_refl].
Qed.

(** Where a material that uses nodes keeps doing so. *)
Lemma nodes_kept_use_nodes (m : string) (w1 w2 : World) :
  (∀ mat, materials w1 !! m = Some mat → use_nodes mat = true) →
  nodes_kept w1 w2 →
  ∀ mat, materials w2 !! m = Some mat → use_nodes mat = true.
Proof.
  intros Huse Hkept mat2 Hm2. specialize (Hkept m).
  destruct (materials w1 !! m) as [mat1|] eqn:Hm1; [|congruence].
  destruct Hkept as (mat2' & Hm2' & _ & _ & _ & Hu).
  assert (mat2' = mat2) as -> by congruence. auto.
Qed.

Lemma same_plain_nodes_add (bake_type image : string) (mat : Mat) :
  same_plain_nodes mat (add_bake_node bake_type image mat).
Proof.
  split; [|done]. intros _.
  split; [by eexists | apply plain_nodes_add_bake_node].
Qed.

Lemma same_plain_nodes_clean (mat : Mat) :
  same_plain_nodes mat
    (set_nodes mat (filter (λ n, is_bake_node n = false) (nodes mat))).
Proof.
  split; [|done]. intros _. split; [by eexists | apply filter_plain_idemp].
Qed.

(** The host's new material has a name no material has. *)
Lemma free_name_fresh (taken : gmap string Mat) (nm : string) :
  taken !! free_name taken nm = None.
Proof.
  unfold free_name. destruct (decide (is_Some (taken !! nm))) as [Hin|Hout].
  2: { by apply eq_None_not_Some. }
  destruct (List.find _ _) as [c|] eqn:Hfind.
  { apply find_some in Hfind as [_ Hc]. by apply bool_decide_eq_true in Hc. }
  exfalso.
  set (cands := (λ k : nat, nm +:+ "." +:+ pretty k) <$> seq 1 (S (size taken))) in *.
  assert (NoDup cands) as Hnodup.
  { apply NoDup_fmap_2; [|apply NoDup_seq].
    intros j k H. apply append_inv_head in H. injection H as H.
    by apply (inj pretty). }
  assert (∀ c, c ∈ cands → c ∈ (map_to_list taken).*1) as Hall.
  { intros c Hc.
    pose proof (find_none _ _ Hfind c (proj1 (list_elem_of_In _ _) Hc)) as Hn.
    apply bool_decide_eq_false in Hn.
    destruct (taken !! c) as [mat|] eqn:Hlook; [|done].
    apply list_elem_of_fmap. exists (c, mat). split; [done|].
    by apply elem_of_map_to_list. }
  pose proof (submseteq_length _ _ (NoDup_submseteq _ _ Hnodup Hall)) as Hlen.
  unfold cands in Hlen.
  rewrite length_fmap, length_seq, length_fmap, length_map_to_list in Hlen. lia.
Qed.

(** The loop of [setup_baking_material] over the slots of the object. *)
Lemma setup_nodes_loop (slots : list (option string)) (imgs : list (string * string))
    (w : World) :
  wp (for_each slots (λ slot,
        match slot with
        | None => raise AttributeError
        | Some m =>
            update_mat m (λ mat, set_use_nodes mat true) ;;
            for_each imgs (λ bi, update_mat m (add_bake_node (fst bi) (snd bi)))
        end))
     (λ _ w', (nodes_kept w w' ∧ objects w' = objects w) ∧
              ∀ slot, slot ∈ slots → ∀ m mat, slot = Some m →
                materials w' !! m = Some mat → use_nodes mat = true)
     (λ _ _, True) w.
Proof.
  apply (wp_for_each_rel (λ w1 w2, nodes_kept w1 w2 ∧ objects w2 = objects w1)
           (λ slot w', ∀ m mat, slot = Some m →
              materials w' !! m = Some mat → use_nodes mat = true)).
  - intros w1. split; [apply nodes_kept_refl | done].
  - intros w1 w2 w3 [H12 Ho12] [H23 Ho23].
    split; [by eapply nodes_kept_trans | congruence].
  - intros slot w1 w2 HP [Hkept _] m mat -> Hm.
    eapply (nodes_kept_use_nodes m w1 w2); [|done|done]. intros mat1. by apply HP.
  - intros [m|] w1 _; [|done].
    unfold update_mat at 1. apply wp_bind, wp_modify.
    set (w2 := set_materials (alter (λ mat, set_use_nodes mat true) m) w1).
    assert (nodes_kept w1 w2) as H12
      by (apply nodes_kept_alter; intros mat; apply same_plain_nodes_use).
    assert (∀ mat, materials w2 !! m = Some mat → use_nodes mat = true) as Hu2.
    { intros mat. unfold w2. simpl. rewrite lookup_alter_eq.
      destruct (materials w1 !! m); [|done]. by intros [= <-]. }
    apply (wp_for_each (λ w', (nodes_kept w2 w' ∧ objects w' = objects w1))).
    + split; [apply nodes_kept_refl | done].
    + intros bi w3 _ [H23 Ho3]. unfold update_mat. apply wp_modify. split; [|done].
      eapply nodes_kept_trans; [exact H23|].
      apply nodes_kept_alter. intros mat. apply same_plain_nodes_add.
    + intros w3 [H23 Ho3]. split; [split; [by eapply nodes_kept_trans | done]|].
      intros m' mat [= <-]. by apply (nodes_kept_use_nodes m w2 w3).
Qed.

Lemma setup_baking_material_kept (obj : nat) (resolution : nat * nat) (w : World) :
  wp (setup_baking_material obj resolution)
     (λ _ w',
        (∀ m mat, materials w !! m = Some mat →
           ∃ mat', materials w' !! m = Some mat' ∧ same_plain_nodes mat mat') ∧
        (∀ ob, objects w !! obj = Some ob → o_materials ob ≠ [] →
           objects w' !! obj = Some ob) ∧
        (∀ ob m mat, objects w' !! obj = Some ob → Some m ∈ o_materials ob →
           materials w' !! m = Some mat → use_nodes mat = true))
     (λ _ _, True) w.
Proof.
  unfold setup_baking_material.
  apply wp_bind, wp_get_obj; [|done]. intros ob Hob.
  apply (wp_bind_keeps (λ w, (materials w, objects w))); [keeps_tac | | done].
  intros imgs w1 [= Hm1 Ho1].
  assert (∀ w2 ob2,
    (∀ m mat, materials w !! m = Some mat → materials w2 !! m = Some mat) →
    objects w2 !! obj = Some ob2 →
    (o_materials ob ≠ [] → ob2 = ob) →
    wp (ob' <- get_obj obj ;;
        for_each (o_materials ob') (λ slot,
          match slot with
          | None => raise AttributeError
          | Some m =>
              update_mat m (λ mat, set_use_nodes mat true) ;;
              for_each imgs (λ bi, update_mat m (add_bake_node (fst bi) (snd bi)))
          end) ;;
        ret imgs)
     (λ _ w',
        (∀ m mat, materials w !! m = Some mat →
           ∃ mat', materials w' !! m = Some mat' ∧ same_plain_nodes mat mat') ∧
        (∀ ob, objects w !! obj = Some ob → o_materials ob ≠ [] →
           objects w' !! obj = Some ob) ∧
        (∀ ob m mat, objects w' !! obj = Some ob → Some m ∈ o_materials ob →
           materials w' !! m = Some mat → use_nodes mat = true))
     (λ _ _, True) w2) as Hloop.
  { intros w2 ob2 Hfwd Hob2 Hsame.
    apply wp_bind. unfold wp at 1, get_obj. rewrite Hob2.
    apply wp_bind. eapply wp_mono; [| |apply setup_nodes_loop]; [|done].
    intros u w3 [[Hkept Ho3] Huse]. apply wp_ret. split; [|split].
    - intros m mat Hm. specialize (Hkept m). by rewrite (Hfwd m mat Hm) in Hkept.
    - intros ob0 Hob0 Hne. rewrite Ho3, Hob2. f_equal.
      assert (ob0 = ob) as -> by congruence. auto.
    - intros ob3 m mat Hob3 Hslot Hm. rewrite Ho3, Hob2 in Hob3.
      injection Hob3 as <-. by eapply Huse. }
  destruct (decide (o_materials ob = [])) as [Hempty|Hne].
  - apply wp_bind, wp_bind, wp_get_world. apply wp_bind, wp_modify.
    unfold update_obj. apply wp_modify.
    eapply Hloop.
    + intros m mat Hm. simpl.
      rewrite lookup_insert_ne; [by rewrite Hm1|].
      intros <-. rewrite <- Hm1, free_name_fresh in Hm. done.
    + simpl. rewrite lookup_alter_eq, Ho1, Hob. reflexivity.
    + done.
  - apply wp_bind, wp_ret. apply (Hloop w1 ob); [|by rewrite Ho1|done].
    intros m mat Hm. by rewrite Hm1.
Qed.

Lemma cleanup_bake_nodes_kept (o : nat) (w : World) :
  wp (cleanup_bake_nodes o) (λ _ w', nodes_kept w w') (λ _ _, True) w.
Proof.
  unfold cleanup_bake_nodes.
  apply wp_bind, wp_get_obj; [|done]. intros ob Hob.
  apply (wp_for_each (nodes_kept w)); [apply nodes_kept_refl | | done].
  intros [m|] w1 _ H1; [|by apply wp_ret].
  apply wp_bind, wp_get_mat; [|done]. intros mat Hmat.
  destruct (use_nodes mat); simpl; [|by apply wp_ret].
  unfold update_mat. apply wp_modify.
  eapply nodes_kept_trans; [exact H1|].
  apply nodes_kept_alter. intros mat'. apply same_plain_nodes_clean.
Qed.

Lemma setup_then_cleanup_spec (obj : nat) (resolution : nat * nat) (w : World) :
  wp (setup_then_cleanup obj resolution)
     (λ _ w', ∀ ob m mat, objects w !! obj = Some ob → materials w !! m = Some mat →
        ∃ mat', materials w' !! m = Some mat' ∧
                shader mat' = shader mat ∧ tex_params mat' = tex_params mat ∧
                (Some m ∈ o_materials ob → use_nodes mat' = true) ∧
                (is_Some (node_tree mat) →
                 plain_nodes mat' = plain_nodes mat ∧
                 (Some m ∈ o_materials ob → nodes mat' = plain_nodes mat)))
     (λ _ _, True) w.
Proof.
  unfold setup_then_cleanup.
  apply wp_bind. eapply wp_mono; [| |apply setup_baking_material_kept]; [|done].
  intros imgs w1 (Hfwd & Hobj & Huse).
  eapply wp_mono; [| |apply wp_and;
    [apply cleanup_bake_nodes_spec | apply cleanup_bake_nodes_kept]]; [|done].
  intros u w2 [[[Ho2 Hcl] Hclean] Hkept] ob m mat Hob Hm.
  destruct (Hfwd m mat Hm) as (mat1 & Hm1 & Hn1 & Hs1 & Ht1 & Hu1).
  pose proof (Hkept m) as Hk. rewrite Hm1 in Hk.
  destruct Hk as (mat2 & Hm2 & Hn2 & Hs2 & Ht2 & Hu2).
  exists mat2. split; [done|]. split; [congruence|]. split; [congruence|].
  assert (Some m ∈ o_materials ob → objects w2 !! obj = Some ob ∧ use_nodes mat2 = true)
    as Hslot.
  { intros Hslot.
    assert (o_materials ob ≠ []) as Hne
      by (intros Hnil; rewrite Hnil in Hslot; inversion Hslot).
    pose proof (Hobj ob Hob Hne) as Hob1.
    split; [by rewrite Ho2|]. apply Hu2. by eapply Huse. }
  split; [by intros [_ ?]%Hslot|].
  intros Htree. destruct (Hn1 Htree) as [Htree1 Hp1].
  destruct (Hn2 Htree1) as [_ Hp2].
  split; [congruence|]. intros Hin. destruct (Hslot Hin) as [Hob2 Hon].
  pose proof (Hclean ob m Hob2 Hin mat2 Hm2 Hon) as Hall.
  unfold plain_nodes in *. rewrite <- Hp1, <- Hp2. symmetry. by apply filter_plain_all.
Qed.

(** X11.  Setting up the bake nodes on an object and cleaning up again, as a
    pipeline run does, leaves every material that existed before in place
    with its shader and texture parameters, and a material in a slot of the
    object ends up using nodes.  A material that had a node tree keeps the
    nodes that are not bake nodes, in the same order, and in a slot of the
    object it ends up holding exactly these.  (A material without a node
    tree gets the host's default nodes when it is switched to nodes.) *)
Theorem setup_then_cleanup_keeps_nodes (obj : nat) (resolution : nat * nat)
    (w w' : World) (ob : Obj) (m : string) (mat : Mat) :
  setup_then_cleanup obj resolution w = Ret tt w' →
  objects w !! obj = Some ob →
  materials w !! m = Some mat →
  ∃ mat', materials w' !! m = Some mat' ∧
          shader mat' = shader mat ∧ tex_params mat' = tex_params mat ∧
          (Some m ∈ o_materials ob → use_nodes mat' = true) ∧
          (is_Some (node_tree mat) →
           plain_nodes mat' = plain_nodes mat ∧
           (Some m ∈ o_materials ob → nodes mat' = plain_nodes mat)).
Proof.
  intros Hrun Hob Hm.
  pose proof (setup_then_cleanup_spec obj resolution w) as H.
  unfold wp in H. rewrite Hrun in H. by apply (H ob m mat).
Qed.

Lemma setup_then_cleanup_keeps_nodes_witness :
  ∃ w', setup_then_cleanup 0 (2, 2)%nat used_cube_scene = Ret tt w' ∧
    ∃ mat', materials w' !! "Hull" = Some mat' ∧
            shader mat' = "MeshGloss.fx" ∧ tex_params mat' = [] ∧
            (Some "Hull" ∈ [Some "Hull"; Some "Hull"] → use_nodes mat' = true) ∧
            (is_Some (node_tree used_hull) →
             plain_nodes mat' = plain_nodes used_hull ∧
             (Some "Hull" ∈ [Some "Hull"; Some "Hull"] →
              nodes mat' = plain_nodes used_hull)).
Proof.
  eexists. split; [vm_compute; reflexivity|].
  apply (setup_then_cleanup_keeps_nodes 0 (2, 2)%nat used_cube_scene _
           (with_slots cube [Some "Hull"; Some "Hull"]) "Hull" used_hull).
  - vm_compute. reflexivity.
  - reflexivity.
  - reflexivity.
Defined.

(** ** An object without material slots *)

Lemma setup_baking_material_bare_spec (obj : nat) (resolution : nat * nat)
    (w : World) (ob : Obj) :
  objects w !! obj = Some ob → o_materials ob = [] →
  wp (setup_baking_material obj resolution)
     (λ imgs w',
        imgs = [("DIFFUSE", o_name ob +:+ "_BaseTexture");
                ("NORMAL", o_name ob +:+ "_NormalTexture")] ∧
        objects w' !! obj
        = Some (with_slots ob [Some (free_name (materials w) "BakeTemp")]) ∧
        materials w' !! free_name (materials w) "BakeTemp"
        = Some (temp_material (o_name ob)))
     (λ _ _, False) w.
Proof.
  intros Hob Hempty. unfold setup_baking_material.
  apply wp_bind. unfold wp at 1, get_obj. rewrite Hob.
  simpl fold_each.
  rewrite !wp_bind. apply wp_modify. rewrite !wp_bind. apply wp_modify.
  apply wp_ret. rewrite !wp_bind. apply wp_modify. rewrite !wp_bind.
  apply wp_modify. apply wp_ret, wp_ret.
  rewrite decide_True by done.
  rewrite !wp_bind. apply wp_get_world. rewrite !wp_bind. apply wp_modify.
  unfold update_obj. apply wp_modify.
  apply wp_bind. unfold wp at 1, get_obj. simpl objects.
  rewrite lookup_alter_eq, Hob.
  simpl. rewrite Hempty. simpl.
  unfold update_mat. rewrite !wp_bind. apply wp_modify.
  rewrite !wp_bind. apply wp_modify. rewrite !wp_bind. apply wp_modify.
  apply wp_ret, wp_ret, wp_ret. simpl.
  split; [done|]. split.
  - rewrite lookup_alter_eq, Hob. simpl. unfold with_slots. by rewrite Hempty.
  - rewrite !lookup_alter_eq, lookup_insert_eq. simpl. reflexivity.
Qed.

(** X12.  On an object without material slots [setup_baking_material] does
    not fail: it creates a material under a name no material had, makes it
    the object's only slot, and leaves it using nodes: the nodes the host
    gives a material that starts to use nodes, followed by the two bake
    nodes, for DIFFUSE and NORMAL, each on the image created for it. *)
Theorem setup_baking_material_temp_material (obj : nat) (resolution : nat * nat)
    (w : World) (ob : Obj) :
  objects w !! obj = Some ob → o_materials ob = [] →
  ∃ w' m,
    setup_baking_material obj resolution w
    = Ret [("DIFFUSE", o_name ob +:+ "_BaseTexture");
           ("NORMAL", o_name ob +:+ "_NormalTexture")] w' ∧
    materials w !! m = None ∧
    objects w' !! obj = Some (with_slots ob [Some m]) ∧
    materials w' !! m = Some (temp_material (o_name ob)).
Proof.
  intros Hob Hempty.
  pose proof (setup_baking_material_bare_spec obj resolution w ob Hob Hempty) as H.
  unfold wp in H.
  destruct (setup_baking_material obj resolution w) as [imgs w'|e w']; [|done].
  destruct H as (-> & Hobj & Hmat).
  exists w', (free_name (materials w) "BakeTemp").
  split; [done|]. split; [apply free_name_fresh|]. by split.
Qed.

Lemma setup_baking_material_temp_material_witness :
  ∃ w' m,
    setup_baking_material 0 (2, 2)%nat bare_cube_scene
    = Ret [("DIFFUSE", "Cube_BaseTexture"); ("NORMAL", "Cube_NormalTexture")] w' ∧
    materials bare_cube_scene !! m = None ∧
    objects w' !! 0%nat = Some (with_slots (with_slots cube []) [Some m]) ∧
    materials w' !! m = Some (temp_material "Cube").
Proof.
  apply (setup_baking_material_temp_material 0 (2, 2)%nat bare_cube_scene
           (with_slots cube [])).
  - reflexivity.
  - reflexivity.
Defined.

(** ** The copy that is baked *)

Lemma prepare_object_for_bake_spec (host : Host) (obj : nat) (uv_name : string)
    (resolution : nat) (w : World) (ob : Obj) :
  objects w !! obj = Some ob →
  let new := fresh (dom (objects w)) in
  let post := λ w' : World,
    objects w' = <[new := baking_copy ob (copy_name host w ob) uv_name]> (objects w) ∧
    selected w' = [new] ∧ active_object w' = Some new ∧
    materials w' = materials w ∧ images w' = images w ∧ files w' = files w in
  wp (prepare_object_for_bake host obj uv_name resolution)
     (λ r w', ¬ uv_layers_full ob uv_name ∧ resolution ≠ 0%nat ∧ r = new ∧ post w')
     (λ e w', post w' ∧
        ((uv_layers_full ob uv_name ∧ e = KeyError) ∨
         (¬ uv_layers_full ob uv_name ∧ resolution = 0%nat ∧
          e = ZeroDivisionError))) w.
Proof.
  intros Hob new post. unfold prepare_object_for_bake.
  unfold select_all_deselect. apply wp_bind, wp_modify.
  unfold copy_object. apply wp_bind, wp_bind. unfold wp at 1, get_obj.
  simpl objects. rewrite Hob.
  apply wp_bind, wp_get_world. apply wp_bind, wp_modify. apply wp_ret.
  unfold select_set, set_active, ensure_uv_layer, update_obj.
  apply wp_bind, wp_modify. apply wp_bind, wp_modify.
  apply wp_bind, wp_bind, wp_modify.
  match goal with |- wp _ _ _ ?w1 => set (w' := w1) end.
  assert (post w') as Hpost.
  { unfold post, w', copy_name. simpl. split; [|done]. rewrite alter_insert_eq.
    unfold baking_copy. simpl.
    destruct (decide (uv_name ∈ o_uv_layers ob)) as [Hin|Hout]; [done|].
    destruct (decide (length (o_uv_layers ob) < max_uv_layers)%nat) as [Hlt|Hge].
    - rewrite decide_False; [done|]. unfold uv_layers_full. lia.
    - rewrite decide_True; [done|]. unfold uv_layers_full. split; [done | lia]. }
  apply wp_bind. unfold wp at 1, get_obj.
  destruct Hpost as [Hobjs Hrest]. rewrite Hobjs, lookup_insert_eq.
  assert (post w') as Hpost by (by split). clearbody w'.
  unfold baking_copy at 1 2. simpl o_uv_layers.
  destruct (decide (uv_name ∈ o_uv_layers ob)) as [Hin|Hout].
  - rewrite decide_True by done. apply wp_ret.
    assert (¬ uv_layers_full ob uv_name) as Hroom by (by intros [? _]).
    unfold unwrap_and_pack. destruct (decide (resolution = 0%nat)) as [Hz|Hnz].
    + apply wp_bind, wp_raise. auto.
    + apply wp_bind, wp_ret, wp_ret. done.
  - destruct (decide (uv_layers_full ob uv_name)) as [Hfull|Hroom].
    + rewrite decide_False by done. apply wp_raise. auto.
    + rewrite decide_True by (apply elem_of_app; right; apply list_elem_of_singleton; done).
      apply wp_ret.
      unfold unwrap_and_pack. destruct (decide (resolution = 0%nat)) as [Hz|Hnz].
      * apply wp_bind, wp_raise. auto.
      * apply wp_bind, wp_ret, wp_ret. done.
Qed.

(** X13.  [prepare_object_for_bake] adds one new object to the scene, the
    copy of the source under the name the host gives it, with the bake's UV
    layer added unless the source has it, and makes it the only selected and
    the active object; the source and every other object stay as they are.
    When the source has eight UV layers and none of them is the bake's, no
    layer is added and the lookup of the bake's layer raises; otherwise,
    with resolution 0, the division for the packing margin raises.  In both
    cases the copy made before is left in the scene. *)
Theorem prepare_object_for_bake_copy (host : Host) (obj : nat) (uv_name : string)
    (resolution : nat) (w : World) (ob : Obj) :
  objects w !! obj = Some ob →
  ∃ new w',
    prepare_object_for_bake host obj uv_name resolution w
    = (if decide (uv_layers_full ob uv_name) then Raise KeyError w'
       else if decide (resolution = 0%nat) then Raise ZeroDivisionError w'
       else Ret new w') ∧
    objects w !! new = None ∧
    objects w' = <[new := baking_copy ob (copy_name host w ob) uv_name]> (objects w) ∧
    selected w' = [new] ∧ active_object w' = Some new.
Proof.
  intros Hob.
  pose proof (prepare_object_for_bake_spec host obj uv_name resolution w ob Hob) as H.
  cbv zeta in H. unfold wp in H.
  exists (fresh (dom (objects w))).
  destruct (prepare_object_for_bake host obj uv_name resolution w) as [r w'|e w'];
    exists w'.
  - destruct H as (Hroom & Hres & -> & Hobj & Hsel & Hact & _).
    rewrite decide_False by done. rewrite decide_False by done.
    split; [done|]. split; [apply not_elem_of_dom, is_fresh | done].
  - destruct H as [(Hobj & Hsel & Hact & _) [[Hfull ->]|(Hroom & Hres & ->)]].
    + rewrite decide_True by done.
      split; [done|]. split; [apply not_elem_of_dom, is_fresh | done].
    + rewrite decide_False by done. rewrite decide_True by done.
      split; [done|]. split; [apply not_elem_of_dom, is_fresh | done].
Qed.

Lemma prepare_object_for_bake_copy_witness :
  ∃ new w',
    prepare_object_for_bake working_host 0 "ALAMO_BAKE" 0 cube_scene
    = (if decide (uv_layers_full cube "ALAMO_BAKE") then Raise KeyError w'
       else if decide (0 = 0)%nat then Raise ZeroDivisionError w'
       else Ret new w') ∧
    objects cube_scene !! new = None ∧
    objects w'
    = <[new := baking_copy cube (copy_name working_host cube_scene cube) "ALAMO_BAKE"]>
        (objects cube_scene) ∧
    selected w' = [new] ∧ active_object w' = Some new.
Proof.
  apply (prepare_object_for_bake_copy working_host 0 "ALAMO_BAKE" 0 cube_scene cube).
  reflexivity.
Defined.

(** ** The UV layers of the baked object in single-object mode *)

Lemma keeps_uv_alter (o o' : nat) (g : Obj → Obj) :
  (∀ ob, o_uv_layers (g ob) = o_uv_layers ob) →
  keeps (uv_layers_of o) (modify (set_objects (alter g o'))).
Proof.
  intros Hg. apply keeps_modify. intros w. unfold uv_layers_of. simpl.
  destruct (decide (o = o')) as [->|Hne].
  - rewrite lookup_alter_eq. destruct (objects w !! o'); simpl; [|done].
    by rewrite Hg.
  - by rewrite lookup_alter_ne.
Qed.

Ltac keeps_uv_step :=
  lazymatch goal with
  | |- keeps _ (modify (set_objects (alter _ _))) =>
      apply keeps_uv_alter; intros ?; reflexivity
  | |- _ => keeps_step
  end.

Lemma keeps_uv_setup_baking_material o obj resolution :
  keeps (uv_layers_of o) (setup_baking_material obj resolution).
Proof. repeat keeps_uv_step. Qed.

Lemma keeps_uv_bake_channel o host req joined base results bi :
  keeps (uv_layers_of o) (bake_channel host req joined base results bi).
Proof. unfold bake_channel, bake_pass, ops_object_bake. repeat keeps_uv_step. Qed.

Lemma keeps_uv_create_baked_material_shared o objs results shader_name :
  keeps (uv_layers_of o) (create_baked_material_shared objs results shader_name).
Proof. repeat keeps_uv_step. Qed.

Lemma keeps_uv_cleanup_bake_nodes o obj :
  keeps (uv_layers_of o) (cleanup_bake_nodes obj).
Proof. repeat keeps_uv_step. Qed.

Lemma filter_bake_uv (ob : Obj) (nm : string) :
  filter (λ u, u = "ALAMO_BAKE") (o_uv_layers (baking_copy ob nm "ALAMO_BAKE_ATLAS"))
  = filter (λ u, u = "ALAMO_BAKE") (o_uv_layers ob).
Proof.
  unfold baking_copy. simpl.
  destruct (decide ("ALAMO_BAKE_ATLAS" ∈ o_uv_layers ob)); [done|].
  destruct (decide (uv_layers_full ob "ALAMO_BAKE_ATLAS")); [done|].
  rewrite filter_app. rewrite (filter_cons_False _ "ALAMO_BAKE_ATLAS") by done.
  by rewrite filter_nil, app_nil_r.
Qed.

Lemma run_pipeline_single_uv_spec host obj req w ob :
  objects w !! obj = Some ob →
  wp (run_pipeline host [obj] req)
     (λ r w', ∃ results,
        r = Some ([fresh (dom (objects w))], results) ∧
        uv_layers_of (fresh (dom (objects w))) w'
        = Some (filter (λ u, u = "ALAMO_BAKE") (o_uv_layers ob)))
     (λ _ _, True) w.
Proof.
  intros Hob. unfold run_pipeline. cbv zeta.
  set (new := fresh (dom (objects w))).
  unfold prepare_objects_for_bake.
  apply wp_bind, wp_bind.
  eapply wp_mono; [| |apply (prepare_object_for_bake_spec _ _ _ _ _ ob Hob)]; [|done].
  cbv zeta. fold new. intros r w1 (_ & _ & -> & Hobj1 & _). apply wp_ret.
  simpl fst. simpl snd.
  set (nm := copy_name host w ob) in *.
  assert (uv_layers_of new w1
          = Some (o_uv_layers (baking_copy ob nm "ALAMO_BAKE_ATLAS")))
    as Huv1 by (unfold uv_layers_of; by rewrite Hobj1, lookup_insert_eq).
  apply (wp_bind_keeps (uv_layers_of new));
    [apply keeps_uv_setup_baking_material | | done]. intros imgs w2 H2.
  apply (wp_bind_keeps (uv_layers_of new)); [keeps_tac | | done]. intros ob0 w3 H3.
  apply (wp_bind_keeps (uv_layers_of new));
    [apply keeps_fold_each; intros; apply keeps_uv_bake_channel | | done].
  intros results w4 H4.
  rewrite bool_decide_eq_false_2 by (simpl; lia).
  unfold separate_baked_meshes, remove_old_uv_maps, update_obj.
  apply wp_bind, wp_bind, wp_modify, wp_ret.
  set (w5 := set_objects _ w4).
  assert (uv_layers_of new w5
          = Some (filter (λ u, u = "ALAMO_BAKE") (o_uv_layers ob))) as H5.
  { unfold uv_layers_of, w5. simpl. rewrite lookup_alter_eq.
    assert (uv_layers_of new w4
            = Some (o_uv_layers (baking_copy ob nm "ALAMO_BAKE_ATLAS"))) as Hw4
      by congruence.
    unfold uv_layers_of in Hw4.
    destruct (objects w4 !! new) as [ob4|]; [|done].
    injection Hw4 as Hw4. simpl. rewrite Hw4.
    f_equal. apply (filter_bake_uv ob nm). }
  apply (wp_bind_keeps (uv_layers_of new));
    [apply keeps_uv_create_baked_material_shared | | done]. intros mat w6 H6.
  apply (wp_bind_keeps (uv_layers_of new));
    [apply keeps_for_each; intros; apply keeps_uv_cleanup_bake_nodes | | done].
  intros u7 w7 H7.
  apply (wp_bind_keeps (uv_layers_of new));
    [apply keeps_for_each; intros; apply keeps_uv_cleanup_bake_nodes | | done].
  intros u8 w8 H8. apply wp_ret. exists results. split; [done|]. congruence.
Qed.

(** X14.  In single-object mode the pipeline prepares the copy with the UV
    layer ALAMO_BAKE_ATLAS but afterwards keeps only layers named ALAMO_BAKE:
    whenever [run_pipeline] returns for one object, it returns one new
    object, whose UV layers are the source's layers named ALAMO_BAKE and no
    other; the layer the bake was made for is gone. *)
Theorem run_pipeline_single_uv_layers (host : Host) (obj : nat) (req : BakeRequest)
    (w w' : World) (ob : Obj) (r : option (list nat * list (string * option string))) :
  objects w !! obj = Some ob →
  run_pipeline host [obj] req w = Ret r w' →
  ∃ new baked results,
    r = Some ([new], results) ∧
    objects w !! new = None ∧
    objects w' !! new = Some baked ∧
    o_uv_layers baked = filter (λ u, u = "ALAMO_BAKE") (o_uv_layers ob) ∧
    "ALAMO_BAKE_ATLAS" ∉ o_uv_layers baked.
Proof.
  intros Hob Hrun.
  pose proof (run_pipeline_single_uv_spec host obj req w ob Hob) as H.
  unfold wp in H. rewrite Hrun in H. destruct H as (results & -> & Huv).
  unfold uv_layers_of in Huv.
  destruct (objects w' !! fresh (dom (objects w))) as [baked|] eqn:Hbaked; [|done].
  injection Huv as Huv.
  exists (fresh (dom (objects w))), baked, results.
  split; [done|]. split; [apply not_elem_of_dom, is_fresh|]. split; [done|].
  split; [done|]. rewrite Huv. by intros [[=] _]%list_elem_of_filter.
Qed.

Lemma run_pipeline_single_uv_layers_witness :
  ∃ w' new baked results,
    run_pipeline working_host [0%nat] small_request cube_scene
    = Ret (Some ([new], results)) w' ∧
    objects cube_scene !! new = None ∧
    objects w' !! new = Some baked ∧
    o_uv_layers baked = filter (λ u, u = "ALAMO_BAKE") (o_uv_layers cube) ∧
    "ALAMO_BAKE_ATLAS" ∉ o_uv_layers baked.
Proof.
  assert (∃ r w', run_pipeline working_host [0%nat] small_request cube_scene
                  = Ret r w') as (r & w' & Hrun)
    by (eexists _, _; vm_compute; reflexivity).
  destruct (run_pipeline_single_uv_layers working_host 0 small_request
              cube_scene w' cube r eq_refl Hrun)
    as (new & baked & results & Hr & H).
  exists w', new, baked, results. split; [by rewrite <- Hr | exact H].
Defined.

End PipelineFacts.

(* ===================================================================== *)
(** * Matching separated components to their sources *)
(* ===================================================================== *)

Section MatchFacts.
Import Bake Logic Scenarios.
Local Open Scope pipeline_scope.

Lemma wp_get_obj_some (o : nat) (ob : Obj) Q E w :
  objects w !! o = Some ob → Q ob w → wp (get_obj o) Q E w.
Proof. intros Hob HQ. unfold wp, get_obj. by rewrite Hob. Qed.

Lemma find_first {A} (f : A → bool) (l : list A) (k : nat) (x : A) :
  l !! k = Some x → f x = true →
  (∀ j y, j < k → l !! j = Some y → f y = false) →
  List.find f l = Some x.
Proof.
  induction l as [|a l IH] in k |- *; intros Hk Hx Hbefore; [done|].
  destruct k as [|k]; simpl in *.
  - injection Hk as ->. by rewrite Hx.
  - rewrite (Hbefore 0 a) by (done || lia).
    apply (IH k); [done | done |]. intros j y Hj Hy.
    apply (Hbefore (S j) y); [lia | done].
Qed.

Lemma within_tolerance_spec (meta : Meta) (count : nat) :
  within_tolerance meta count = true ↔
  (Z.abs (Z.of_nat (vertex_count meta) - Z.of_nat count) < 5)%Z.
Proof. unfold within_tolerance. apply bool_decide_eq_true. Qed.

Lemma find_Some_first {A} (f : A → bool) (l : list A) (x : A) :
  List.find f l = Some x ↔
  ∃ k, l !! k = Some x ∧ f x = true ∧ ∀ j y, (j < k)%nat → l !! j = Some y → f y = false.
Proof.
  split.
  - induction l as [|a l IH]; [done|]. simpl.
    destruct (f a) eqn:Ha.
    + intros [= ->]. exists 0%nat. split; [done|]. split; [done|]. intros; lia.
    + intros (k & Hk & Hx & Hbefore)%IH. exists (S k).
      split; [done|]. split; [done|].
      intros [|j] y Hj Hy; simpl in Hy; [by injection Hy as <-|].
      apply (Hbefore j); [lia|done].
  - intros (k & Hk & Hx & Hbefore). by eapply find_first.
Qed.

Lemma find_None_all {A} (f : A → bool) (l : list A) :
  List.find f l = None ↔ Forall (λ x, f x = false) l.
Proof.
  split; [|apply find_all_false].
  induction l as [|a l IH]; [constructor|]. simpl.
  destruct (f a) eqn:Ha; [done|]. intros H. constructor; auto.
Qed.

Lemma match_meta_Some (metadata : list Meta) (count : nat) (meta : Meta) :
  match_meta metadata count = Some meta ↔
  ∃ k, metadata !! k = Some meta ∧
       (Z.abs (Z.of_nat (vertex_count meta) - Z.of_nat count) < 5)%Z ∧
       ∀ j earlier, (j < k)%nat → metadata !! j = Some earlier →
         (5 ≤ Z.abs (Z.of_nat (vertex_count earlier) - Z.of_nat count))%Z.
Proof.
  unfold match_meta. rewrite find_Some_first. split.
  - intros (k & Hk & Hin & Hbefore). exists k. split; [done|].
    split; [by apply within_tolerance_spec|].
    intros j y Hj Hy. specialize (Hbefore j y Hj Hy).
    apply not_true_iff_false in Hbefore. rewrite within_tolerance_spec in Hbefore.
    lia.
  - intros (k & Hk & Hin & Hbefore). exists k. split; [done|].
    split; [by apply within_tolerance_spec|].
    intros j y Hj Hy. specialize (Hbefore j y Hj Hy).
    apply not_true_iff_false. rewrite within_tolerance_spec. lia.
Qed.

Lemma match_meta_None (metadata : list Meta) (count : nat) :
  match_meta metadata count = None ↔
  Forall (λ meta,
    (5 ≤ Z.abs (Z.of_nat (vertex_count meta) - Z.of_nat count))%Z) metadata.
Proof.
  unfold match_meta. rewrite find_None_all. apply Forall_iff. intros meta.
  rewrite <- not_true_iff_false, within_tolerance_spec. lia.
Qed.

(** X2.  The name lookup of a separated component: it is matched to the
    first metadata entry whose recorded vertex count differs from the
    component's by fewer than 5, and it is left unmatched (it keeps its name)
    exactly when every recorded count is at least 5 away. *)
Theorem match_meta_first_within_tolerance (metadata : list Meta) (count : nat) :
  (∀ meta, match_meta metadata count = Some meta ↔
     ∃ k, metadata !! k = Some meta ∧
          (Z.abs (Z.of_nat (vertex_count meta) - Z.of_nat count) < 5)%Z ∧
          ∀ j earlier, (j < k)%nat → metadata !! j = Some earlier →
            (5 ≤ Z.abs (Z.of_nat (vertex_count earlier) - Z.of_nat count))%Z) ∧
  (match_meta metadata count = None ↔
     Forall (λ meta,
       (5 ≤ Z.abs (Z.of_nat (vertex_count meta) - Z.of_nat count))%Z) metadata).
Proof.
  split; [intros meta; apply match_meta_Some | apply match_meta_None].
Qed.

(** X3.  The heuristic's blind spot: when a source's recorded vertex count is
    within the tolerance of the count of a source recorded before it, a
    component with exactly its vertex count is not given its name but the
    name of that earlier source or of one recorded even earlier. *)
Theorem match_meta_shadowed (metadata : list Meta) (i j : nat) (a b : Meta) :
  (i < j)%nat → metadata !! i = Some a → metadata !! j = Some b →
  (Z.abs (Z.of_nat (vertex_count a) - Z.of_nat (vertex_count b)) < 5)%Z →
  ∃ k meta, (k ≤ i)%nat ∧ metadata !! k = Some meta ∧
            match_meta metadata (vertex_count b) = Some meta.
Proof.
  intros Hij Ha Hb Hclose.
  destruct (match_meta metadata (vertex_count b)) as [meta|] eqn:Hm.
  - apply match_meta_Some in Hm as (k & Hk & Hin & Hbefore).
    exists k, meta. split; [|done].
    destruct (decide (k ≤ i)%nat); [done|].
    specialize (Hbefore i a ltac:(lia) Ha). lia.
  - apply match_meta_None in Hm.
    rewrite Forall_lookup in Hm. specialize (Hm i a Ha). simpl in Hm. lia.
Qed.

Lemma match_meta_shadowed_witness :
  ∃ k meta, (k ≤ 0)%nat ∧ close_metadata !! k = Some meta ∧
            match_meta close_metadata 102 = Some meta.
Proof.
  apply (match_meta_shadowed close_metadata 0 1
           {| original_name := "Hull"; duplicate := 3; vertex_count := 100 |}
           {| original_name := "Turret"; duplicate := 4; vertex_count := 102 |}).
  - lia.
  - reflexivity.
  - reflexivity.
  - simpl. lia.
Defined.

End MatchFacts.

(* ===================================================================== *)
(** * The atlas round trip *)
(* ===================================================================== *)

Section AtlasFacts.
Import Bake Logic Scenarios.
Local Open Scope pipeline_scope.
















End AtlasFacts.

(* ===================================================================== *)
(** * More on the alpha channel *)
(* ===================================================================== *)

Section AlphaModes.
Import Alpha Scenarios.
Local Open Scope nat_scope.
Local Open Scope Q_scope.

Lemma py_max3_same (g : Q) : py_max3 g g g = g.
Proof.
  unfold py_max3. destruct (Qlt_le_dec g g); by destruct (Qlt_le_dec g g).
Qed.

Lemma py_min3_same (g : Q) : py_min3 g g g = g.
Proof.
  unfold py_min3. destruct (Qlt_le_dec g g); by destruct (Qlt_le_dec g g).
Qed.

Lemma mask_gray_pixel (g : Q) : mask (code_saturation g g g) = 0.0.
Proof.
  unfold code_saturation. rewrite py_max3_same, py_min3_same. unfold mask.
  destruct (Qlt_le_dec 0 g) as [Hpos|Hneg].
  - assert ((g - g) / g == 0) as Hzero.
    { field. lra. }
    destruct (Qlt_le_dec 0.1 ((g - g) / g)) as [Hlt|Hle]; [|done].
    rewrite Hzero in Hlt. lra.
  - destruct (Qlt_le_dec 0.1 0); [lra | done].
Qed.

Lemma rd_lookup (buf : list Q) (i : nat) (v : Q) : buf !! i = Some v → rd buf i = v.
Proof. unfold rd. by intros ->. Qed.

(** X15.  [EXTRACT_SATURATION] is not to be applied twice: the first pass
    makes every pixel grey, so a second pass over its result finds no
    saturation anywhere and sets the alpha of every pixel to 0.0, whatever
    mask the first pass had produced. *)
Theorem extract_saturation_twice_clears_mask (image : Image) (v1 v2 : Z) :
  length (pixels image) = (height image * width image * 4)%nat →
  ∃ image1 image2,
    process_alpha_channel image "EXTRACT_SATURATION" v1 = Some image1 ∧
    process_alpha_channel image1 "EXTRACT_SATURATION" v2 = Some image2 ∧
    ∀ y x, (y < height image)%nat → (x < width image)%nat →
      pixels image2 !! chan (width image) y x 3 = Some 0.0.
Proof.
  intros Hlen.
  rewrite (process_saturation_eq image v1 Hlen).
  destruct (saturation_loop (height image) (width image) (pixels image) Hlen)
    as [Hl1 Hpx1].
  set (buf1 := for_range (height image) (λ y,
     for_range (width image) (λ x, saturation_body (width image) y x))
     (pixels image)) in *.
  assert (length (pixels (set_pixels image buf1))
          = (height (set_pixels image buf1) * width (set_pixels image buf1) * 4)%nat)
    as Hlen1 by (simpl; congruence).
  eexists _, _. split; [reflexivity|].
  rewrite (process_saturation_eq _ v2 Hlen1). split; [reflexivity|].
  intros y x Hy Hx. simpl.
  destruct (saturation_loop (height image) (width image) buf1) as [_ Hpx2];
    [congruence|].
  rewrite Hpx2 by (done || lia). f_equal.
  rewrite (rd_lookup _ _ _ (Hpx1 y x 0%nat Hy Hx ltac:(lia))).
  rewrite (rd_lookup _ _ _ (Hpx1 y x 1%nat Hy Hx ltac:(lia))).
  rewrite (rd_lookup _ _ _ (Hpx1 y x 2%nat Hy Hx ltac:(lia))).
  simpl saturation_out. apply mask_gray_pixel.
Qed.

Lemma extract_saturation_twice_clears_mask_witness :
  ∃ image1 image2,
    process_alpha_channel two_pixels "EXTRACT_SATURATION" 255 = Some image1 ∧
    process_alpha_channel image1 "EXTRACT_SATURATION" 255 = Some image2 ∧
    pixels image1 !! 7%nat = Some 1.0 ∧ pixels image2 !! 7%nat = Some 0.0.
Proof.
  destruct (extract_saturation_twice_clears_mask two_pixels 255 255 eq_refl)
    as (image1 & image2 & H1 & H2 & Hpx).
  exists image1, image2. split; [exact H1|]. split; [exact H2|]. split.
  - vm_compute in H1. injection H1 as <-. reflexivity.
  - apply (Hpx 0%nat 1%nat); simpl; lia.
Defined.

(** X16.  [process_alpha_channel] raises exactly when the mode is
    [EXTRACT_SATURATION] or [CONSTANT] and the pixel buffer does not hold
    height * width * 4 numbers; in any other mode it returns the image as it
    is, whatever its buffer; and whenever it returns, only pixel values can
    differ: size, name, path, format and buffer length are kept. *)
Theorem process_alpha_channel_modes (image : Image) (alpha_mode : string)
    (alpha_value : Z) :
  (process_alpha_channel image alpha_mode alpha_value = None ↔
     (alpha_mode = "EXTRACT_SATURATION" ∨ alpha_mode = "CONSTANT") ∧
     length (pixels image) ≠ (height image * width image * 4)%nat) ∧
  (alpha_mode ≠ "EXTRACT_SATURATION" → alpha_mode ≠ "CONSTANT" →
     process_alpha_channel image alpha_mode alpha_value = Some image) ∧
  (∀ image', process_alpha_channel image alpha_mode alpha_value = Some image' →
     img_name image' = img_name image ∧ width image' = width image ∧
     height image' = height image ∧ filepath_raw image' = filepath_raw image ∧
     file_format image' = file_format image ∧
     length (pixels image') = length (pixels image)).
Proof.
  destruct (decide (length (pixels image)
                    = (height image * width image * 4)%nat)) as [Hlen|Hlen].
  - split; [|split].
    + split; [|by intros [_ ?]].
      destruct (decide (alpha_mode = "EXTRACT_SATURATION")) as [->|Hes].
      { by rewrite (process_saturation_eq image alpha_value Hlen). }
      destruct (decide (alpha_mode = "CONSTANT")) as [->|Hc].
      { by rewrite (process_constant_eq image alpha_value Hlen). }
      unfold process_alpha_channel. by rewrite !decide_False by done.
    + intros Hes Hc. unfold process_alpha_channel. by rewrite !decide_False by done.
    + intros image'.
      destruct (decide (alpha_mode = "EXTRACT_SATURATION")) as [->|Hes].
      { rewrite (process_saturation_eq image alpha_value Hlen). intros [= <-].
        simpl. repeat split.
        apply (saturation_loop (height image) (width image) (pixels image) Hlen). }
      destruct (decide (alpha_mode = "CONSTANT")) as [->|Hc].
      { rewrite (process_constant_eq image alpha_value Hlen). intros [= <-].
        simpl. repeat split.
        apply (constant_loop _ (height image) (width image) (pixels image) Hlen). }
      unfold process_alpha_channel. rewrite !decide_False by done.
      by intros [= <-].
  - assert (reshape image = None) as Hre
      by (unfold reshape; by rewrite decide_False).
    unfold process_alpha_channel. rewrite Hre.
    destruct (decide (alpha_mode = "EXTRACT_SATURATION")) as [->|Hes].
    { simpl. split; [split; [auto | done]|]. split; [done | by intros ?]. }
    destruct (decide (alpha_mode = "CONSTANT")) as [->|Hc].
    { simpl. split; [split; [auto | done]|]. split; [done | by intros ?]. }
    split; [split; [done | by intros [[?|?] _]]|].
    split; [done | by intros ? [= <-]].
Qed.

Lemma gray_in_range (r g b : Q) :
  0 <= r <= 1 → 0 <= g <= 1 → 0 <= b <= 1 → 0 <= gray r g b <= 1.
Proof. unfold gray. intros. lra. Qed.

Lemma mask_in_range (s : Q) : 0 <= mask s <= 1.
Proof. unfold mask. destruct (Qlt_le_dec 0.1 s); lra. Qed.

(** X17.  [EXTRACT_SATURATION] keeps pixel values in range: when the three
    colour channels of a pixel are within [0, 1], so are all four channels
    of that pixel afterwards (the grey weights add up to 1, the alpha is 0
    or 1). *)
Theorem extract_saturation_in_range (image : Image) (alpha_value : Z) (y x : nat) :
  length (pixels image) = (height image * width image * 4)%nat →
  (y < height image)%nat → (x < width image)%nat →
  (∀ c, (c < 3)%nat → 0 <= rd (pixels image) (chan (width image) y x c) <= 1) →
  ∃ image',
    process_alpha_channel image "EXTRACT_SATURATION" alpha_value = Some image' ∧
    ∀ c, (c < 4)%nat →
      ∃ v, pixels image' !! chan (width image) y x c = Some v ∧ 0 <= v <= 1.
Proof.
  intros Hlen Hy Hx Hin.
  rewrite (process_saturation_eq image alpha_value Hlen).
  destruct (saturation_loop (height image) (width image) (pixels image) Hlen)
    as [_ Hpx].
  eexists. split; [reflexivity|]. intros c Hc. simpl.
  rewrite Hpx by done. eexists. split; [reflexivity|].
  pose proof (Hin 0%nat ltac:(lia)). pose proof (Hin 1%nat ltac:(lia)).
  pose proof (Hin 2%nat ltac:(lia)).
  destruct c as [|[|[|[|c]]]]; [by apply gray_in_range..|apply mask_in_range|lia].
Qed.

Lemma extract_saturation_in_range_witness :
  ∃ image',
    process_alpha_channel two_pixels "EXTRACT_SATURATION" 255 = Some image' ∧
    ∀ c, (c < 4)%nat →
      ∃ v, pixels image' !! chan 2 0 1 c = Some v ∧ 0 <= v <= 1.
Proof.
  apply (extract_saturation_in_range two_pixels 255 0 1).
  - reflexivity.
  - simpl. lia.
  - simpl. lia.
  - intros c Hc. destruct c as [|[|[|c]]]; [vm_compute; split; discriminate..|lia].
Defined.

End AlphaModes.

(* ===================================================================== *)
(** * The baked material *)
(* ===================================================================== *)

Section MaterialFacts.
Import OsPath Bake Logic Scenarios.
Local Open Scope pipeline_scope.

Lemma dict_get_set_eq {V} (d : list (string * V)) (k : string) (v : V) :
  dict_get (dict_set d k v) k = Some v.
Proof.
  unfold dict_get. induction d as [|[k' v'] d IH]; simpl.
  - by rewrite bool_decide_eq_true_2.
  - destruct (decide (k' = k)) as [->|Hne]; simpl.
    + by rewrite bool_decide_eq_true_2.
    + by rewrite bool_decide_eq_false_2.
Qed.

Lemma dict_get_set_ne {V} (d : list (string * V)) (k k' : string) (v : V) :
  k ≠ k' → dict_get (dict_set d k v) k' = dict_get d k'.
Proof.
  intros Hne. unfold dict_get. induction d as [|[k0 v0] d IH]; simpl.
  - by rewrite bool_decide_eq_false_2.
  - destruct (decide (k0 = k)) as [->|Hne0]; simpl.
    + by rewrite !bool_decide_eq_false_2.
    + destruct (bool_decide (k0 = k')); [done|]. exact IH.
Qed.

Lemma dict_fold_other (results : list (string * option string))
    (d : list (string * string)) (param : string) :
  param ∉ results.*1 →
  dict_get (foldl (λ d pt, dict_set d (fst pt) (dds_param pt)) d results) param
  = dict_get d param.
Proof.
  revert d. induction results as [|pt results IH]; intros d Hout; [done|].
  simpl. rewrite IH.
  - apply dict_get_set_ne. intros Heq. apply Hout. rewrite <- Heq. simpl. by left.
  - intros Hin. apply Hout. simpl. by right.
Qed.

Lemma dict_fold_get (results : list (string * option string))
    (d : list (string * string)) (param : string) (tex : string) :
  NoDup results.*1 → (param, Some tex) ∈ results →
  dict_get (foldl (λ d pt, dict_set d (fst pt) (dds_param pt)) d results) param
  = Some (fst (splitext tex) +:+ ".dds").
Proof.
  revert d. induction results as [|pt results IH]; intros d Hnd Hin.
  - by apply elem_of_nil in Hin.
  - simpl in Hnd. apply NoDup_cons in Hnd as [Hout Hnd].
    apply elem_of_cons in Hin as [<-|Hin]; simpl.
    + rewrite dict_fold_other by done. apply dict_get_set_eq.
    + by apply IH.
Qed.

Lemma texture_loop (mat_name : string) (results : list (string * option string)) :
  ∀ (w : World) (mat : Mat),
  materials w !! mat_name = Some mat →
  Forall (λ pt, is_Some (snd pt)) results →
  wp (for_each results (λ pt,
        match snd pt with
        | None => raise TypeError
        | Some tex_path =>
            let base_name_tex := fst (splitext tex_path) in
            update_mat mat_name (set_tex_param (fst pt) (base_name_tex +:+ ".dds")) ;;
            w <- get_world ;;
            let dds_name := base_name_tex +:+ ".dds" in
            let png_name := base_name_tex +:+ ".png" in
            match List.find (λ i, bool_decide (is_Some (images w !! i)))
                    [dds_name; png_name; tex_path] with
            | Some img =>
                update_mat mat_name (nodes_new "ShaderNodeTexImage" (Some img)) ;;
                if decide (fst pt = "BaseTexture") then ret tt
                else if decide (fst pt = "NormalTexture")
                     then update_mat mat_name (nodes_new "ShaderNodeNormalMap" None)
                     else ret tt
            | None => ret tt
            end
        end))
     (λ _ w', objects w' = objects w ∧
        ∃ mat', materials w' !! mat_name = Some mat' ∧
          use_nodes mat' = use_nodes mat ∧ shader mat' = shader mat ∧
          tex_params mat'
          = foldl (λ d pt, dict_set d (fst pt) (dds_param pt)) (tex_params mat) results)
     (λ _ _, False) w.
Proof.
  induction results as [|[param tex] results IH]; intros w mat Hmat Hall.
  - simpl. apply wp_ret. split; [done|]. by exists mat.
  - apply Forall_cons in Hall as [[tex_path Htex] Hall]. simpl in Htex. subst tex.
    simpl for_each. simpl snd. simpl fst. cbv zeta.
    assert (∀ w1 mat1,
      objects w1 = objects w →
      materials w1 !! mat_name = Some mat1 →
      same_properties (set_tex_param param (fst (splitext tex_path) +:+ ".dds") mat) mat1 →
      wp (for_each results (λ pt,
        match snd pt with
        | None => raise TypeError
        | Some tex_path =>
            let base_name_tex := fst (splitext tex_path) in
            update_mat mat_name (set_tex_param (fst pt) (base_name_tex +:+ ".dds")) ;;
            w <- get_world ;;
            let dds_name := base_name_tex +:+ ".dds" in
            let png_name := base_name_tex +:+ ".png" in
            match List.find (λ i, bool_decide (is_Some (images w !! i)))
                    [dds_name; png_name; tex_path] with
            | Some img =>
                update_mat mat_name (nodes_new "ShaderNodeTexImage" (Some img)) ;;
                if decide (fst pt = "BaseTexture") then ret tt
                else if decide (fst pt = "NormalTexture")
                     then update_mat mat_name (nodes_new "ShaderNodeNormalMap" None)
                     else ret tt
            | None => ret tt
            end
        end))
        (λ _ w', objects w' = objects w ∧
           ∃ mat', materials w' !! mat_name = Some mat' ∧
             use_nodes mat' = use_nodes mat ∧ shader mat' = shader mat ∧
             tex_params mat'
             = foldl (λ d pt, dict_set d (fst pt) (dds_param pt))
                 (dict_set (tex_params mat) param
                    (dds_param (param, Some tex_path))) results)
        (λ _ _, False) w1) as Hnext.
    { intros w1 mat1 Ho1 Hm1 (Hu & Hs & Ht).
      eapply wp_mono; [| |apply (IH w1 mat1 Hm1 Hall)]; [|done].
      intros u w' (Ho & mat' & Hm' & Hu' & Hs' & Ht'). split; [congruence|].
      exists mat'. split; [done|]. split; [by rewrite Hu', Hu|].
      split; [by rewrite Hs', Hs|]. by rewrite Ht', Ht. }
    assert (∀ f w0, materials (set_materials (alter f mat_name) w0) !! mat_name
                    = f <$> materials w0 !! mat_name) as Halter
      by (intros; simpl; apply lookup_alter_eq).
    apply wp_bind. unfold update_mat at 1. apply wp_bind, wp_modify.
    apply wp_bind, wp_get_world. cbv beta zeta.
    set (w1 := set_materials _ w).
    assert (materials w1 !! mat_name
            = Some (set_tex_param param (fst (splitext tex_path) +:+ ".dds") mat))
      as Hm1 by (unfold w1; by rewrite Halter, Hmat).
    match goal with
    | |- wp (match ?x with _ => _ end) _ _ _ => destruct x as [img|]
    end.
    + unfold update_mat at 1. apply wp_bind, wp_modify.
      set (w2 := set_materials _ w1).
      assert (materials w2 !! mat_name
              = Some (nodes_new "ShaderNodeTexImage" (Some img)
                        (set_tex_param param (fst (splitext tex_path) +:+ ".dds") mat)))
        as Hm2 by (unfold w2; by rewrite Halter, Hm1).
      destruct (decide (param = "BaseTexture")).
      { apply wp_ret. by eapply (Hnext w2). }
      destruct (decide (param = "NormalTexture")).
      { unfold update_mat. apply wp_modify. eapply Hnext; [done| |].
        - by rewrite Halter, Hm2.
        - done. }
      apply wp_ret. by eapply (Hnext w2).
    + apply wp_ret. by eapply (Hnext w1).
Qed.

Lemma assign_loop (objs : list nat) (mat_name : string) :
  ∀ w : World,
  wp (for_each objs (λ obj,
        update_obj obj (λ ob,
          {| o_name := o_name ob; o_type := o_type ob; o_parts := o_parts ob;
             o_uv_layers := o_uv_layers ob; o_materials := [Some mat_name] |})))
     (λ _ w', materials w' = materials w ∧
        ∀ o, objects w' !! o
             = if decide (o ∈ objs)
               then (λ ob, with_slots ob [Some mat_name]) <$> objects w !! o
               else objects w !! o)
     (λ _ _, False) w.
Proof.
  induction objs as [|obj objs IH]; intros w.
  - apply wp_ret. split; [done|]. intros o.
    rewrite decide_False; [done|]. apply not_elem_of_nil.
  - simpl. unfold update_obj at 1. apply wp_bind, wp_modify.
    eapply wp_mono; [| |apply IH]; [|done].
    intros u w' [Hm Hobjs]. split; [done|]. intros o. rewrite Hobjs. simpl.
    destruct (decide (o = obj)) as [->|Hne].
    + rewrite lookup_alter_eq. rewrite (decide_True (P := obj ∈ obj :: objs))
        by (by left).
      destruct (decide (obj ∈ objs)); [|done].
      by destruct (objects w !! obj).
    + rewrite lookup_alter_ne by done.
      destruct (decide (o ∈ objs)) as [Hin|Hout].
      * by rewrite decide_True by (by right).
      * rewrite decide_False; [done|]. by intros [?|?]%elem_of_cons.
Qed.

Lemma create_baked_material_shared_spec (first : nat) (rest : list nat)
    (results : list (string * option string)) (shader_name : string)
    (w : World) (ob : Obj) :
  objects w !! first = Some ob →
  Forall (λ pt, is_Some (snd pt)) results →
  let mat_name :=
    if decide (1 < length (first :: rest))%nat
    then replace (o_name ob) "_Baked" "" +:+ "_Atlas_Baked"
    else replace (o_name ob) "_Baked" "" +:+ "_Baked" in
  wp (create_baked_material_shared (first :: rest) results shader_name)
     (λ r w', r = mat_name ∧
        (∃ mat, materials w' !! mat_name = Some mat ∧
           use_nodes mat = true ∧ shader mat = shader_name ∧
           ∃ d, tex_params mat
                = foldl (λ d pt, dict_set d (fst pt) (dds_param pt)) d results) ∧
        ∀ o ob', o ∈ first :: rest → objects w !! o = Some ob' →
          objects w' !! o = Some (with_slots ob' [Some mat_name]))
     (λ _ _, False) w.
Proof.
  intros Hob Hall mat_name. unfold create_baked_material_shared.
  apply wp_bind, (wp_get_obj_some _ ob); [done|]. cbv zeta. fold mat_name.
  apply wp_bind, wp_get_world. apply wp_bind.
  apply (wp_mono _ (λ _ w1, objects w1 = objects w ∧ is_Some (materials w1 !! mat_name))
           _ (λ _ _, False)); [|done|].
  2: { destruct (decide (is_Some (materials w !! mat_name))) as [Hin|Hout].
       - by apply wp_ret.
       - apply wp_modify. simpl. split; [done|]. rewrite lookup_insert_eq. by eexists. }
  intros u w1 [Ho1 [mat1 Hm1]].
  unfold update_mat at 1 2 3 4 5.
  do 5 (apply wp_bind, wp_modify).
  set (w2 := set_materials _ (set_materials _ (set_materials _
               (set_materials _ (set_materials _ w1))))).
  assert (∃ mat2, materials w2 !! mat_name = Some mat2 ∧ use_nodes mat2 = true ∧
                  shader mat2 = shader_name) as (mat2 & Hm2 & Hu2 & Hs2).
  { unfold w2. simpl. rewrite !lookup_alter_eq, Hm1. simpl. by eexists. }
  assert (objects w2 = objects w) as Ho2 by done.
  apply wp_bind.
  eapply wp_mono; [| |apply (texture_loop mat_name results w2 mat2 Hm2 Hall)]; [|done].
  intros u3 w3 (Ho3 & mat3 & Hm3 & Hu3 & Hs3 & Ht3). cbv beta.
  apply wp_bind.
  eapply wp_mono; [| |apply assign_loop]; [|done].
  intros u4 w4 [Hm4 Ho4]. apply wp_ret. split; [done|]. split.
  - exists mat3. rewrite Hm4. split; [done|]. split; [congruence|].
    split; [congruence|]. by eexists.
  - intros o ob' Ho Hob'. rewrite Ho4.
    destruct (decide (o ∈ first :: rest)); [|done].
    by rewrite Ho3, Ho2, Hob'.
Qed.

(** X18.  [create_baked_material_shared] on texture results that all name a
    file: the material is called after the first object, with [_Baked]
    removed from its name and [_Atlas_Baked] (several objects) or [_Baked]
    (one) added; it uses nodes and carries the requested shader; every
    texture parameter is set to the texture's name with the extension
    replaced by [.dds], also when the file that was saved is a PNG; and every
    object of the list ends with that material as its only slot. *)
Theorem create_baked_material_shared_params (first : nat) (rest : list nat)
    (results : list (string * option string)) (shader_name : string)
    (w : World) (ob : Obj) :
  objects w !! first = Some ob →
  NoDup results.*1 →
  Forall (λ pt, is_Some (snd pt)) results →
  let mat_name :=
    if decide (1 < length (first :: rest))%nat
    then replace (o_name ob) "_Baked" "" +:+ "_Atlas_Baked"
    else replace (o_name ob) "_Baked" "" +:+ "_Baked" in
  ∃ w' mat,
    create_baked_material_shared (first :: rest) results shader_name w
    = Ret mat_name w' ∧
    materials w' !! mat_name = Some mat ∧
    use_nodes mat = true ∧ shader mat = shader_name ∧
    (∀ param tex, (param, Some tex) ∈ results →
       dict_get (tex_params mat) param = Some (fst (splitext tex) +:+ ".dds")) ∧
    (∀ o ob', o ∈ first :: rest → objects w !! o = Some ob' →
       objects w' !! o = Some (with_slots ob' [Some mat_name])).
Proof.
  intros Hob Hnd Hall mat_name.
  pose proof (create_baked_material_shared_spec first rest results shader_name
                w ob Hob Hall) as H.
  cbv zeta in H. fold mat_name in H. unfold wp in H.
  destruct (create_baked_material_shared _ _ _ w) as [r w'|e w']; [|done].
  destruct H as (-> & (mat & Hm & Hu & Hs & d & Ht) & Hobjs).
  exists w', mat. split; [done|]. split; [done|]. split; [done|]. split; [done|].
  split; [|done]. intros param tex Hin. rewrite Ht. by apply dict_fold_get.
Qed.

Lemma create_baked_material_shared_params_witness :
  ∃ w' mat,
    create_baked_material_shared [0%nat]
      [("BaseTexture", Some "Cube_BaseTexture.png");
       ("NormalTexture", Some "Cube_NormalTexture.png")] "MeshGloss.fx" cube_scene
    = Ret "Cube_Baked" w' ∧
    materials w' !! "Cube_Baked" = Some mat ∧
    use_nodes mat = true ∧ shader mat = "MeshGloss.fx" ∧
    (∀ param tex,
       (param, Some tex) ∈ [("BaseTexture", Some "Cube_BaseTexture.png");
                            ("NormalTexture", Some "Cube_NormalTexture.png")] →
       dict_get (tex_params mat) param = Some (fst (splitext tex) +:+ ".dds")) ∧
    (∀ o ob', o ∈ [0%nat] → objects cube_scene !! o = Some ob' →
       objects w' !! o = Some (with_slots ob' [Some "Cube_Baked"])).
Proof.
  apply (create_baked_material_shared_params 0 []
           [("BaseTexture", Some "Cube_BaseTexture.png");
            ("NormalTexture", Some "Cube_NormalTexture.png")] "MeshGloss.fx"
           cube_scene cube).
  - reflexivity.
  - simpl. apply NoDup_cons. split; [|apply NoDup_singleton].
    intros [=]%list_elem_of_singleton.
  - repeat constructor; by eexists.
Defined.

End MaterialFacts.

(* ===================================================================== *)
(** * The checks of validation.py *)
(* ===================================================================== *)

Section ChecksFacts.
Import Validation Scenarios Checks CheckScenarios.
Local Open Scope nat_scope.

(** ** Vertex groups, in full *)

Lemma sum_weights_spec (gs : list VertexGroupElement) (total : Q) :
  match sum_weights gs total with
  | inl _ => Exists (λ g, not_in_0_1 (weight g) = true) gs
  | inr total' =>
      Forall (λ g, not_in_0_1 (weight g) = false) gs ∧
      (total' == total + inject_Z (Z.of_nat
         (length (filter (λ g, Qeq_bool (weight g) 1 = true) gs))))%Q
  end.
Proof.
  revert total. induction gs as [|g gs IH]; intros total; simpl.
  - split; [constructor|]. simpl. ring.
  - destruct (not_in_0_1 (weight g)) eqn:Hg; [by left|].
    specialize (IH (total + weight g)%Q).
    destruct (sum_weights gs (total + weight g)) as [[]|total']; [by right|].
    destruct IH as [Hall Hsum]. split; [by constructor|].
    rewrite Hsum. rewrite filter_cons.
    apply not_in_0_1_false in Hg.
    destruct (decide (Qeq_bool (weight g) 1 = true)) as [H1|H1].
    + apply Qeq_bool_iff in H1. simpl length.
      rewrite Nat2Z.inj_succ. unfold Z.succ. rewrite inject_Z_plus, H1.
      change (inject_Z 1) with 1%Q. ring.
    + destruct Hg as [H0|Hone]; [|by apply Qeq_bool_iff in Hone].
      rewrite H0. ring.
Qed.

Lemma inject_nat_0_or_1 (n : nat) :
  (0 + inject_Z (Z.of_nat n) == 0 ∨ 0 + inject_Z (Z.of_nat n) == 1)%Q ↔ n ≤ 1.
Proof.
  rewrite !Qplus_0_l.
  change 0%Q with (inject_Z 0). change 1%Q with (inject_Z 1).
  rewrite !inject_Z_injective. lia.
Qed.

Lemma bad_vertex_false (v : MeshVertex) : bad_vertex v = false ↔ rigid_vertex v.
Proof.
  unfold bad_vertex, rigid_vertex.
  pose proof (sum_weights_spec (groups v) 0) as Hspec.
  destruct (sum_weights (groups v) 0) as [[]|total].
  - split; [done|]. intros [Hall _]. exfalso.
    apply Exists_exists in Hspec as (g & Hg & Hbad).
    rewrite Forall_forall in Hall. apply not_in_0_1_true in Hbad.
    destruct (Hall g Hg); tauto.
  - destruct Hspec as [Hall Hsum].
    rewrite not_in_0_1_false, Hsum, inject_nat_0_or_1.
    split; [|tauto]. intros Hle. split; [|done].
    eapply Forall_impl; [exact Hall|]. intros g. apply not_in_0_1_false.
Qed.

(** X19.  [checkVertexGroups] reports nothing exactly when the object has no
    vertex groups, or every vertex is rigidly bound: each of its weights is
    0 or 1 and at most one of them is 1. *)
Theorem checkVertexGroups_passes_iff (object : Object) :
  checkVertexGroups object = [] ↔
  vertex_groups object = None ∨ vertex_groups object = Some [] ∨
  Forall rigid_vertex (vertices object).
Proof.
  assert (Forall rigid_vertex (vertices object)
          ↔ scan_vertices (vertices object) = false) as Hscan.
  { rewrite <- not_true_iff_false, scan_vertices_true, <- Forall_Exists_neg.
    apply Forall_iff. intros v. rewrite <- bad_vertex_false.
    by destruct (bad_vertex v). }
  unfold checkVertexGroups. destruct (vertex_groups object) as [vgs|]; [|tauto].
  destruct (decide (length vgs = 0)) as [Hz|Hnz].
  - destruct vgs; [tauto | discriminate].
  - rewrite Hscan.
    destruct (scan_vertices (vertices object)).
    + split; [discriminate|]. intros [?|[[= ->]|?]]; done.
    + tauto.
Qed.

(** ** Loops that leave at the first hit *)

Lemma at_first_existsb {A S} (test : A → bool) (xs : list A) (action : S → S) (s : S) :
  at_first test xs action s = if existsb test xs then action s else s.
Proof.
  induction xs as [|x xs IH]; simpl; [done|]. by destruct (test x).
Qed.

(** ** Shadow volumes *)

Lemma checkShadowMesh_spec (object : SceneObject) (v : View) :
  match checkShadowMesh object v with
  | None => ∃ rest, materials object = None :: rest
  | Some (errors, v') =>
      (∀ rest, materials object ≠ None :: rest) ∧
      errors = shadow_findings object ∧
      if is_open_shadow object
      then mode v' = "EDIT_MESH" ∧ active v' = Some (name (base object)) ∧
           non_manifold_selected v' = Some (name (base object))
      else v' = v
  end.
Proof.
  unfold checkShadowMesh, shadow_findings, is_open_shadow, is_shadow_volume.
  destruct (materials object) as [|[material|] rest]; [done| |by eexists].
  destruct (is_shadow_shader (shaderList material)); [|done].
  rewrite !at_first_existsb. fold (has_loose_vertex object) (has_open_edge object).
  destruct (has_loose_vertex object), (has_open_edge object); by simpl.
Qed.

(** X20.  On a shadow volume [checkShadowMesh] reports the non-manifold
    error once for a non-manifold vertex and once more for an edge with
    fewer than two faces, so up to twice for one object; after a report the
    host is left in edit mode with the object active and its non-manifold
    elements selected, and without one the view is untouched. *)
Theorem checkShadowMesh_shadow_volume (object : SceneObject) (material : Material)
    (rest : list (option Material)) (v : View) :
  materials object = Some material :: rest →
  is_shadow_shader (shaderList material) = true →
  ∃ v',
    checkShadowMesh object v
    = Some ((if has_loose_vertex object then [non_manifold object] else []) ++
            (if has_open_edge object then [non_manifold object] else []), v') ∧
    if has_loose_vertex object || has_open_edge object
    then mode v' = "EDIT_MESH" ∧ active v' = Some (name (base object)) ∧
         non_manifold_selected v' = Some (name (base object))
    else v' = v.
Proof.
  intros Hmat Hshadow.
  pose proof (checkShadowMesh_spec object v) as H.
  destruct (checkShadowMesh object v) as [[errors v']|].
  - destruct H as (_ & -> & Hview). exists v'.
    unfold shadow_findings, is_open_shadow, is_shadow_volume in *.
    rewrite Hmat, Hshadow in *. by split.
  - destruct H as [rest' H]. congruence.
Qed.

Lemma checkShadowMesh_shadow_volume_witness :
  ∃ v',
    checkShadowMesh open_shadow object_view
    = Some ([non_manifold open_shadow] ++ [non_manifold open_shadow], v') ∧
    (mode v' = "EDIT_MESH" ∧ active v' = Some "Shadow" ∧
     non_manifold_selected v' = Some "Shadow").
Proof.
  apply (checkShadowMesh_shadow_volume open_shadow
           {| shaderList := "MeshShadowVolume.fx" |} [] object_view).
  - reflexivity.
  - reflexivity.
Defined.

(** ** UVs and material counts *)

Lemma checkUV_materials_spec (object : SceneObject) (slots : list (option Material))
    (errors : list Finding) :
  match checkUV_materials object slots errors with
  | None => None ∈ slots
  | Some _ => None ∉ slots
  end.
Proof.
  revert errors. induction slots as [|[material|] slots IH]; intros errors; simpl.
  - apply not_elem_of_nil.
  - match goal with
    | |- match checkUV_materials _ _ ?e with _ => _ end => specialize (IH e)
    end.
    destruct (checkUV_materials object slots _).
    + intros [[=]|?]%elem_of_cons. done.
    + by right.
  - by left.
Qed.

Lemma checkUV_spec (object : SceneObject) :
  match checkUV object with
  | None => has_empty_slot object
  | Some _ => ¬ has_empty_slot object
  end.
Proof.
  unfold checkUV, has_empty_slot.
  pose proof (checkUV_materials_spec object (materials object) []) as H.
  by destruct (checkUV_materials object (materials object) []).
Qed.

Lemma checkUV_collision_loop (object : SceneObject) (slots : list (option Material))
    (errors : list Finding) :
  HasCollision object = true → 1 < length (materials object) →
  Forall (λ slot, ∃ material, slot = Some material ∧
            is_shadow_shader (shaderList material) = false) slots →
  checkUV_materials object slots errors
  = Some (errors ++ replicate (length slots) (multiple_collision_materials object)).
Proof.
  intros Hcoll Hmany Hslots. revert errors.
  induction Hslots as [|slot slots (material & -> & Hplain) _ IH]; intros errors.
  - simpl. by rewrite app_nil_r.
  - simpl. rewrite Hplain, Hcoll. rewrite decide_True by done.
    rewrite IH. by rewrite <- app_assoc.
Qed.

(** X21.  On a collision mesh with more than one material (no slot empty,
    no shadow shader) [checkUV] reports the multiple-materials error once
    per material, not once per object, followed by the missing-UV error if
    the mesh has no UV layer. *)
Theorem checkUV_collision_mesh (object : SceneObject) :
  HasCollision object = true →
  1 < length (materials object) →
  Forall (λ slot, ∃ material, slot = Some material ∧
            is_shadow_shader (shaderList material) = false) (materials object) →
  checkUV object
  = Some (replicate (length (materials object)) (multiple_collision_materials object)
          ++ (if decide (uv_layers object = []) then [missing_uv object] else [])).
Proof.
  intros Hcoll Hmany Hslots. unfold checkUV.
  rewrite (checkUV_collision_loop object (materials object) [] Hcoll Hmany Hslots).
  simpl. destruct (decide (uv_layers object = [])); [done|]. by rewrite app_nil_r.
Qed.

Lemma checkUV_collision_mesh_witness :
  checkUV collision_mesh
  = Some (replicate 3 (multiple_collision_materials collision_mesh) ++ []).
Proof.
  apply (checkUV_collision_mesh collision_mesh).
  - reflexivity.
  - simpl. lia.
  - repeat constructor; by eexists.
Defined.

(** ** validate *)

Lemma over_objects_reads (check : SceneObject → list Finding)
    (mesh_list : list SceneObject) (errors : list Finding) (v : View) :
  over_objects (reads check) mesh_list errors v
  = Some (errors ++ (mesh_list ≫= check), v).
Proof.
  revert errors. induction mesh_list as [|object mesh_list IH]; intros errors; simpl.
  - by rewrite app_nil_r.
  - rewrite IH. by rewrite <- app_assoc.
Qed.

Lemma over_objects_checkUV (mesh_list : list SceneObject) (errors : list Finding)
    (v : View) :
  match over_objects (raising checkUV) mesh_list errors v with
  | None => Exists has_empty_slot mesh_list
  | Some (errors', v') =>
      Forall (λ object, ¬ has_empty_slot object) mesh_list ∧
      errors' = errors ++ (mesh_list ≫= uv_findings) ∧ v' = v
  end.
Proof.
  revert errors. induction mesh_list as [|object mesh_list IH]; intros errors; simpl.
  - by rewrite app_nil_r.
  - unfold raising at 1. pose proof (checkUV_spec object) as Hobj.
    unfold uv_findings at 1.
    destruct (checkUV object) as [found|]; simpl; [|by left].
    specialize (IH (errors ++ found)).
    destruct (over_objects (raising checkUV) mesh_list (errors ++ found) v)
      as [[errors' v']|]; [|by right].
    destruct IH as (Hall & -> & ->). split; [by constructor|].
    by rewrite <- app_assoc.
Qed.

(** The view after the shadow check of every object. *)
Lemma over_objects_checkShadowMesh (mesh_list : list SceneObject)
    (errors : list Finding) (v : View) :
  match over_objects checkShadowMesh mesh_list errors v with
  | None => Exists has_empty_slot mesh_list
  | Some (errors', v') =>
      errors' = errors ++ (mesh_list ≫= shadow_findings) ∧
      (Forall (λ object, is_open_shadow object = false) mesh_list → v' = v) ∧
      (Exists (λ object, is_open_shadow object = true) mesh_list →
       mode v' = "EDIT_MESH" ∧
       ∃ object, object ∈ mesh_list ∧ is_open_shadow object = true ∧
                 active v' = Some (name (base object)))
  end.
Proof.
  revert errors v. induction mesh_list as [|object mesh_list IH]; intros errors v; simpl.
  - rewrite app_nil_r. split; [done|]. split; [done|]. by intros ?%Exists_nil.
  - pose proof (checkShadowMesh_spec object v) as Hobj.
    destruct (checkShadowMesh object v) as [[found v1]|].
    2: { left. destruct Hobj as [rest Hrest]. unfold has_empty_slot.
         rewrite Hrest. by left. }
    destruct Hobj as (_ & -> & Hview).
    specialize (IH (errors ++ shadow_findings object) v1).
    destruct (over_objects checkShadowMesh mesh_list _ v1) as [[errors' v']|];
      [|by right].
    destruct IH as (-> & Hsame & Hedit).
    split; [by rewrite <- app_assoc|]. split.
    + intros [Hclosed Hrest]%Forall_cons. rewrite Hclosed in Hview.
      rewrite (Hsame Hrest). done.
    + intros Hex.
      destruct (decide (Exists (λ object, is_open_shadow object = true) mesh_list))
        as [Hlater|Hnone].
      * destruct (Hedit Hlater) as (Hmode & later & Hin & Hopen & Hact).
        split; [done|]. exists later. split; [by right | done].
      * apply Exists_cons in Hex as [Hopen|Hlater]; [|done].
        rewrite Hopen in Hview. destruct Hview as (Hmode & Hact & _).
        assert (v' = v1) as ->.
        { apply Hsame. apply Forall_Exists_neg in Hnone.
          eapply Forall_impl; [exact Hnone|]. intros o. simpl.
          by destruct (is_open_shadow o). }
        split; [done|]. exists object. split; [by left | done].
Qed.

Lemma validate_spec (scene : Scene) (mesh_list : list SceneObject) (v : View) :
  match validate scene mesh_list v with
  | None => Exists has_empty_slot mesh_list
  | Some (errors, v') =>
      Forall (λ object, ¬ has_empty_slot object) mesh_list ∧
      errors = findings_by_check scene mesh_list ∧
      (Forall (λ object, is_open_shadow object = false) mesh_list → v' = v) ∧
      (Exists (λ object, is_open_shadow object = true) mesh_list →
       mode v' = "EDIT_MESH" ∧
       ∃ object, object ∈ mesh_list ∧ is_open_shadow object = true ∧
                 active v' = Some (name (base object)))
  end.
Proof.
  unfold validate, checklist. simpl over_checks.
  pose proof (over_objects_checkShadowMesh mesh_list [] v) as Hshadow.
  destruct (over_objects checkShadowMesh mesh_list [] v) as [[e1 v1]|]; [|done].
  destruct Hshadow as (-> & Hsame & Hedit).
  pose proof (over_objects_checkUV mesh_list ([] ++ (mesh_list ≫= shadow_findings)) v1)
    as Huv.
  destruct (over_objects (raising checkUV) mesh_list _ v1) as [[e2 v2]|]; [|done].
  destruct Huv as (Hall & -> & ->).
  rewrite !over_objects_reads. simpl foldl.
  split; [done|]. split; [|by split].
  unfold findings_by_check. simpl. by rewrite <- !app_assoc.
Qed.

(** X22.  [validate] fails with the attribute error, and reports nothing at
    all, exactly when some object of the list has an empty material slot. *)
Theorem validate_raises_iff (scene : Scene) (mesh_list : list SceneObject) (v : View) :
  validate scene mesh_list v = None ↔ Exists has_empty_slot mesh_list.
Proof.
  pose proof (validate_spec scene mesh_list v) as H.
  destruct (validate scene mesh_list v) as [[errors v']|]; [|done].
  destruct H as [Hall _]. split; [done|].
  intros Hex. apply Exists_exists in Hex as (object & Hin & Hempty).
  rewrite Forall_forall in Hall. by destruct (Hall object Hin).
Qed.

(** X23.  Where no object has an empty material slot, [validate] returns
    the findings of every check for every object: nothing stops at the
    first error.  They come check by check -- all objects' shadow findings,
    then all objects' UV findings, and so on through the nine checks --
    followed by the active-skeleton check and the three armature checks. *)
Theorem validate_findings_in_order (scene : Scene) (mesh_list : list SceneObject)
    (v : View) :
  Forall (λ object, ¬ has_empty_slot object) mesh_list →
  ∃ v', validate scene mesh_list v = Some (findings_by_check scene mesh_list, v').
Proof.
  intros Hall.
  pose proof (validate_spec scene mesh_list v) as H.
  destruct (validate scene mesh_list v) as [[errors v']|].
  - destruct H as (_ & -> & _). by exists v'.
  - apply Exists_exists in H as (object & Hin & Hempty).
    rewrite Forall_forall in Hall. by destruct (Hall object Hin).
Qed.

Lemma validate_findings_in_order_witness :
  ∃ v',
    validate bare_scene [open_shadow; sound_mesh "Hull" "MeshGloss.fx"] object_view
    = Some (findings_by_check bare_scene
              [open_shadow; sound_mesh "Hull" "MeshGloss.fx"], v').
Proof.
  apply (validate_findings_in_order bare_scene
           [open_shadow; sound_mesh "Hull" "MeshGloss.fx"] object_view).
  repeat constructor; unfold has_empty_slot; simpl;
    intros H; repeat (apply elem_of_cons in H as [[=]|H]); by apply elem_of_nil in H.
Defined.

(** X24.  [validate] changes the host's view only through the shadow check:
    with no open shadow volume in the list the view is as before; with one,
    the host is left in edit mode, the active object being an open shadow
    volume of the list. *)
Theorem validate_leaves_edit_mode (scene : Scene) (mesh_list : list SceneObject)
    (v v' : View) (errors : list Finding) :
  validate scene mesh_list v = Some (errors, v') →
  (Forall (λ object, is_open_shadow object = false) mesh_list → v' = v) ∧
  (Exists (λ object, is_open_shadow object = true) mesh_list →
   mode v' = "EDIT_MESH" ∧
   ∃ object, object ∈ mesh_list ∧ is_open_shadow object = true ∧
             active v' = Some (name (base object))).
Proof.
  intros Hrun. pose proof (validate_spec scene mesh_list v) as H.
  rewrite Hrun in H. tauto.
Qed.

Lemma validate_leaves_edit_mode_witness :
  ∃ errors v',
    validate bare_scene [open_shadow; sound_mesh "Hull" "MeshGloss.fx"] object_view
    = Some (errors, v') ∧
    mode v' = "EDIT_MESH" ∧
    ∃ object, object ∈ [open_shadow; sound_mesh "Hull" "MeshGloss.fx"] ∧
              is_open_shadow object = true ∧
              active v' = Some (name (base object)).
Proof.
  assert (∃ errors v',
            validate bare_scene [open_shadow; sound_mesh "Hull" "MeshGloss.fx"]
              object_view = Some (errors, v')) as (errors & v' & Hrun)
    by (eexists _, _; vm_compute; reflexivity).
  exists errors, v'. split; [exact Hrun|].
  apply (validate_leaves_edit_mode bare_scene
           [open_shadow; sound_mesh "Hull" "MeshGloss.fx"] object_view v' errors Hrun).
  by left.
Defined.

(** ** Armature modifiers and constraints *)

Lemma check_modifiers_spec (activeSkeleton : string) (object : SceneObject)
    (mods : list Modifier) :
  (check_modifiers activeSkeleton object mods = [] ↔
   Forall (modifier_on_skeleton activeSkeleton) mods) ∧
  length (check_modifiers activeSkeleton object mods) ≤ 1.
Proof.
  induction mods as [|modifier mods [IHiff IHlen]]; simpl.
  - split; [|lia]. split; [constructor | done].
  - assert (modifier_on_skeleton activeSkeleton modifier →
            (check_modifiers activeSkeleton object mods = [] ↔
             Forall (modifier_on_skeleton activeSkeleton) (modifier :: mods)))
      as Hgo.
    { intros Hok. rewrite IHiff, Forall_cons. tauto. }
    destruct (decide (m_type modifier = "ARMATURE")) as [Harm|Hother].
    + destruct (m_object modifier) as [[target_name target_type]|] eqn:Hobj.
      * destruct (decide (target_type ≠ "NoneType")) as [Hty|Hty].
        -- destruct (decide (target_name ≠ activeSkeleton)) as [Hnm|Hnm].
           ++ split; [|simpl; lia]. split; [done|].
              intros [Hok _]%Forall_cons.
              destruct (Hok Harm) as (n & t & Heq & Hcase).
              rewrite Hobj in Heq. injection Heq as <- <-. by destruct Hcase.
           ++ split; [|done]. apply Hgo. intros _.
              exists target_name, target_type. split; [done|]. right.
              by destruct (decide (target_name = activeSkeleton)).
        -- split; [|done]. apply Hgo. intros _.
           exists target_name, target_type. split; [done|]. left.
           by destruct (decide (target_type = "NoneType")).
      * split; [|simpl; lia]. split; [done|].
        intros [Hok _]%Forall_cons.
        destruct (Hok Harm) as (n & t & Heq & _). by rewrite Hobj in Heq.
    + split; [|done]. apply Hgo. by intros ?.
Qed.

Lemma constraint_off_skeleton_false (activeSkeleton : string) (c : Constraint) :
  constraint_off_skeleton activeSkeleton c = false ↔
  constraint_on_skeleton activeSkeleton c.
Proof.
  unfold constraint_off_skeleton, constraint_on_skeleton.
  destruct (decide (c_type c = "CHILD_OF")) as [Hty|Hty].
  - rewrite bool_decide_eq_true_2 by done. simpl.
    destruct (c_target c) as [target_name|].
    + rewrite bool_decide_eq_false. split.
      * intros Heq _ t [= <-]. by destruct (decide (target_name = activeSkeleton)).
      * intros Hon Hne. by apply Hne, Hon.
    + split; [by intros _ _ ? [=] | done].
  - rewrite bool_decide_eq_false_2 by done. simpl. split; [by intros _ ? | done].
Qed.

Lemma existsb_false_Forall {A} (f : A → bool) (P : A → Prop) (xs : list A) :
  (∀ x, f x = false ↔ P x) → existsb f xs = false ↔ Forall P xs.
Proof.
  intros Hf. induction xs as [|x xs IH]; simpl.
  - split; [constructor | done].
  - rewrite orb_false_iff, Forall_cons, IH, Hf. tauto.
Qed.

(** X25.  [checkInvalidArmatureModifier] reports nothing exactly when every
    armature modifier has an object that is the active skeleton and every
    child-of constraint with a target targets the active skeleton; it never
    reports more than two findings, one for the modifiers and one for the
    constraints, however many of them are wrong. *)
Theorem checkInvalidArmatureModifier_passes_iff (scene : Scene) (object : SceneObject) :
  (checkInvalidArmatureModifier scene object = [] ↔
   Forall (modifier_on_skeleton (skeletonEnum scene)) (modifiers object) ∧
   Forall (constraint_on_skeleton (skeletonEnum scene)) (constraints object)) ∧
  length (checkInvalidArmatureModifier scene object) ≤ 2.
Proof.
  unfold checkInvalidArmatureModifier. cbv zeta. rewrite at_first_existsb.
  destruct (check_modifiers_spec (skeletonEnum scene) object (modifiers object))
    as [Hiff Hlen].
  pose proof (existsb_false_Forall _ _ (constraints object)
                (constraint_off_skeleton_false (skeletonEnum scene))) as Hcons.
  destruct (existsb (constraint_off_skeleton (skeletonEnum scene)) (constraints object)).
  - split; [|rewrite length_app; simpl; lia]. split.
    + intros Hnil. by destruct (check_modifiers _ _ _).
    + intros [_ Hon]. apply Hcons in Hon. done.
  - split; [|lia]. rewrite Hiff. split; [|tauto].
    intros Hmods. split; [done|]. by apply Hcons.
Qed.

(** ** Bone names *)

Lemma checkBoneNames_loop (names : list string) (errors : list Finding) :
  foldl (λ errors bone,
    let errors :=
      if decide (63 < String.length bone)
      then errors ++ [name_too_long bone] else errors in
    if negb (isascii bone) then errors ++ [name_not_ascii bone] else errors)
    errors names
  = errors ++ (names ≫= bone_name_findings).
Proof.
  revert errors. induction names as [|bone names IH]; intros errors; simpl.
  - by rewrite app_nil_r.
  - rewrite IH. unfold bone_name_findings at 2.
    destruct (decide (63 < String.length bone)), (isascii bone); simpl;
      by rewrite <- ?app_assoc, ?app_nil_r.
Qed.

Lemma bone_name_findings_length (bone : string) :
  length (bone_name_findings bone)
  = (if decide (63 < String.length bone) then 1 else 0)
    + (if isascii bone then 0 else 1).
Proof.
  unfold bone_name_findings.
  by destruct (decide (63 < String.length bone)), (isascii bone).
Qed.

Lemma bone_findings_spec (names : list string) :
  ((names ≫= bone_name_findings) = [] ↔
   Forall (λ bone, String.length bone ≤ 63 ∧ isascii bone = true) names) ∧
  length (names ≫= bone_name_findings)
  = length (filter (λ bone, 63 < String.length bone) names)
    + length (filter (λ bone, isascii bone = false) names).
Proof.
  induction names as [|bone names [IHiff IHlen]].
  - split; [|done]. split; [constructor | done].
  - change ((bone :: names) ≫= bone_name_findings)
      with (bone_name_findings bone ++ (names ≫= bone_name_findings)).
    rewrite length_app, IHlen, bone_name_findings_length, !filter_cons.
    split.
    + rewrite Forall_cons, <- IHiff. unfold bone_name_findings.
      destruct (decide (63 < String.length bone)) as [Hlong|Hshort],
        (isascii bone); simpl.
      * split; [done | intros [[? _] _]; lia].
      * split; [done | intros [[? _] _]; lia].
      * split; [intros ->; split; [split; [lia|done] | done] | by intros [_ ?]].
      * split; [done | by intros [[_ ?] _]].
    + destruct (decide (63 < String.length bone)),
        (decide (isascii bone = false)) as [Hna|Hna];
        destruct (isascii bone); simpl; try done; lia.
Qed.

(** X26.  With an armature in the scene, [checkBoneNames] reports nothing
    exactly when every bone name has at most 63 characters and is ASCII;
    otherwise it reports one finding per name that is too long plus one per
    name that is not ASCII, so two for a bone whose name is both. *)
Theorem checkBoneNames_findings (scene : Scene) (armature : Armature) :
  findArmature scene = Some armature →
  (checkBoneNames scene = [] ↔
   Forall (λ bone, String.length bone ≤ 63 ∧ isascii bone = true) (bones armature)) ∧
  length (checkBoneNames scene)
  = length (filter (λ bone, 63 < String.length bone) (bones armature))
    + length (filter (λ bone, isascii bone = false) (bones armature)).
Proof.
  intros Harm. unfold checkBoneNames. rewrite Harm.
  rewrite checkBoneNames_loop. simpl. apply bone_findings_spec.
Qed.

Lemma checkBoneNames_findings_witness :
  (checkBoneNames rigged_scene = [] ↔
   Forall (λ bone, String.length bone ≤ 63 ∧ isascii bone = true)
     (bones turret_armature)) ∧
  length (checkBoneNames rigged_scene)
  = length (filter (λ bone, 63 < String.length bone) (bones turret_armature))
    + length (filter (λ bone, isascii bone = false) (bones turret_armature)).
Proof.
  apply (checkBoneNames_findings rigged_scene turret_armature).
  reflexivity.
Defined.

(** ** The export list *)

Lemma Collection_ind (P : Collection → Prop) :
  (∀ hide objs children, Forall P children → P (Coll hide objs children)) →
  ∀ collection, P collection.
Proof.
  intros Hstep. fix IH 1. intros [hide objs children]. apply Hstep.
  induction children as [|child children IHchildren]; constructor;
    [apply IH | exact IHchildren].
Qed.

Variable naming : Naming.

Lemma exportable_test (exportHiddenObjects : bool) (object : SceneObject) :
  bool_decide (type (base object) = "MESH")
  && (negb (hide_viewport object) || exportHiddenObjects) = true
  ↔ exportable exportHiddenObjects object.
Proof.
  unfold exportable.
  rewrite andb_true_iff, orb_true_iff, bool_decide_eq_true, negb_true_iff. tauto.
Qed.

Lemma export_objects_members (objs : list SceneObject) (exportHiddenObjects : bool)
    (useNamesFrom : string) (export_list : list SceneObject)
    (data_names : gmap nat string) (object : SceneObject) :
  object ∈ fst (export_objects naming objs exportHiddenObjects useNamesFrom
                  export_list data_names)
  ↔ object ∈ export_list ∨ (object ∈ objs ∧ exportable exportHiddenObjects object).
Proof.
  revert export_list data_names.
  induction objs as [|o objs IH]; intros export_list data_names; simpl.
  - rewrite elem_of_nil. tauto.
  - pose proof (exportable_test exportHiddenObjects o) as Htest.
    destruct (bool_decide (type (base o) = "MESH")
              && (negb (hide_viewport o) || exportHiddenObjects)).
    + rewrite IH, elem_of_app, list_elem_of_singleton, elem_of_cons.
      split; [|intros [?|[[->|?] ?]]; tauto].
      intros [[?| ->]|[? ?]]; [tauto| |tauto]. right. split; [by left|].
      by apply Htest.
    + rewrite IH, elem_of_cons. split; [tauto|].
      intros [?|[[->|?] Hex]]; [tauto| |tauto].
      apply Htest in Hex. done.
Qed.

Lemma extend_members (children : list Collection) (exportHiddenObjects : bool)
    (useNamesFrom : string) (object : SceneObject) :
  Forall (λ child, ∀ data_names,
    object ∈ fst (create_export_list naming child exportHiddenObjects useNamesFrom data_names)
    ↔ visible_member child object ∧ exportable exportHiddenObjects object) children →
  ∀ acc,
  object ∈ fst (foldl (λ acc child,
      let sub := create_export_list naming child exportHiddenObjects useNamesFrom (snd acc) in
      (fst acc ++ fst sub, snd sub)) acc children)
  ↔ object ∈ fst acc ∨
    ∃ child, child ∈ children ∧ visible_member child object ∧
             exportable exportHiddenObjects object.
Proof.
  induction 1 as [|child children Hchild _ IH]; intros acc; simpl.
  - split; [by left|]. intros [?|(child & Hin & _)]; [done|].
    by apply elem_of_nil in Hin.
  - rewrite IH. simpl. rewrite elem_of_app, Hchild. split.
    + intros [[?|[? ?]]|(c & Hin & ?)]; [by left | |].
      * right. exists child. split; [by left | done].
      * right. exists c. split; [by right | done].
    + intros [?|(c & [->|Hin]%elem_of_cons & ?)]; [tauto|tauto|].
      right. by exists c.
Qed.

(** X27.  [create_export_list] returns exactly the mesh objects that are
    visible, or all mesh objects when hidden objects are exported, of the
    collection and of the collections below it that are reached without
    passing a hidden collection: a hidden collection exports nothing, nor do
    the collections inside it. *)
Theorem create_export_list_members (collection : Collection)
    (exportHiddenObjects : bool) (useNamesFrom : string)
    (data_names : gmap nat string) (object : SceneObject) :
  object ∈ fst (create_export_list naming collection exportHiddenObjects useNamesFrom
                  data_names)
  ↔ visible_member collection object ∧ exportable exportHiddenObjects object.
Proof.
  revert data_names. induction collection as [hide objs children IH]
    using Collection_ind. intros data_names. simpl.
  destruct hide.
  - simpl. rewrite elem_of_nil. split; [done|]. intros [Hvis _]. inversion Hvis.
  - rewrite (extend_members children exportHiddenObjects useNamesFrom object IH).
    rewrite export_objects_members, elem_of_nil. split.
    + intros [[[]|[Hin Hex]]|(child & Hin & Hvis & Hex)].
      * split; [by apply member_here | done].
      * split; [by eapply member_below | done].
    + intros [Hvis Hex]. inversion Hvis; subst.
      * left. right. done.
      * right. by eexists.
Qed.

(** ** The names of the mesh datablocks *)

Lemma names_follow_add (start : gmap nat string) (export_list : list SceneObject)
    (data_names : gmap nat string) (object : SceneObject) :
  names_follow naming start export_list data_names →
  names_follow naming start (export_list ++ [object])
    (set_data_name naming (data object) (name (base object)) data_names).
Proof.
  intros [Hnamed Hrest]. unfold set_data_name. split.
  - intros o Ho.
    destruct (decide (data o = data object)) as [Heq|Hne].
    + exists object, (name_taken_by_other data_names (data object)).
      split; [apply elem_of_app; right; by left|].
      split; [done|]. rewrite Heq. apply lookup_insert_eq.
    + apply elem_of_app in Ho as [Ho|Ho%list_elem_of_singleton]; [|by subst].
      destruct (Hnamed o Ho) as (namesake & taken & Hin & Hdata & Hname).
      exists namesake, taken. split; [apply elem_of_app; by left|]. split; [done|].
      by rewrite lookup_insert_ne.
  - intros d Hd. rewrite lookup_insert_ne.
    + apply Hrest. intros o Ho. apply Hd, elem_of_app. by left.
    + apply Hd, elem_of_app. right. by left.
Qed.

Lemma export_objects_names (objs : list SceneObject) (exportHiddenObjects : bool)
    (start : gmap nat string) :
  ∀ export_list data_names,
  names_follow naming start export_list data_names →
  names_follow naming start
    (fst (export_objects naming objs exportHiddenObjects "OBJECT" export_list data_names))
    (snd (export_objects naming objs exportHiddenObjects "OBJECT" export_list data_names)).
Proof.
  induction objs as [|o objs IH]; intros export_list data_names Hinv; simpl; [done|].
  destruct (bool_decide (type (base o) = "MESH")
            && (negb (hide_viewport o) || exportHiddenObjects)); [|by apply IH].
  apply IH. by apply names_follow_add.
Qed.

Lemma export_objects_prefix (objs : list SceneObject) (exportHiddenObjects : bool)
    (useNamesFrom : string) :
  ∀ export_list data_names,
  fst (export_objects naming objs exportHiddenObjects useNamesFrom export_list data_names)
  = export_list ++
    fst (export_objects naming objs exportHiddenObjects useNamesFrom [] data_names) ∧
  snd (export_objects naming objs exportHiddenObjects useNamesFrom export_list data_names)
  = snd (export_objects naming objs exportHiddenObjects useNamesFrom [] data_names).
Proof.
  induction objs as [|o objs IH]; intros export_list data_names; simpl.
  - by rewrite app_nil_r.
  - destruct (bool_decide (type (base o) = "MESH")
              && (negb (hide_viewport o) || exportHiddenObjects)); [|apply IH].
    destruct (IH (export_list ++ [o])
                (if decide (useNamesFrom = "OBJECT")
                 then set_data_name naming (data o) (name (base o)) data_names else data_names))
      as [-> ->].
    destruct (IH [o]
                (if decide (useNamesFrom = "OBJECT")
                 then set_data_name naming (data o) (name (base o)) data_names else data_names))
      as [-> ->].
    by rewrite <- !app_assoc.
Qed.

Lemma create_export_list_names_from (start : gmap nat string)
    (exportHiddenObjects : bool) (collection : Collection) :
  ∀ before data_names,
  names_follow naming start before data_names →
  names_follow naming start
    (before ++ fst (create_export_list naming collection exportHiddenObjects "OBJECT"
                      data_names))
    (snd (create_export_list naming collection exportHiddenObjects "OBJECT" data_names)).
Proof.
  induction collection as [hide objs children IH] using Collection_ind.
  intros before data_names Hinv. simpl. destruct hide.
  { simpl. by rewrite app_nil_r. }
  pose proof (export_objects_names objs exportHiddenObjects start before
                data_names Hinv) as Hown.
  destruct (export_objects_prefix objs exportHiddenObjects "OBJECT" before data_names)
    as [Hfst Hsnd].
  rewrite Hfst, Hsnd in Hown. clear Hfst Hsnd.
  revert Hown.
  generalize (export_objects naming objs exportHiddenObjects "OBJECT" [] data_names).
  induction IH as [|child children Hchild _ IHchildren]; intros acc Hacc; simpl.
  - done.
  - apply IHchildren. simpl. rewrite app_assoc. by apply Hchild.
Qed.

Lemma export_objects_names_kept (objs : list SceneObject) (exportHiddenObjects : bool)
    (useNamesFrom : string) :
  useNamesFrom ≠ "OBJECT" →
  ∀ export_list data_names,
  snd (export_objects naming objs exportHiddenObjects useNamesFrom export_list data_names)
  = data_names.
Proof.
  intros Hne. induction objs as [|o objs IH]; intros export_list data_names; simpl;
    [done|].
  destruct (bool_decide (type (base o) = "MESH")
            && (negb (hide_viewport o) || exportHiddenObjects)); [|apply IH].
  rewrite IH. by rewrite decide_False.
Qed.

Lemma create_export_list_names_kept (exportHiddenObjects : bool)
    (useNamesFrom : string) (collection : Collection) :
  useNamesFrom ≠ "OBJECT" →
  ∀ data_names,
  snd (create_export_list naming collection exportHiddenObjects useNamesFrom data_names)
  = data_names.
Proof.
  intros Hne. induction collection as [hide objs children IH] using Collection_ind.
  intros data_names. simpl. destruct hide; [done|].
  pose proof (export_objects_names_kept objs exportHiddenObjects useNamesFrom Hne
                [] data_names) as Hown.
  revert Hown.
  generalize (export_objects naming objs exportHiddenObjects useNamesFrom [] data_names).
  induction IH as [|child children Hchild _ IHchildren]; intros acc Hacc; simpl.
  - done.
  - apply IHchildren. simpl. by rewrite Hchild.
Qed.

(** X28.  Naming the mesh data after the objects: with [useNamesFrom] set to
    OBJECT, after [create_export_list] the datablock of every exported
    object carries the name the host gave it when the name of an exported
    object that uses it was asked for (the host adds a suffix where another
    datablock has the name), and a datablock no exported object uses keeps
    its name; with any other setting no datablock is renamed. *)
Theorem create_export_list_data_names (collection : Collection)
    (exportHiddenObjects : bool) (useNamesFrom : string)
    (data_names : gmap nat string) :
  (useNamesFrom = "OBJECT" →
   names_follow naming data_names
     (fst (create_export_list naming collection exportHiddenObjects useNamesFrom data_names))
     (snd (create_export_list naming collection exportHiddenObjects useNamesFrom data_names))) ∧
  (useNamesFrom ≠ "OBJECT" →
   snd (create_export_list naming collection exportHiddenObjects useNamesFrom data_names)
   = data_names).
Proof.
  split.
  - intros ->.
    apply (create_export_list_names_from data_names exportHiddenObjects collection
             [] data_names).
    split; [by intros o Ho%elem_of_nil | done].
  - intros Hne. by apply create_export_list_names_kept.
Qed.

End ChecksFacts.

(* ===================================================================== *)
(** * The bake operator *)
(* ===================================================================== *)

Section OperatorFacts.
Import Bake Logic Scenarios Operator.
Local Open Scope pipeline_scope.

Lemma last_report (l : Level) (t : string) (reports : list Report) :
  last (report l t reports) = Some {| level := l; text := t |}.
Proof. unfold report. apply last_snoc. Qed.

Lemma keeps_engine_execute host str settings :
  keeps render_engine (execute host str settings).
Proof.
  unfold execute. apply keeps_bind.
  { unfold selected_meshes. apply keeps_bind; [apply keeps_get_world|].
    intros w. apply keeps_ret. }
  intros selected. destruct (decide (length selected = 0)%nat); [apply keeps_ret|].
  cbv zeta. apply keeps_try_except; [|intros e; apply keeps_ret].
  apply keeps_bind; [apply keeps_engine_run_pipeline|].
  intros [[baked_objs results]|]; [|apply keeps_raise].
  destruct (decide (length selected = 1)%nat); [|apply keeps_ret].
  destruct baked_objs as [|first rest]; [apply keeps_raise|].
  apply keeps_bind; [apply keeps_get_obj|]. intros ob.
  destruct (decide (alamo_bake_alpha_mode settings = "EXTRACT_SATURATION"));
    apply keeps_ret.
Qed.

Lemma execute_reports host str settings w :
  wp (execute host str settings)
     (λ r w', (∃ final, last (fst r) = Some final ∧
                        level final = closing_level (snd r)) ∧
              (filter (λ o, is_mesh w o = true) (selected w) = [] →
               snd r = CANCELLED ∧ w' = w))
     (λ _ _, False) w.
Proof.
  unfold execute, selected_meshes.
  apply wp_bind, wp_bind, wp_get_world, wp_ret.
  destruct (decide (length (filter (λ o, is_mesh w o = true) (selected w)) = 0)%nat)
    as [Hnone|Hsome].
  { apply wp_ret. split; [|done]. eexists. split; [apply last_report | done]. }
  assert (filter (λ o, is_mesh w o = true) (selected w) ≠ []) as Hne
    by (intros Hnil; by rewrite Hnil in Hsome).
  cbv zeta. apply wp_try_except. apply wp_bind_any.
  - intros [[baked_objs results]|] w1.
    + destruct (decide (length (filter (λ o, is_mesh w o = true) (selected w)) = 1)%nat).
      * destruct baked_objs as [|first rest].
        -- apply wp_raise, wp_ret. split; [|done].
           eexists. split; [apply last_report | done].
        -- apply wp_bind. unfold wp at 1, get_obj.
           destruct (objects w1 !! first) as [ob|].
           ++ destruct (decide (alamo_bake_alpha_mode settings = "EXTRACT_SATURATION"));
                apply wp_ret; (split; [|done]);
                eexists; (split; [apply last_report | done]).
           ++ apply wp_ret. split; [|done].
              eexists. split; [apply last_report | done].
      * apply wp_ret. split; [|done]. eexists. split; [apply last_report | done].
    + apply wp_raise, wp_ret. split; [|done].
      eexists. split; [apply last_report | done].
  - intros e w1. apply wp_ret. split; [|done].
    eexists. split; [apply last_report | done].
Qed.

(** X29.  The bake operator never raises: whatever the pipeline does,
    [execute] returns a status with its reports.  It returns [FINISHED] with
    an [INFO] report last, or [CANCELLED] with an [ERROR] report last; the
    render engine is the one set before; and with no mesh object selected it
    cancels without touching the scene. *)
Theorem execute_never_raises (host : Host) (str : Exn → string)
    (settings : BakeSettings) (w : World) :
  ∃ reports status w',
    execute host str settings w = Ret (reports, status) w' ∧
    render_engine w' = render_engine w ∧
    (∃ final, last reports = Some final ∧ level final = closing_level status) ∧
    (filter (λ o, is_mesh w o = true) (selected w) = [] →
     status = CANCELLED ∧ w' = w).
Proof.
  pose proof (execute_reports host str settings w) as Hrep.
  pose proof (keeps_engine_execute host str settings w) as Heng.
  unfold wp in Hrep, Heng.
  destruct (execute host str settings w) as [[reports status] w'|e w']; [|done].
  exists reports, status, w'. simpl in Hrep. tauto.
Qed.

End OperatorFacts.
